(** * Competitor Intelligence Radar: the analysis and ingestion pipeline

    A shallow embedding of [src/lib/ai.ts] (the rule-based classifier) and
    of [src/lib/ingestion.ts] (the clustering, alerting and pipeline jobs),
    followed by the properties the specification states about them.

    Conventions of the model.
    - A JavaScript string is a [string] whose characters are read as the
      UTF-16 code units U+0000 .. U+00FF (Latin-1).  On that range
      [toLowerCase] and the case folding of an [/i] regular expression act
      on one code unit at a time, which is how they are written below.
      Beyond Latin-1 [toLowerCase] depends on the context (the Greek
      capital sigma); the module [Utf16] has strings of arbitrary code
      units and that rule, and agrees with [JsString] on Latin-1.
    - A Prisma table is a list of records in storage order; [findFirst] and
      [findMany] without [orderBy] walk it front to back.
    - Identifiers generated by the database are natural numbers drawn from
      a counter kept in the store.
    - A job reads the wall clock once; the reading is the argument [now]
      (milliseconds since the epoch). *)

From Stdlib Require Import String Ascii List Bool ZArith QArith Qround Lia Lqa.
From Stdlib Require Import Permutation Sorted.
Import ListNotations.
Local Open Scope string_scope.

(* ================================================================== *)
(** ** JavaScript strings *)

Module JsString.

Definition code (c : ascii) : N := N_of_ascii c.

Definition between (lo hi : N) (c : ascii) : bool :=
  (lo <=? code c)%N && (code c <=? hi)%N.

(** [String.prototype.toLowerCase] on one Latin-1 code unit: A-Z and the
    accented capitals U+00C0 .. U+00DE (but not the sign U+00D7) move up
    by 32, everything else stays. *)
Definition lowerChar (c : ascii) : ascii :=
  if between 65 90 c || (between 192 222 c && negb (code c =? 215)%N)
  then ascii_of_N (code c + 32)
  else c.

Fixpoint toLowerCase (s : string) : string :=
  match s with
  | EmptyString => EmptyString
  | String c s' => String (lowerChar c) (toLowerCase s')
  end.

(** [s.startsWith(p)] *)
Fixpoint startsWith (s p : string) {struct p} : bool :=
  match p, s with
  | EmptyString, _ => true
  | String _ _, EmptyString => false
  | String a p', String b s' => if Ascii.eqb a b then startsWith s' p' else false
  end.

(** [s.includes(sub)]: [sub] occurs in [s] at some position. *)
Fixpoint includes (s sub : string) : bool :=
  if startsWith s sub then true
  else match s with
       | EmptyString => false
       | String _ s' => includes s' sub
       end.

(** [a || b] on a nullable string: the empty string and [null] are both
    falsy. *)
Definition orElse (a : option string) (b : string) : string :=
  match a with
  | Some (String c s) => String c s
  | _ => b
  end.

End JsString.

(* ================================================================== *)
(** ** Regular expressions, as far as the pattern tables use them *)

Module Regex.
Import JsString.

(** One-character atoms.  Every pattern of the source carries the [i]
    flag (and no other), so atoms compare after canonicalisation. *)
Inductive atom : Type :=
| Lit (c : ascii)            (* a pattern character *)
| AnyChar                    (* .  *)
| Space                      (* \s *)
| Digit                      (* \d *)
| Range (lo hi : ascii).     (* [lo-hi] *)

(** Quantifiers of the source patterns only ever apply to a one-character
    atom ([\s*], [.*], [\d+], [s?], [\$?]); groups are never repeated. *)
Inductive regex : Type :=
| Eps
| Atom (a : atom)
| Seq (r1 r2 : regex)
| Alt (r1 r2 : regex)
| Opt (a : atom)             (* a? *)
| Star (a : atom)            (* a* *)
| Plus (a : atom)            (* a+ *)
| WordB.                     (* \b *)

(** Canonicalize of an ignore-case, non-unicode pattern: the upper-case
    form of the code unit when that is again one code unit and does not
    fold a non-ASCII unit onto an ASCII one. *)
Definition canon (c : ascii) : ascii :=
  if between 97 122 c || (between 224 254 c && negb (code c =? 247)%N)
  then ascii_of_N (code c - 32)
  else c.

Definition isLineTerminator (c : ascii) : bool :=
  (code c =? 10)%N || (code c =? 13)%N.

Definition isWhiteSpace (c : ascii) : bool :=
  between 9 13 c || (code c =? 32)%N || (code c =? 160)%N.

Definition isDigit (c : ascii) : bool := between 48 57 c.

(** The characters of [\w], which decide [\b]. *)
Definition isWordChar (c : ascii) : bool :=
  between 97 122 c || between 65 90 c || isDigit c || (code c =? 95)%N.

Definition atomMatches (a : atom) (c : ascii) : bool :=
  match a with
  | Lit p => Ascii.eqb (canon p) (canon c)
  | AnyChar => negb (isLineTerminator c)
  | Space => isWhiteSpace c
  | Digit => isDigit c
  | Range lo hi =>
      between (code lo) (code hi) c
      || between (code lo) (code hi) (canon c)
      || between (code lo) (code hi) (lowerChar c)
  end.

Definition wordBefore (prev : option ascii) : bool :=
  match prev with Some c => isWordChar c | None => false end.

Definition wordAfter (s : string) : bool :=
  match s with String c _ => isWordChar c | EmptyString => false end.

Definition isBoundary (prev : option ascii) (s : string) : bool :=
  xorb (wordBefore prev) (wordAfter s).

(** Greedy repetition of an atom, with backtracking into the
    continuation [k]. *)
Fixpoint starFrom (a : atom) (prev : option ascii) (s : string)
         (k : option ascii -> string -> bool) : bool :=
  match s with
  | String c s' =>
      if atomMatches a c
      then (if starFrom a (Some c) s' k then true else k prev s)
      else k prev s
  | EmptyString => k prev s
  end.

(** [matchFrom r prev s k]: some match of [r] at the head of [s] (the
    character before it being [prev]) leaves a rest accepted by [k]. *)
Fixpoint matchFrom (r : regex) (prev : option ascii) (s : string)
         (k : option ascii -> string -> bool) : bool :=
  match r with
  | Eps => k prev s
  | Atom a =>
      match s with
      | String c s' => if atomMatches a c then k (Some c) s' else false
      | EmptyString => false
      end
  | Seq r1 r2 => matchFrom r1 prev s (fun p s' => matchFrom r2 p s' k)
  | Alt r1 r2 => if matchFrom r1 prev s k then true else matchFrom r2 prev s k
  | Opt a =>
      match s with
      | String c s' =>
          if atomMatches a c
          then (if k (Some c) s' then true else k prev s)
          else k prev s
      | EmptyString => k prev s
      end
  | Star a => starFrom a prev s k
  | Plus a =>
      match s with
      | String c s' => if atomMatches a c then starFrom a (Some c) s' k else false
      | EmptyString => false
      end
  | WordB => if isBoundary prev s then k prev s else false
  end.

Definition accept : option ascii -> string -> bool := fun _ _ => true.

Fixpoint searchFrom (r : regex) (prev : option ascii) (s : string) : bool :=
  if matchFrom r prev s accept then true
  else match s with
       | String c s' => searchFrom r (Some c) s'
       | EmptyString => false
       end.

(** [pattern.test(text)] for a pattern without the [g] or [y] flag: a
    match starting at any position. *)
Definition test (r : regex) (text : string) : bool := searchFrom r None text.

(** A run of pattern characters. *)
Fixpoint lit (w : string) : regex :=
  match w with
  | EmptyString => Eps
  | String c EmptyString => Atom (Lit c)
  | String c w' => Seq (Atom (Lit c)) (lit w')
  end.

Fixpoint seqs (rs : list regex) : regex :=
  match rs with
  | [] => Eps
  | [r] => r
  | r :: rs' => Seq r (seqs rs')
  end.

Fixpoint alts (r : regex) (rs : list regex) : regex :=
  match rs with
  | [] => r
  | r' :: rs' => Alt r (alts r' rs')
  end.

(** [(w1|w2|...)] *)
Definition oneOf (w : string) (ws : list string) : regex :=
  alts (lit w) (map lit ws).

Definition ws : regex := Star Space.       (* \s* *)
Definition dots : regex := Star AnyChar.   (* .*  *)

End Regex.

(* ================================================================== *)
(** ** The classifier: [src/lib/ai.ts] *)

Module Ai.
Import JsString Regex.

Inductive TrustTier : Type := HIGH | MEDIUM | LOW.

Inductive Priority : Type := P0 | P1 | P2.

Inductive VerificationStatus : Type := VERIFIED | CLAIM_UNVERIFIED.

Inductive AICapability : Type :=
| AI_VOICE_AGENT
| AI_CHAT_AGENT
| AI_LEAD_RESPONSE
| AI_SCHEDULING_BOOKING
| AI_DISPATCH_ROUTING
| AI_MARKETING_AUTOMATION
| AI_REPUTATION_REVIEWS
| AI_ANALYTICS_INSIGHTS
| AI_PAYMENTS_COLLECTIONS
| AI_WORKFLOW_AUTOMATION.

Definition TrustTier_eqb (a b : TrustTier) : bool :=
  match a, b with
  | HIGH, HIGH | MEDIUM, MEDIUM | LOW, LOW => true
  | _, _ => false
  end.

Definition Priority_eqb (a b : Priority) : bool :=
  match a, b with
  | P0, P0 | P1, P1 | P2, P2 => true
  | _, _ => false
  end.

Definition AICapability_eqb (a b : AICapability) : bool :=
  match a, b with
  | AI_VOICE_AGENT, AI_VOICE_AGENT
  | AI_CHAT_AGENT, AI_CHAT_AGENT
  | AI_LEAD_RESPONSE, AI_LEAD_RESPONSE
  | AI_SCHEDULING_BOOKING, AI_SCHEDULING_BOOKING
  | AI_DISPATCH_ROUTING, AI_DISPATCH_ROUTING
  | AI_MARKETING_AUTOMATION, AI_MARKETING_AUTOMATION
  | AI_REPUTATION_REVIEWS, AI_REPUTATION_REVIEWS
  | AI_ANALYTICS_INSIGHTS, AI_ANALYTICS_INSIGHTS
  | AI_PAYMENTS_COLLECTIONS, AI_PAYMENTS_COLLECTIONS
  | AI_WORKFLOW_AUTOMATION, AI_WORKFLOW_AUTOMATION => true
  | _, _ => false
  end.

Record SourceRef : Type := {
  trustTier : TrustTier;
  name : string
}.

(** [interface RawItemWithSource] *)
Record RawItemWithSource : Type := {
  id : nat;
  url : string;
  title : option string;
  rawText : option string;
  source : SourceRef
}.

(** [CompetitorConfig] of [src/lib/config.ts], the fields the classifier
    reads. *)
Record CompetitorConfig : Type := {
  cname : string;
  verticals : list string;
  keywords : list string
}.

(** [a\s*b] and [a.*b], the two shapes most patterns have. *)
Definition gap (a b : string) : regex := seqs [lit a; ws; lit b].
Definition far (a b : string) : regex := seqs [lit a; dots; lit b].
Definition gapOne (a : string) (b : string) (bs : list string) : regex :=
  seqs [lit a; ws; oneOf b bs].

Definition AI_CAPABILITY_PATTERNS : list (AICapability * list regex) :=
  [ (AI_VOICE_AGENT,
     [ gapOne "voice" "ai" ["agent"; "assistant"; "bot"]  (* /voice\s*(ai|agent|assistant|bot)/i *)
     ; gap "ai" "voice"                                   (* /ai\s*voice/i *)
     ; seqs [lit "conversational"; ws; lit "ai"; dots; lit "voice"]
                                                          (* /conversational\s*ai.*voice/i *)
     ; gapOne "phone" "ai" ["bot"; "agent"]               (* /phone\s*(ai|bot|agent)/i *)
     ; gap "virtual" "receptionist"                       (* /virtual\s*receptionist/i *)
     ; gap "ai" "calling"                                 (* /ai\s*calling/i *)
     ; gap "voice" "automation" ])                        (* /voice\s*automation/i *)
  ; (AI_CHAT_AGENT,
     [ gapOne "chat" "ai" ["bot"; "agent"]                (* /chat\s*(ai|bot|agent)/i *)
     ; gap "ai" "chat"                                    (* /ai\s*chat/i *)
     ; gap "conversational" "ai"                          (* /conversational\s*ai/i *)
     ; seqs [lit "live"; ws; lit "chat"; dots; lit "ai"]  (* /live\s*chat.*ai/i *)
     ; gap "messaging" "ai"                               (* /messaging\s*ai/i *)
     ; gap "ai" "messaging" ])                            (* /ai\s*messaging/i *)
  ; (AI_LEAD_RESPONSE,
     [ seqs [lit "lead"; ws; lit "response"; dots; lit "ai"]
                                                          (* /lead\s*response.*ai/i *)
     ; seqs [lit "ai"; dots; lit "lead"; ws; oneOf "response" ["follow"; "nurtur"]]
                                                          (* /ai.*lead\s*(response|follow|nurtur)/i *)
     ; gap "instant" "lead"                               (* /instant\s*lead/i *)
     ; gap "automated" "lead"                             (* /automated\s*lead/i *)
     ; gap "lead" "engagement" ])                         (* /lead\s*engagement/i *)
  ; (AI_SCHEDULING_BOOKING,
     [ gap "ai" "schedul"                                 (* /ai\s*schedul/i *)
     ; far "schedul" "ai"                                 (* /schedul.*ai/i *)
     ; gap "ai" "book"                                    (* /ai\s*book/i *)
     ; far "book" "ai"                                    (* /book.*ai/i *)
     ; gap "automated" "schedul"                          (* /automated\s*schedul/i *)
     ; gap "smart" "schedul"                              (* /smart\s*schedul/i *)
     ; gap "intelligent" "schedul" ])                     (* /intelligent\s*schedul/i *)
  ; (AI_DISPATCH_ROUTING,
     [ gap "ai" "dispatch"                                (* /ai\s*dispatch/i *)
     ; far "dispatch" "ai"                                (* /dispatch.*ai/i *)
     ; gap "intelligent" "routing"                        (* /intelligent\s*routing/i *)
     ; gap "ai" "rout"                                    (* /ai\s*rout/i *)
     ; gap "smart" "dispatch"                             (* /smart\s*dispatch/i *)
     ; gap "automated" "dispatch" ])                      (* /automated\s*dispatch/i *)
  ; (AI_MARKETING_AUTOMATION,
     [ gap "ai" "market"                                  (* /ai\s*market/i *)
     ; far "market" "ai"                                  (* /market.*ai/i *)
     ; gap "ai" "campaign"                                (* /ai\s*campaign/i *)
     ; gap "automated" "market"                           (* /automated\s*market/i *)
     ; gap "intelligent" "market"                         (* /intelligent\s*market/i *)
     ; gap "ai" "email"                                   (* /ai\s*email/i *)
     ; gap "ai" "sms" ])                                  (* /ai\s*sms/i *)
  ; (AI_REPUTATION_REVIEWS,
     [ gap "ai" "review"                                  (* /ai\s*review/i *)
     ; far "review" "ai"                                  (* /review.*ai/i *)
     ; far "reputation" "ai"                              (* /reputation.*ai/i *)
     ; gap "ai" "reputation"                              (* /ai\s*reputation/i *)
     ; gap "sentiment" "analysis"                         (* /sentiment\s*analysis/i *)
     ; seqs [lit "review"; ws; lit "management"; dots; lit "ai"] ])
                                                          (* /review\s*management.*ai/i *)
  ; (AI_ANALYTICS_INSIGHTS,
     [ gap "ai" "analytic"                                (* /ai\s*analytic/i *)
     ; far "analytic" "ai"                                (* /analytic.*ai/i *)
     ; gap "ai" "insight"                                 (* /ai\s*insight/i *)
     ; gap "predictive" "analytic"                        (* /predictive\s*analytic/i *)
     ; gap "ai" "reporting"                               (* /ai\s*reporting/i *)
     ; gap "intelligent" "analytic"                       (* /intelligent\s*analytic/i *)
     ; gap "data" "ai" ])                                 (* /data\s*ai/i *)
  ; (AI_PAYMENTS_COLLECTIONS,
     [ gap "ai" "payment"                                 (* /ai\s*payment/i *)
     ; far "payment" "ai"                                 (* /payment.*ai/i *)
     ; gap "ai" "collection"                              (* /ai\s*collection/i *)
     ; far "collection" "ai"                              (* /collection.*ai/i *)
     ; gap "automated" "billing"                          (* /automated\s*billing/i *)
     ; gap "smart" "payment" ])                           (* /smart\s*payment/i *)
  ; (AI_WORKFLOW_AUTOMATION,
     [ gap "ai" "workflow"                                (* /ai\s*workflow/i *)
     ; far "workflow" "ai"                                (* /workflow.*ai/i *)
     ; seqs [lit "process"; ws; lit "automation"; dots; lit "ai"]
                                                          (* /process\s*automation.*ai/i *)
     ; gap "ai" "automation"                              (* /ai\s*automation/i *)
     ; gap "intelligent" "workflow"                       (* /intelligent\s*workflow/i *)
     ; gap "ai" "process" ])                              (* /ai\s*process/i *)
  ].

Definition P0_PATTERNS : list regex :=
  [ lit "launch"                                          (* /launch/i *)
  ; lit "announc"                                         (* /announc/i *)
  ; lit "acqui"                                           (* /acqui/i *)
  ; lit "merger"                                          (* /merger/i *)
  ; gapOne "pricing" "change" ["update"; "new"]           (* /pricing\s*(change|update|new)/i *)
  ; gapOne "major" "update" ["release"; "feature"]        (* /major\s*(update|release|feature)/i *)
  ; lit "revolutionary"                                   (* /revolutionary/i *)
  ; gap "game" "chang"                                    (* /game\s*chang/i *)
  ; gap "industry" "first"                                (* /industry\s*first/i *)
  ; seqs [lit "raise"; Opt (Lit "s"); ws; Opt (Lit "$"); Plus Digit; ws;
          oneOf "million" ["m"; "billion"; "b"]]
                                 (* /raises?\s*\$?\d+\s*(million|m|billion|b)/i *)
  ; gap "funding" "round"                                 (* /funding\s*round/i *)
  ; seqs [lit "series"; ws; Atom (Range "a" "z")]         (* /series\s*[a-z]/i *)
  ].

Definition P1_PATTERNS : list regex :=
  [ gap "new" "feature"                                   (* /new\s*feature/i *)
  ; lit "improvement"                                     (* /improvement/i *)
  ; lit "enhanc"                                          (* /enhanc/i *)
  ; lit "updat"                                           (* /updat/i *)
  ; lit "integrat"                                        (* /integrat/i *)
  ; lit "partner"                                         (* /partner/i *)
  ; lit "expand"                                          (* /expand/i *)
  ; far "add" "capabilit"                                 (* /add.*capabilit/i *)
  ; lit "beta"                                            (* /beta/i *)
  ; gap "early" "access"                                  (* /early\s*access/i *)
  ].

(** [/\bai\b/i] *)
Definition AI_TOKEN : regex := seqs [WordB; lit "ai"; WordB].

(** [for (const pattern of patterns) if (pattern.test(text)) ...]: the
    loop stops at the first pattern that matches. *)
Fixpoint anyPatternMatches (patterns : list regex) (text : string) : bool :=
  match patterns with
  | [] => false
  | pattern :: rest =>
      if test pattern text then true else anyPatternMatches rest text
  end.

(** [Set.prototype.add] on a set kept in insertion order. *)
Definition setAdd {A} (eqb : A -> A -> bool) (s : list A) (x : A) : list A :=
  if existsb (eqb x) s then s else s ++ [x].

(** The outer loop of [detectAICapabilities] over [Object.entries]. *)
Fixpoint collectCapabilities (entries : list (AICapability * list regex))
         (text : string) (capabilities : list AICapability)
  : list AICapability :=
  match entries with
  | [] => capabilities
  | (capability, patterns) :: rest =>
      collectCapabilities rest text
        (if anyPatternMatches patterns text
         then setAdd AICapability_eqb capabilities capability
         else capabilities)
  end.

Definition detectAICapabilities (text : string) : list AICapability :=
  let capabilities := collectCapabilities AI_CAPABILITY_PATTERNS text [] in
  if (length capabilities =? 0)%nat && test AI_TOKEN text
  then setAdd AICapability_eqb capabilities AI_WORKFLOW_AUTOMATION
  else capabilities.

(** [aiCapabilities.includes(c)] *)
Definition capIncludes (caps : list AICapability) (c : AICapability) : bool :=
  existsb (AICapability_eqb c) caps.

Definition detectPriority (text : string) (aiCapabilities : list AICapability)
  : Priority :=
  if anyPatternMatches P0_PATTERNS text then P0
  else if anyPatternMatches P1_PATTERNS text then P1
  else if capIncludes aiCapabilities AI_VOICE_AGENT then P1
  else P2.

(** The inner loop of [detectCompetitor] over the keywords. *)
Fixpoint anyKeywordIncluded (textLower : string) (kws : list string) : bool :=
  match kws with
  | [] => false
  | keyword :: rest =>
      if includes textLower (toLowerCase keyword) then true
      else anyKeywordIncluded textLower rest
  end.

Fixpoint detectCompetitorLoop (textLower : string)
         (competitors : list CompetitorConfig) : option CompetitorConfig :=
  match competitors with
  | [] => None
  | competitor :: rest =>
      if includes textLower (toLowerCase (cname competitor))
      then Some competitor
      else if anyKeywordIncluded textLower (keywords competitor)
      then Some competitor
      else detectCompetitorLoop textLower rest
  end.

Definition detectCompetitor (text : string)
           (competitors : list CompetitorConfig) : option CompetitorConfig :=
  let textLower := toLowerCase text in
  detectCompetitorLoop textLower competitors.

Definition countTier (t : TrustTier) (items : list RawItemWithSource) : nat :=
  length (filter (fun i => TrustTier_eqb (trustTier (source i)) t) items).

(** [Math.round]: the nearest integer, a tie going up. *)
Definition Math_round (x : Q) : Z := Qfloor (x + (1 # 2))%Q.

(** The running [score] of [calculateConfidence] before rounding.  Every
    summand is a multiple of one half, so the double-precision arithmetic
    of the source is exact and [Q] computes the same number. *)
Definition rawConfidence (items : list RawItemWithSource)
           (verificationStatus : VerificationStatus) : Q :=
  let score : Q := 3%Q in
  let highTrustCount := countTier HIGH items in
  let mediumTrustCount := countTier MEDIUM items in
  let score := if (2 <=? highTrustCount)%nat then (score + 1)%Q else score in
  let score := if (1 <=? highTrustCount)%nat then (score + (1 # 2))%Q else score in
  let score := if (2 <=? mediumTrustCount)%nat then (score + (1 # 2))%Q else score in
  let score := match verificationStatus with
               | VERIFIED => (score + 1)%Q
               | _ => score
               end in
  let score := match verificationStatus with
               | CLAIM_UNVERIFIED => (score - (1 # 2))%Q
               | _ => score
               end in
  let score := if (3 <=? length items)%nat then (score + (1 # 2))%Q else score in
  score.

Definition calculateConfidence (items : list RawItemWithSource)
           (verificationStatus : VerificationStatus) : Z :=
  Z.min 5 (Z.max 1 (Math_round (rawConfidence items verificationStatus))).

(** [new Set(items.map((i) => i.source.name)).size] *)
Definition uniqueSourceCount (items : list RawItemWithSource) : nat :=
  length (fold_left (setAdd String.eqb)
                    (map (fun i => name (source i)) items) []).

Definition determineVerificationStatus (items : list RawItemWithSource)
           (hasAIClaims : bool) : VerificationStatus :=
  if negb hasAIClaims then VERIFIED
  else
    let hasOfficialSource :=
      existsb (fun i => TrustTier_eqb (trustTier (source i)) HIGH) items in
    let uniqueSources := uniqueSourceCount items in
    if hasOfficialSource || (2 <=? uniqueSources)%nat then VERIFIED
    else CLAIM_UNVERIFIED.

End Ai.

(* ================================================================== *)
(** ** Strings beyond Latin-1 *)

Module Utf16.

(** A JavaScript string as the list of its UTF-16 code units. *)
Definition ustring : Type := list N.

Definition inRange (lo hi u : N) : bool :=
  if (lo <=? u)%N then (u <=? hi)%N else false.


(** The property Cased of Unicode on the covered units: the letters A-Z
    and a-z, U+00AA, U+00B5, U+00BA, U+00C0 .. U+00FF but the signs U+00D7
    and U+00F7, and the Greek letters (U+03A2 is unassigned). *)
Definition cased (u : N) : bool :=
  if inRange 65 90 u then true
  else if inRange 97 122 u then true
  else if (u =? 170)%N then true
  else if (u =? 181)%N then true
  else if (u =? 186)%N then true
  else if inRange 192 255 u then negb ((u =? 215)%N || (u =? 247)%N)
  else if inRange 913 937 u then negb (u =? 930)%N
  else inRange 945 969 u.

(** The property Case_Ignorable of Unicode on the covered units. *)
Definition caseIgnorable (u : N) : bool :=
  existsb (N.eqb u) [39; 46; 58; 94; 96; 168; 173; 175; 180; 183; 184]%N.

(** The lower case of a unit that does not depend on its context. *)
Definition lowerUnit (u : N) : N :=
  if inRange 65 90 u then (u + 32)%N
  else if inRange 192 222 u then (if (u =? 215)%N then u else (u + 32)%N)
  else if inRange 913 937 u then (if (u =? 930)%N then u else (u + 32)%N)
  else u.

Definition SIGMA : N := 931.         (* U+03A3, capital sigma *)
Definition SMALL_SIGMA : N := 963.   (* U+03C3 *)
Definition FINAL_SIGMA : N := 962.   (* U+03C2 *)

(** What follows is case-ignorable units and then a cased letter. *)
Fixpoint beforeCased (rest : ustring) : bool :=
  match rest with
  | [] => false
  | u :: rest' => if caseIgnorable u then beforeCased rest' else cased u
  end.

(** [toLowerCase] from a position on; [afterCased] says that a cased
    letter and then case-ignorable units only come before the position.
    A capital sigma in that place which is not before a cased letter is
    the end of a word and becomes the final sigma. *)
Fixpoint lowerFrom (afterCased : bool) (s : ustring) : ustring :=
  match s with
  | [] => []
  | u :: rest =>
      (if (u =? SIGMA)%N
       then if afterCased
            then if beforeCased rest then SMALL_SIGMA else FINAL_SIGMA
            else SMALL_SIGMA
       else lowerUnit u)
      :: lowerFrom (if caseIgnorable u then afterCased else cased u) rest
  end.

(** [String.prototype.toLowerCase] *)
Definition toLowerCase (s : ustring) : ustring := lowerFrom false s.

Fixpoint startsWith (s p : ustring) {struct p} : bool :=
  match p, s with
  | [], _ => true
  | _ :: _, [] => false
  | a :: p', b :: s' => if (a =? b)%N then startsWith s' p' else false
  end.

(** [s.includes(sub)] *)
Fixpoint includes (s sub : ustring) : bool :=
  if startsWith s sub then true
  else match s with
       | [] => false
       | _ :: s' => includes s' sub
       end.

Record CompetitorConfig : Type := {
  cname : ustring;
  verticals : list ustring;
  keywords : list ustring
}.

Fixpoint anyKeywordIncluded (textLower : ustring) (kws : list ustring) : bool :=
  match kws with
  | [] => false
  | keyword :: rest =>
      if includes textLower (toLowerCase keyword) then true
      else anyKeywordIncluded textLower rest
  end.

Fixpoint detectCompetitorLoop (textLower : ustring)
         (competitors : list CompetitorConfig) : option CompetitorConfig :=
  match competitors with
  | [] => None
  | competitor :: rest =>
      if includes textLower (toLowerCase (cname competitor))
      then Some competitor
      else if anyKeywordIncluded textLower (keywords competitor)
      then Some competitor
      else detectCompetitorLoop textLower rest
  end.

(** [detectCompetitor] of [src/lib/ai.ts], on strings of any code units. *)
Definition detectCompetitor (text : ustring)
           (competitors : list CompetitorConfig) : option CompetitorConfig :=
  let textLower := toLowerCase text in
  detectCompetitorLoop textLower competitors.



End Utf16.

(* ================================================================== *)
(** ** The jobs: [src/lib/ingestion.ts] *)

Module Ingestion.
Import JsString.
Import Ai (TrustTier, Priority, AICapability, SourceRef, CompetitorConfig,
           P0, P1, P2, cname, keywords,
           Priority_eqb, AICapability_eqb).

Local Open Scope Z_scope.

(** *** The tables

    Modelled from the spec: the Prisma schema (prisma/schema.prisma) is
    not among the sources.  The records below carry the columns the jobs
    read or write, with the types the spec's data model and the jobs'
    own use of them give. *)

Record RawItem : Type := {
  id : nat;
  url : string;
  title : option string;
  rawText : option string;
  processed : bool;
  source : SourceRef
}.

Record StoryCluster : Type := {
  clusterId : nat;
  canonicalTitle : string;
  createdAt : Z;
  updatedAt : Z
}.

Record StoryItemLink : Type := {
  linkClusterId : nat;
  rawItemId : nat
}.

Record StorySummary : Type := {
  summaryId : nat;
  verticalId : option nat;
  competitorId : option nat;
  competitorName : option string;
  aiCapabilities : list AICapability;
  summaryText : string;           (* the column [summary] *)
  priority : Priority;
  summaryCreatedAt : Z
}.

Record UserAlert : Type := {
  userId : nat;
  isActive : bool;
  alertVerticals : list nat;      (* verticals[].verticalId *)
  alertCompetitors : list nat;    (* competitors[].competitorId *)
  minPriority : Priority;
  alertCapabilities : list AICapability
}.

Record Notification : Type := {
  notifUserId : nat;
  notifTitle : string;
  message : string;
  storyId : nat
}.

Record Store : Type := {
  rawItems : list RawItem;
  storyClusters : list StoryCluster;
  storyItemLinks : list StoryItemLink;
  storySummaries : list StorySummary;
  userAlerts : list UserAlert;
  notifications : list Notification;
  nextId : nat
}.

Definition withRawItems (db : Store) (l : list RawItem) : Store :=
  {| rawItems := l;
     storyClusters := storyClusters db;
     storyItemLinks := storyItemLinks db;
     storySummaries := storySummaries db;
     userAlerts := userAlerts db;
     notifications := notifications db;
     nextId := nextId db |}.

Definition withClusters (db : Store) (l : list StoryCluster) (n : nat) : Store :=
  {| rawItems := rawItems db;
     storyClusters := l;
     storyItemLinks := storyItemLinks db;
     storySummaries := storySummaries db;
     userAlerts := userAlerts db;
     notifications := notifications db;
     nextId := n |}.

Definition withLinks (db : Store) (l : list StoryItemLink) : Store :=
  {| rawItems := rawItems db;
     storyClusters := storyClusters db;
     storyItemLinks := l;
     storySummaries := storySummaries db;
     userAlerts := userAlerts db;
     notifications := notifications db;
     nextId := nextId db |}.

Definition withNotifications (db : Store) (l : list Notification) : Store :=
  {| rawItems := rawItems db;
     storyClusters := storyClusters db;
     storyItemLinks := storyItemLinks db;
     storySummaries := storySummaries db;
     userAlerts := userAlerts db;
     notifications := l;
     nextId := nextId db |}.

(** *** Job 3: dedupe and cluster *)

Record ClusterResult : Type := {
  clustersCreated : nat;
  itemsLinked : nat
}.

Definition BATCH : nat := 100.

Definition DAY_MS : Z := 24 * 60 * 60 * 1000.

(** [where: { processed: false, rawText: { not: null } }] *)
Definition unprocessed (item : RawItem) : bool :=
  negb (processed item) &&
  match rawText item with Some _ => true | None => false end.

(** [prisma.rawItem.findMany({ where, take: 100 })] *)
Definition findUnprocessed (db : Store) : list RawItem :=
  firstn BATCH (filter unprocessed (rawItems db)).

Definition orEmpty (s : option string) : string := orElse s "".

(** The loop over the configured competitors that picks the key. *)
Fixpoint competitorKeyLoop (text : string) (competitors : list CompetitorConfig)
  : string :=
  match competitors with
  | [] => "unknown"
  | comp :: rest =>
      if includes text (toLowerCase (cname comp))
         || existsb (fun k => includes text (toLowerCase k)) (keywords comp)
      then cname comp
      else competitorKeyLoop text rest
  end.

Definition competitorKey (competitors : list CompetitorConfig) (item : RawItem)
  : string :=
  let text := toLowerCase (orEmpty (title item) ++ " " ++ orEmpty (rawText item)) in
  competitorKeyLoop text competitors.

(** [competitorGroups]: a [Map] from key to items, in insertion order. *)
Definition Groups : Type := list (string * list RawItem).

Fixpoint groupPush (groups : Groups) (key : string) (item : RawItem) : Groups :=
  match groups with
  | [] => [(key, [item])]
  | (k, items) :: rest =>
      if String.eqb k key then (k, (items ++ [item])%list) :: rest
      else (k, items) :: groupPush rest key item
  end.

Definition groupItems (competitors : list CompetitorConfig)
           (items : list RawItem) : Groups :=
  fold_left (fun groups item => groupPush groups (competitorKey competitors item) item)
            items [].

(** [where: { canonicalTitle: { contains }, createdAt: { gte } }] *)
Definition recentFor (competitorName : string) (now : Z) (c : StoryCluster) : bool :=
  includes (canonicalTitle c) competitorName && (now - DAY_MS <=? createdAt c).

Definition findRecentCluster (db : Store) (competitorName : string) (now : Z)
  : option StoryCluster :=
  find (recentFor competitorName now) (storyClusters db).

(** [prisma.storyCluster.update({ where: { id }, data: { updatedAt } })] *)
Definition touchCluster (cid : nat) (now : Z) (db : Store) : Store :=
  withClusters db
    (map (fun c => if Nat.eqb (clusterId c) cid
                   then {| clusterId := clusterId c;
                           canonicalTitle := canonicalTitle c;
                           createdAt := createdAt c;
                           updatedAt := now |}
                   else c)
         (storyClusters db))
    (nextId db).

(** [prisma.storyCluster.create({ data: { canonicalTitle } })] *)
Definition createCluster (t : string) (now : Z) (db : Store) : Store * nat :=
  let cid := nextId db in
  (withClusters db
     (storyClusters db ++
      [{| clusterId := cid; canonicalTitle := t;
          createdAt := now; updatedAt := now |}])%list
     (S cid),
   cid).

Definition sameLink (cid item : nat) (l : StoryItemLink) : bool :=
  Nat.eqb (linkClusterId l) cid && Nat.eqb (rawItemId l) item.

(** The row after [data: { processed: true }]. *)
Definition setProcessed (r : RawItem) : RawItem :=
  {| id := id r; url := url r; title := title r; rawText := rawText r;
     processed := true; source := source r |}.

(** [prisma.rawItem.update({ where: { id }, data: { processed: true } })] *)
Definition markProcessed (item : nat) (db : Store) : Store :=
  withRawItems db
    (map (fun r => if Nat.eqb (id r) item then setProcessed r else r)
         (rawItems db)).

(** The body of the loop that links the items of one group. *)
Definition linkItem (cid : nat) (st : Store * nat) (item : RawItem) : Store * nat :=
  let (db, linked) := st in
  let existingLink := find (sameLink cid (id item)) (storyItemLinks db) in
  let (db, linked) :=
    match existingLink with
    | Some _ => (db, linked)
    | None =>
        (withLinks db (storyItemLinks db ++
                       [{| linkClusterId := cid; rawItemId := id item |}])%list,
         S linked)
    end in
  (markProcessed (id item) db, linked).

Section WithClock.

(** [date.toISOString().split("T")[0]], the calendar day of a clock
    reading. *)
Variable toISODate : Z -> string.

(** The title a new cluster gets. *)
Definition defaultTitle (competitorName : string) (items : list RawItem)
           (now : Z) : string :=
  orElse (match items with i :: _ => title i | [] => None end)
         (competitorName ++ " Updates - " ++ toISODate now).

(** Find or create the cluster of a group: the store after it, the
    cluster's id, and whether it was created. *)
Definition resolveCluster (now : Z) (competitorName : string)
           (items : list RawItem) (db : Store) : Store * nat * bool :=
  let canonicalTitle := defaultTitle competitorName items now in
  match findRecentCluster db competitorName now with
  | Some existingCluster =>
      (touchCluster (clusterId existingCluster) now db,
       clusterId existingCluster, false)
  | None =>
      let (db', cid) := createCluster canonicalTitle now db in
      (db', cid, true)
  end.

(** The body of the loop over the groups. *)
Definition processGroup (now : Z) (st : Store * ClusterResult)
           (group : string * list RawItem) : Store * ClusterResult :=
  let (db, res) := st in
  let (competitorName, items) := group in
  match items with
  | [] => (db, res)
  | _ :: _ =>
      let '(db, cid, created) := resolveCluster now competitorName items db in
      let clusters := if created then S (clustersCreated res)
                      else clustersCreated res in
      let (db, linked) := fold_left (linkItem cid) items (db, itemsLinked res) in
      (db, {| clustersCreated := clusters; itemsLinked := linked |})
  end.

Definition dedupeAndClusterJob (competitors : list CompetitorConfig)
           (now : Z) (db : Store) : Store * ClusterResult :=
  let unprocessedItems := findUnprocessed db in
  let competitorGroups := groupItems competitors unprocessedItems in
  fold_left (processGroup now) competitorGroups
            (db, {| clustersCreated := 0; itemsLinked := 0 |}).

End WithClock.

(** *** Job 5: process alerts *)

Definition SIX_HOURS_MS : Z := 6 * 60 * 60 * 1000.

(** [where: { priority: { in: ["P0", "P1"] }, createdAt: { gte } }] *)
Definition recentSummary (now : Z) (s : StorySummary) : bool :=
  (Priority_eqb (priority s) P0 || Priority_eqb (priority s) P1)
  && (now - SIX_HOURS_MS <=? summaryCreatedAt s).

(** [x === summary.someId] for a nullable column. *)
Definition sameId (x : nat) (o : option nat) : bool :=
  match o with Some y => Nat.eqb x y | None => false end.

Definition matchesVertical (alert : UserAlert) (summary : StorySummary) : bool :=
  (length (alertVerticals alert) =? 0)%nat
  || existsb (fun v => sameId v (verticalId summary)) (alertVerticals alert).

Definition matchesCompetitor (alert : UserAlert) (summary : StorySummary) : bool :=
  (length (alertCompetitors alert) =? 0)%nat
  || existsb (fun c => sameId c (competitorId summary)) (alertCompetitors alert).

Definition matchesPriority (alert : UserAlert) (summary : StorySummary) : bool :=
  Priority_eqb (priority summary) P0
  || (Priority_eqb (priority summary) P1
      && negb (Priority_eqb (minPriority alert) P0)).

Definition matchesCapability (alert : UserAlert) (summary : StorySummary) : bool :=
  (length (alertCapabilities alert) =? 0)%nat
  || existsb (fun c => existsb (AICapability_eqb c) (alertCapabilities alert))
             (aiCapabilities summary).

Definition alertMatches (alert : UserAlert) (summary : StorySummary) : bool :=
  matchesVertical alert summary && matchesCompetitor alert summary
  && matchesPriority alert summary && matchesCapability alert summary.

Definition priorityName (p : Priority) : string :=
  match p with P0 => "P0" | P1 => "P1" | P2 => "P2" end.

Definition notificationFor (alert : UserAlert) (summary : StorySummary)
  : Notification :=
  {| notifUserId := userId alert;
     notifTitle := priorityName (priority summary) ++ ": "
                   ++ orElse (competitorName summary) "Competitor" ++ " Update";
     message := substring 0 200 (summaryText summary);
     storyId := summaryId summary |}.

Definition sameNotification (user story : nat) (n : Notification) : bool :=
  Nat.eqb (notifUserId n) user && Nat.eqb (storyId n) story.

(** The body of the inner loop, for one summary and one alert. *)
Definition alertStep (summary : StorySummary) (st : Store * nat)
           (alert : UserAlert) : Store * nat :=
  let (db, alertsSent) := st in
  if alertMatches alert summary then
    match find (sameNotification (userId alert) (summaryId summary))
               (notifications db) with
    | Some _ => (db, alertsSent)
    | None =>
        (withNotifications db
           (notifications db ++ [notificationFor alert summary])%list,
         S alertsSent)
    end
  else (db, alertsSent).

Definition alertsJob (now : Z) (db : Store) : Store * nat :=
  let recentSummaries := filter (recentSummary now) (storySummaries db) in
  let alerts := filter isActive (userAlerts db) in
  fold_left (fun st summary => fold_left (alertStep summary) alerts st)
            recentSummaries (db, 0%nat).

(** *** The job log and [runAllJobs] *)

Inductive JobStatus : Type := RUNNING | COMPLETED | FAILED.

(** Modelled from the spec: the [JobRunLog] table of the Prisma schema,
    which is not among the sources; a run is recorded with a status, an
    item count and an optional error message.  The count of a fresh row
    is taken to be 0. *)
Record JobRunLog : Type := {
  logId : nat;
  jobName : string;
  status : JobStatus;
  finishedAt : option Z;
  itemsProcessed : nat;
  errorMessage : option string
}.

Record LogTable : Type := {
  jobRunLogs : list JobRunLog;
  nextLogId : nat
}.

Definition createJobLog (name : string) (t : LogTable) : LogTable * nat :=
  let i := nextLogId t in
  ({| jobRunLogs :=
        (jobRunLogs t ++
         [{| logId := i; jobName := name; status := RUNNING;
             finishedAt := None; itemsProcessed := 0; errorMessage := None |}])%list;
      nextLogId := S i |},
   i).

(** [updateJobLog]; an [errorMessage] left [undefined] keeps the column. *)
Definition updateJobLog (i : nat) (st : JobStatus) (items : nat)
           (msg : option string) (now : Z) (t : LogTable) : LogTable :=
  {| jobRunLogs :=
       map (fun l => if Nat.eqb (logId l) i
                     then {| logId := logId l; jobName := jobName l;
                             status := st; finishedAt := Some now;
                             itemsProcessed := items;
                             errorMessage := match msg with
                                             | Some m => Some m
                                             | None => errorMessage l
                                             end |}
                     else l)
           (jobRunLogs t);
     nextLogId := nextLogId t |}.

(** What a [throw] carries: an [Error] object with its message, or some
    other value with its [String(...)] rendering. *)
Inductive Thrown : Type :=
| ErrorObject (msg : string)
| OtherValue (rendered : string).

(** [error instanceof Error ? error.message : String(error)] *)
Definition errorMsgOf (error : Thrown) : string :=
  match error with
  | ErrorObject m => m
  | OtherValue r => r
  end.

(** A stage is a computation on the store that returns or throws; the
    five jobs never touch the job log. *)
Definition Stage (A : Type) : Type := Store -> Store * (Thrown + A).

Definition ret {A} (a : A) : Stage A := fun db => (db, inr a).

Definition bind {A B} (m : Stage A) (f : A -> Stage B) : Stage B :=
  fun db =>
    match m db with
    | (db', inl e) => (db', inl e)
    | (db', inr a) => f a db'
    end.

Notation "x <- m ;; k" := (bind m (fun x => k))
  (at level 61, m at next level, right associativity).

(** A job of the model that cannot throw, as a stage. *)
Definition total {A} (job : Store -> Store * A) : Stage A :=
  fun db => let (db', a) := job db in (db', inr a).

Section Pipeline.

Variable fetchSourcesJob : Stage nat.          (* itemsFetched *)
Variable normalizeJob : Stage nat.             (* itemsProcessed *)
Variable clusterJob : Stage ClusterResult.
Variable summarizeAndAnalyzeJob : Stage nat.   (* summariesCreated *)
Variable alertsStage : Stage nat.              (* alertsSent *)

(** The [try] block up to [totalProcessed]. *)
Definition pipelineBody : Stage nat :=
  fetchResult <- fetchSourcesJob ;;
  normalizeResult <- normalizeJob ;;
  clusterResult <- clusterJob ;;
  summaryResult <- summarizeAndAnalyzeJob ;;
  alertsResult <- alertsStage ;;
  ret (fetchResult + normalizeResult + itemsLinked clusterResult
       + summaryResult + alertsResult)%nat.

Definition runAllJobs (now : Z) (w : Store * LogTable)
  : (Store * LogTable) * (Thrown + unit) :=
  let (db, logs) := w in
  let (logs, jobLogId) := createJobLog "full_pipeline" logs in
  match pipelineBody db with
  | (db', inr totalProcessed) =>
      ((db', updateJobLog jobLogId COMPLETED totalProcessed None now logs),
       inr tt)
  | (db', inl error) =>
      let errorMsg := errorMsgOf error in
      ((db', updateJobLog jobLogId FAILED 0 (Some errorMsg) now logs),
       inl error)
  end.

End Pipeline.

End Ingestion.

(* ================================================================== *)
(** ** Statements in the words of the specification *)

Module Spec.
Import JsString Regex Ai.

(** A capital letter of Latin-1: A to Z, or U+00C0 to U+00DE but the
    multiplication sign U+00D7. *)
Definition isCapital (c : ascii) : Prop :=
  (65 <= code c <= 90)%N \/ ((192 <= code c <= 222)%N /\ code c <> 215%N).

(** [l] is the small letter of the capital [u]: it sits 32 places on. *)
Definition smallOf (u l : ascii) : Prop :=
  isCapital u /\ code l = (code u + 32)%N.

(** Two characters that are the same but for letter case. *)
Definition sameLetter (a b : ascii) : Prop :=
  a = b \/ smallOf a b \/ smallOf b a.

(** Two strings that are the same but for letter case. *)
Inductive sameIgnoringCase : string -> string -> Prop :=
| same_empty : sameIgnoringCase "" ""
| same_more (a b : ascii) (s t : string) :
    sameLetter a b -> sameIgnoringCase s t ->
    sameIgnoringCase (String a s) (String b t).

(** [w] is a case-insensitive substring of [text]: some stretch of
    [text] is [w] but for letter case. *)
Definition ciSubstring (w text : string) : Prop :=
  exists pre mid post,
    text = pre ++ mid ++ post /\ sameIgnoringCase mid w.


(** The last character of [pre], or [prev] when [pre] is empty. *)
Fixpoint lastOf (prev : option ascii) (pre : string) : option ascii :=
  match pre with
  | EmptyString => prev
  | String c pre' => lastOf (Some c) pre'
  end.

(** The standalone token "ai": the two letters in either case, with no
    word character on either side. *)
Definition aiToken (text : string) : Prop :=
  exists pre x y post,
    text = pre ++ String x (String y post)
    /\ (x = "a"%char \/ x = "A"%char)
    /\ (y = "i"%char \/ y = "I"%char)
    /\ wordBefore (lastOf None pre) = false
    /\ wordAfter post = false.

Definition matchesSome (patterns : list regex) (text : string) : Prop :=
  exists p, In p patterns /\ test p text = true.

Definition matchesNone (patterns : list regex) (text : string) : Prop :=
  forall p, In p patterns -> test p text = false.

(** No pattern of the capability table matches. *)
Definition noCapabilityPattern (text : string) : Prop :=
  forall cap patterns, In (cap, patterns) AI_CAPABILITY_PATTERNS ->
                       matchesNone patterns text.

Definition bonus (b : bool) (q : Q) : Q := if b then q else 0%Q.

Definition isVerified (s : VerificationStatus) : bool :=
  match s with VERIFIED => true | CLAIM_UNVERIFIED => false end.

(** The number of contributing items whose source has HIGH trust tier,
    counted item by item. *)
Fixpoint itemsWithHighTrust (items : list RawItemWithSource) : nat :=
  match items with
  | [] => 0
  | i :: rest =>
      match trustTier (source i) with
      | HIGH => S (itemsWithHighTrust rest)
      | MEDIUM | LOW => itemsWithHighTrust rest
      end
  end.

(** The number of contributing items whose source has MEDIUM trust
    tier. *)
Fixpoint itemsWithMediumTrust (items : list RawItemWithSource) : nat :=
  match items with
  | [] => 0
  | i :: rest =>
      match trustTier (source i) with
      | MEDIUM => S (itemsWithMediumTrust rest)
      | HIGH | LOW => itemsWithMediumTrust rest
      end
  end.

(** The confidence score before rounding, as the specification words
    it: base 3.0 and six independent adjustments. *)
Definition specScore (items : list RawItemWithSource)
           (status : VerificationStatus) : Q :=
  (3 + bonus (2 <=? itemsWithHighTrust items)%nat 1
     + bonus (1 <=? itemsWithHighTrust items)%nat (1 # 2)
     + bonus (2 <=? itemsWithMediumTrust items)%nat (1 # 2)
     + bonus (isVerified status) 1
     - bonus (negb (isVerified status)) (1 # 2)
     + bonus (3 <=? length items)%nat (1 # 2))%Q.

(** Some contributing item comes from a HIGH-trust source. *)
Definition someHighTrust (items : list RawItemWithSource) : Prop :=
  exists i, In i items /\ trustTier (source i) = HIGH.

(** At least two distinct source names appear among the items. *)
Definition twoDistinctSources (items : list RawItemWithSource) : Prop :=
  exists i j, In i items /\ In j items /\ name (source i) <> name (source j).


(** A table row after the rows with an id in [ids] were marked. *)
Definition markedItem (ids : list nat) (r : Ingestion.RawItem) : Ingestion.RawItem :=
  if existsb (Nat.eqb (Ingestion.id r)) ids then Ingestion.setProcessed r else r.

(** What a stretch of the clustering job did to the store, the rows with
    an id in [ids] being those it consumed: these rows are marked and no
    other row changes; links are only appended, each one new and none
    twice, and [linked] counts them; [created] counts the clusters added;
    the other tables are as before. *)
Definition clusterEffect (db : Ingestion.Store) (created linked : nat)
           (ids : list nat)
           (db' : Ingestion.Store) (created' linked' : nat) : Prop :=
  Ingestion.rawItems db' = map (markedItem ids) (Ingestion.rawItems db)
  /\ (exists new,
         Ingestion.storyItemLinks db' = (Ingestion.storyItemLinks db ++ new)%list
         /\ linked' = (linked + length new)%nat
         /\ NoDup new
         /\ forall l, In l new -> ~ In l (Ingestion.storyItemLinks db))
  /\ (exists fresh,
         length (Ingestion.storyClusters db')
         = (length (Ingestion.storyClusters db) + fresh)%nat
         /\ created' = (created + fresh)%nat)
  /\ Ingestion.storySummaries db' = Ingestion.storySummaries db
  /\ Ingestion.userAlerts db' = Ingestion.userAlerts db
  /\ Ingestion.notifications db' = Ingestion.notifications db.

(** A cluster the clusterer may reuse for a competitor key: its title
    contains the key and it was created within the last 24 hours. *)
Definition reusable (competitorName : string) (now : Z)
           (c : Ingestion.StoryCluster) : Prop :=
  (exists pre post, Ingestion.canonicalTitle c = pre ++ competitorName ++ post)
  /\ (now - Ingestion.DAY_MS <= Ingestion.createdAt c)%Z.

(** A cluster row with its [updatedAt] set. *)
Definition bumped (now : Z) (c : Ingestion.StoryCluster) : Ingestion.StoryCluster :=
  {| Ingestion.clusterId := Ingestion.clusterId c;
     Ingestion.canonicalTitle := Ingestion.canonicalTitle c;
     Ingestion.createdAt := Ingestion.createdAt c;
     Ingestion.updatedAt := now |}.

(** An alert rule matches a summary, in the specification's words. *)
Definition ruleMatches (alert : Ingestion.UserAlert)
           (summary : Ingestion.StorySummary) : Prop :=
  (Ingestion.alertVerticals alert = []
   \/ exists v, In v (Ingestion.alertVerticals alert)
                /\ Ingestion.verticalId summary = Some v)
  /\ (Ingestion.alertCompetitors alert = []
      \/ exists c, In c (Ingestion.alertCompetitors alert)
                   /\ Ingestion.competitorId summary = Some c)
  /\ (Ingestion.priority summary = P0
      \/ (Ingestion.priority summary = P1
          /\ Ingestion.minPriority alert <> P0))
  /\ (Ingestion.alertCapabilities alert = []
      \/ exists c, In c (Ingestion.aiCapabilities summary)
                   /\ In c (Ingestion.alertCapabilities alert)).

(** The pair a notification is for: the user and the story. *)
Definition notifKey (n : Ingestion.Notification) : nat * nat :=
  (Ingestion.notifUserId n, Ingestion.storyId n).

(** The (summary, alert) pairs the alerts job walks, in its order. *)
Definition processedPairs (now : Z) (db : Ingestion.Store)
  : list (Ingestion.StorySummary * Ingestion.UserAlert) :=
  flat_map (fun s => map (pair s)
                         (filter Ingestion.isActive (Ingestion.userAlerts db)))
           (filter (Ingestion.recentSummary now) (Ingestion.storySummaries db)).

(** What the alerts job did after walking the pairs [pairs], starting
    from the notifications [before] and the count [sent]: notifications
    are only appended, [sent'] counts them, each comes from a pair that
    matches, no two of them are for the same user and story, none is for
    a user and story that had one before, and every matching pair has its
    notification. *)
Definition alertEffect (before : list Ingestion.Notification) (sent : nat)
           (pairs : list (Ingestion.StorySummary * Ingestion.UserAlert))
           (db' : Ingestion.Store) (sent' : nat) : Prop :=
  exists new,
    Ingestion.notifications db' = (before ++ new)%list
    /\ sent' = (sent + length new)%nat
    /\ (forall n, In n new ->
                  exists s a, In (s, a) pairs
                              /\ Ingestion.alertMatches a s = true
                              /\ n = Ingestion.notificationFor a s)
    /\ NoDup (map notifKey new)
    /\ (forall n, In n new -> ~ In (notifKey n) (map notifKey before))
    /\ (forall s a, In (s, a) pairs ->
                    Ingestion.alertMatches a s = true ->
                    In (Ingestion.userId a, Ingestion.summaryId s)
                       (map notifKey (before ++ new)%list)).

(** The row of the job log a finished pipeline run leaves. *)
Definition finishedRow (logs : Ingestion.LogTable) (st : Ingestion.JobStatus)
           (items : nat) (msg : option string) (now : Z) : Ingestion.JobRunLog :=
  {| Ingestion.logId := Ingestion.nextLogId logs;
     Ingestion.jobName := "full_pipeline";
     Ingestion.status := st;
     Ingestion.finishedAt := Some now;
     Ingestion.itemsProcessed := items;
     Ingestion.errorMessage := msg |}.

(** A pipeline run that failed with [e], leaving the store [db']: the
    error reaches the caller and the run's row is FAILED with a count of
    0 and the whole message of [e]. *)
Definition failedRun (logs : Ingestion.LogTable) (now : Z)
           (out : (Ingestion.Store * Ingestion.LogTable)
                  * (Ingestion.Thrown + unit))
           (db' : Ingestion.Store) (e : Ingestion.Thrown) : Prop :=
  snd out = inl e
  /\ fst (fst out) = db'
  /\ In (finishedRow logs Ingestion.FAILED 0
                     (Some (Ingestion.errorMsgOf e)) now)
        (Ingestion.jobRunLogs (snd (fst out))).

(** A pipeline run that completed with [items] processed. *)
Definition completedRun (logs : Ingestion.LogTable) (now : Z)
           (out : (Ingestion.Store * Ingestion.LogTable)
                  * (Ingestion.Thrown + unit))
           (db' : Ingestion.Store) (items : nat) : Prop :=
  snd out = inr tt
  /\ fst (fst out) = db'
  /\ In (finishedRow logs Ingestion.COMPLETED items None now)
        (Ingestion.jobRunLogs (snd (fst out))).

(** The ids of the rows in the groups, in the order the job walks them. *)
Definition groupIds (groups : Ingestion.Groups) : list nat :=
  map Ingestion.id (concat (map snd groups)).


End Spec.

(** Inputs used to exercise the statements. *)

Module Examples.
Import Ai.

Definition exampleCompetitors : list CompetitorConfig :=
  [ {| cname := "ServiceTitan"; verticals := ["Home Services"];
       keywords := ["service titan"] |}
  ; {| cname := "Housecall Pro"; verticals := ["Home Services"];
       keywords := ["housecall"] |} ].

Definition blogItem (n : nat) (tier : TrustTier) (src : string)
  : RawItemWithSource :=
  {| id := n; url := "https://example.com/post"; title := Some "Chat AI";
     rawText := Some "A chat ai for front desks.";
     source := {| trustTier := tier; name := src |} |}.

Definition rawItem (n : nat) (t : option string) (text : option string)
  : Ingestion.RawItem :=
  {| Ingestion.id := n; Ingestion.url := "https://example.com/item";
     Ingestion.title := t; Ingestion.rawText := text;
     Ingestion.processed := false;
     Ingestion.source := {| trustTier := MEDIUM; name := "Trade Digest" |} |}.

Definition exampleStore : Ingestion.Store :=
  {| Ingestion.rawItems :=
       [ rawItem 1 (Some "ServiceTitan ships dispatch board")
                   (Some "ServiceTitan added a dispatch board.")
       ; rawItem 2 None (Some "Housecall Pro opens a new office.")
       ; rawItem 3 (Some "Service Titan pricing") (Some "Rates go up.")
       ; rawItem 4 (Some "No text yet") None ];
     Ingestion.storyClusters :=
       [ {| Ingestion.clusterId := 7;
            Ingestion.canonicalTitle := "Housecall Pro Updates - 2026-01-01";
            Ingestion.createdAt := 1000; Ingestion.updatedAt := 1000 |} ];
     Ingestion.storyItemLinks := [];
     Ingestion.storySummaries := [];
     Ingestion.userAlerts := [];
     Ingestion.notifications := [];
     Ingestion.nextId := 8 |}.

Definition exampleDate : Z -> string := fun _ => "2026-01-01".




Definition emptyStore : Ingestion.Store :=
  {| Ingestion.rawItems := []; Ingestion.storyClusters := [];
     Ingestion.storyItemLinks := []; Ingestion.storySummaries := [];
     Ingestion.userAlerts := []; Ingestion.notifications := [];
     Ingestion.nextId := 0 |}.

Definition emptyLogs : Ingestion.LogTable :=
  {| Ingestion.jobRunLogs := []; Ingestion.nextLogId := 0 |}.

(** A message of [n] characters. *)
Fixpoint longMessage (n : nat) : string :=
  match n with
  | O => ""
  | S n' => String "x" (longMessage n')
  end.

(** A stage that returns [n], and one that throws [new Error(msg)]. *)
Definition returns {A} (a : A) : Ingestion.Stage A := Ingestion.ret a.
Definition throws {A} (msg : string) : Ingestion.Stage A :=
  fun db => (db, inl (Ingestion.ErrorObject msg)).

Definition noClusters : Ingestion.ClusterResult :=
  {| Ingestion.clustersCreated := 0; Ingestion.itemsLinked := 0 |}.

Definition someSummary (n : nat) (p : Priority) : Ingestion.StorySummary :=
  {| Ingestion.summaryId := n; Ingestion.verticalId := Some 1%nat;
     Ingestion.competitorId := Some 2%nat;
     Ingestion.competitorName := Some "ServiceTitan";
     Ingestion.aiCapabilities := [AI_VOICE_AGENT];
     Ingestion.summaryText := "ServiceTitan launches a voice agent.";
     Ingestion.priority := p; Ingestion.summaryCreatedAt := 1000 |}.

Definition someAlert (user : nat) (minP : Priority) : Ingestion.UserAlert :=
  {| Ingestion.userId := user; Ingestion.isActive := true;
     Ingestion.alertVerticals := []; Ingestion.alertCompetitors := [2%nat];
     Ingestion.minPriority := minP;
     Ingestion.alertCapabilities := [AI_VOICE_AGENT; AI_CHAT_AGENT] |}.

Definition alertStore : Ingestion.Store :=
  {| Ingestion.rawItems := []; Ingestion.storyClusters := [];
     Ingestion.storyItemLinks := [];
     Ingestion.storySummaries := [someSummary 10 P1; someSummary 11 P0];
     Ingestion.userAlerts := [someAlert 5 P1; someAlert 5 P2; someAlert 6 P0];
     Ingestion.notifications := [];
     Ingestion.nextId := 0 |}.

End Examples.

(* ================================================================== *)
(** ** Helpers of [src/lib/utils.ts] *)

Module Utils.

(** [s.slice(start, end)]: a negative index counts from the end, and both
    are clamped to the string. *)
Definition slice (s : string) (start finish : Z) : string :=
  let len := Z.of_nat (String.length s) in
  let from := if (start <? 0)%Z then Z.max (len + start) 0 else Z.min start len in
  let to := if (finish <? 0)%Z then Z.max (len + finish) 0 else Z.min finish len in
  substring (Z.to_nat from) (Z.to_nat (Z.max (to - from) 0)) s.

(** [truncateText]; [maxLength] is an integer. *)
Definition truncateText (text : string) (maxLength : Z) : string :=
  if (Z.of_nat (String.length text) <=? maxLength)%Z then text
  else slice text 0 (maxLength - 3) ++ "...".

(** [getConfidenceLabel] *)
Definition getConfidenceLabel (score : Z) : string :=
  if (5 <=? score)%Z then "Very High"
  else if (4 <=? score)%Z then "High"
  else if (3 <=? score)%Z then "Medium"
  else if (2 <=? score)%Z then "Low"
  else "Very Low".

(** [s.replace(pat, rep)] for a string pattern: the first occurrence. *)
Fixpoint replaceFirst (s pat rep : string) : string :=
  if JsString.startsWith s pat
  then rep ++ substring (String.length pat) (String.length s) s
  else match s with
       | EmptyString => EmptyString
       | String c s' => String c (replaceFirst s' pat rep)
       end.

(** [s.replace(/_/g, " ")] *)
Fixpoint underscoresToSpaces (s : string) : string :=
  match s with
  | EmptyString => EmptyString
  | String c s' =>
      String (if (JsString.code c =? 95)%N then " "%char else c) (underscoresToSpaces s')
  end.

(** [c.toUpperCase()] of a character of [\w]: only a-z change. *)
Definition upperWordChar (c : ascii) : ascii :=
  if JsString.between 97 122 c then ascii_of_N (JsString.code c - 32) else c.

(** [s.replace(/\b\w/g, (c) => c.toUpperCase())]: a word character is
    replaced when the character before it is not one; [prev] is that
    character. *)
Fixpoint capitalizeWords (prev : option ascii) (s : string) : string :=
  match s with
  | EmptyString => EmptyString
  | String c s' =>
      String (if Regex.isWordChar c && negb (Regex.wordBefore prev)
              then upperWordChar c else c)
             (capitalizeWords (Some c) s')
  end.

(** [formatAICapability] *)
Definition formatAICapability (capability : string) : string :=
  capitalizeWords None
    (JsString.toLowerCase
       (underscoresToSpaces (replaceFirst capability "AI_" ""))).

End Utils.

(* ================================================================== *)
(** ** The text generators of [src/lib/ai.ts] and [analyzeCluster] *)

Module Narrative.
Import JsString Regex Ai Utils.

(** [l.join(sep)] *)
Fixpoint join (sep : string) (l : list string) : string :=
  match l with
  | [] => ""
  | [x] => x
  | x :: rest => x ++ sep ++ join sep rest
  end.

(** The members of the class [[.!?]]. *)
Definition isTerminator (c : ascii) : bool :=
  (code c =? 46)%N || (code c =? 33)%N || (code c =? 63)%N.

(** [text.match(/[^.!?]+[.!?]+/g) || []], as a scan.  A match is a
    longest run of other characters followed by a longest run of
    terminators; terminators with nothing before them are passed over and
    a last run without terminator gives no match.  [cur] is the match
    being read and [closing] tells whether its terminators have begun. *)
Fixpoint scanSentences (s : string) (cur : string) (closing : bool)
  : list string :=
  match s with
  | EmptyString => if closing then [cur] else []
  | String c s' =>
      if isTerminator c then
        match cur with
        | EmptyString => scanSentences s' EmptyString false
        | String _ _ => scanSentences s' (cur ++ String c EmptyString) true
        end
      else if closing then cur :: scanSentences s' (String c EmptyString) false
      else scanSentences s' (cur ++ String c EmptyString) false
  end.

Definition matchSentences (text : string) : list string :=
  scanSentences text EmptyString false.

(** [s.trimStart()] and [s.trim()]: white space and line terminators go. *)
Fixpoint trimStart (s : string) : string :=
  match s with
  | String c s' => if isWhiteSpace c then trimStart s' else s
  | EmptyString => EmptyString
  end.

Fixpoint trimEnd (s : string) : string :=
  match s with
  | EmptyString => EmptyString
  | String c s' =>
      match trimEnd s' with
      | EmptyString => if isWhiteSpace c then EmptyString
                       else String c EmptyString
      | t => String c t
      end
  end.

Definition trim (s : string) : string := trimEnd (trimStart s).

(** [item.rawText || item.title || ""] *)
Definition bodyText (item : RawItemWithSource) : string :=
  orElse (rawText item) (orElse (title item) "").

Definition allText (items : list RawItemWithSource) : string :=
  join " " (map bodyText items).

Definition importantKeywords : list string :=
  [ "ai"; "voice"; "launch"; "announce"; "new"; "feature"; "update";
    "release"; "integration"; "platform"; "automat"; "intelligen" ].

(** The loop that scores one sentence. *)
Fixpoint countKeywords (lowerSentence : string) (kws : list string) (score : nat)
  : nat :=
  match kws with
  | [] => score
  | keyword :: rest =>
      countKeywords lowerSentence rest
        (if includes lowerSentence keyword then S score else score)
  end.

Record Scored : Type := {
  sentence : string;
  score : nat
}.

Definition scoreSentence (s : string) : Scored :=
  {| sentence := trim s;
     score := countKeywords (toLowerCase s) importantKeywords 0 |}.

(** [sort((a, b) => b.score - a.score)]: the sort is stable, so the
    result is the one ordering by falling score that keeps equal scores
    in their first order. *)
Fixpoint insertScored (x : Scored) (l : list Scored) : list Scored :=
  match l with
  | [] => [x]
  | y :: rest =>
      if (score y <? score x)%nat then x :: y :: rest
      else y :: insertScored x rest
  end.

Definition sortScored (l : list Scored) : list Scored :=
  fold_left (fun acc x => insertScored x acc) l [].

Definition topSentences (sentences : list string) : list string :=
  map sentence (firstn 3 (sortScored (map scoreSentence sentences))).

(** [items[0]?.title] *)
Definition firstTitle (items : list RawItemWithSource) : option string :=
  match items with
  | i :: _ => title i
  | [] => None
  end.

Definition generateExtractiveSummary (items : list RawItemWithSource) : string :=
  let sentences := matchSentences (allText items) in
  if (length sentences =? 0)%nat
  then orElse (firstTitle items) "No summary available"
  else truncateText (join " " (topSentences sentences)) 500.

(** The [pattern] fields of [indicators]. *)
Definition indicators : list regex :=
  [ seqs [lit "now"; Plus Space; oneOf "offer" ["support"; "include"; "feature"]]
                               (* /now\s+(offer|support|include|feature)/i *)
  ; seqs [lit "new"; Plus Space; oneOf "feature" ["capability"; "function"]]
                               (* /new\s+(feature|capability|function)/i *)
  ; lit "integrat"             (* /integrat/i *)
  ; lit "launch"               (* /launch/i *)
  ; lit "announc"              (* /announc/i *)
  ].

(** The inner loop of [generateKeyPoints], over the indicators. *)
Fixpoint indicatorLoop (inds : list regex) (sentence : string)
         (points : list string) : list string :=
  match inds with
  | [] => points
  | pattern :: rest =>
      if test pattern sentence && (length points <? 5)%nat
      then (points ++ [truncateText (trim sentence) 150])%list
      else indicatorLoop rest sentence points
  end.

Definition generateKeyPoints (items : list RawItemWithSource) : list string :=
  let sentences := matchSentences (allText items) in
  let points :=
    fold_left (fun points sentence => indicatorLoop indicators sentence points)
              (firstn 20 sentences) [] in
  match points, sentences with
  | [], String c s :: _ => [truncateText (trim (String c s)) 150]
  | _, _ => points
  end.

(** The names of the enum, as the strings the code handles. *)
Definition capabilityName (c : AICapability) : string :=
  match c with
  | AI_VOICE_AGENT => "AI_VOICE_AGENT"
  | AI_CHAT_AGENT => "AI_CHAT_AGENT"
  | AI_LEAD_RESPONSE => "AI_LEAD_RESPONSE"
  | AI_SCHEDULING_BOOKING => "AI_SCHEDULING_BOOKING"
  | AI_DISPATCH_ROUTING => "AI_DISPATCH_ROUTING"
  | AI_MARKETING_AUTOMATION => "AI_MARKETING_AUTOMATION"
  | AI_REPUTATION_REVIEWS => "AI_REPUTATION_REVIEWS"
  | AI_ANALYTICS_INSIGHTS => "AI_ANALYTICS_INSIGHTS"
  | AI_PAYMENTS_COLLECTIONS => "AI_PAYMENTS_COLLECTIONS"
  | AI_WORKFLOW_AUTOMATION => "AI_WORKFLOW_AUTOMATION"
  end.

(** [c.replace("AI_", "").replace(/_/g, " ").toLowerCase()] *)
Definition readable (c : AICapability) : string :=
  toLowerCase (underscoresToSpaces (replaceFirst (capabilityName c) "AI_" "")).

Definition P0_SENTENCE : string :=
  "This is a significant development that could shift competitive dynamics.".
Definition P1_SENTENCE : string :=
  "This represents meaningful progress in competitive capabilities.".
Definition VOICE_SENTENCE : string :=
  "Voice AI capabilities are a key differentiator in the market.".
Definition WHY_FALLBACK : string :=
  "Monitor for potential competitive impact.".

Definition whyParts (competitor : option CompetitorConfig)
           (aiCapabilities : list AICapability) (priority : Priority)
  : list string :=
  let parts : list string := [] in
  let parts := match priority with
               | P0 => parts ++ [P0_SENTENCE]
               | P1 => parts ++ [P1_SENTENCE]
               | P2 => parts
               end%list in
  let parts := match competitor with
               | Some c => (parts ++ [(cname c ++ " is active in "
                                       ++ join ", " (verticals c) ++ ".")%string])%list
               | None => parts
               end in
  let parts := if capIncludes aiCapabilities AI_VOICE_AGENT
               then (parts ++ [VOICE_SENTENCE])%list else parts in
  let parts := if (0 <? length aiCapabilities)%nat
               then (parts ++ [("AI capabilities involved: "
                               ++ join ", " (map readable aiCapabilities)
                               ++ ".")%string])%list
               else parts in
  parts.

Definition generateWhyItMatters (competitor : option CompetitorConfig)
           (aiCapabilities : list AICapability) (priority : Priority) : string :=
  orElse (Some (join " " (whyParts competitor aiCapabilities priority)))
         WHY_FALLBACK.

Definition BENCHMARK_ACTION : string := "Benchmark voice AI capabilities".
Definition MONITOR_ACTION : string := "Continue monitoring for developments".

Definition generateRecommendedActions (priority : Priority)
           (aiCapabilities : list AICapability) : list string :=
  let actions : list string := [] in
  let actions := match priority with
                 | P0 => actions ++
                         [ "Schedule executive briefing to discuss implications"
                         ; "Assess competitive response options"
                         ; "Monitor customer sentiment and reactions" ]
                 | P1 => actions ++
                         [ "Add to next competitive review agenda"
                         ; "Evaluate feature for potential roadmap consideration" ]
                 | P2 => actions
                 end%list in
  let actions := if capIncludes aiCapabilities AI_VOICE_AGENT
                 then (actions ++ [BENCHMARK_ACTION])%list else actions in
  let actions := if (length actions =? 0)%nat
                 then (actions ++ [MONITOR_ACTION])%list else actions in
  actions.

Record Citation : Type := {
  citedUrl : string;
  citedTitle : string;
  retrievedAt : string
}.

(** [AnalysisResult] *)
Record AnalysisResult : Type := {
  competitorName : option string;
  resultVerticals : list string;
  aiCapabilities : list AICapability;
  summary : string;
  keyPoints : list string;
  whyItMatters : string;
  recommendedActions : list string;
  priority : Priority;
  confidenceScore : Z;
  verificationStatus : VerificationStatus;
  citations : list Citation
}.

(** The text all detectors of [analyzeCluster] read. *)
Definition combinedText (items : list RawItemWithSource) : string :=
  join " " (map (fun item => orElse (title item) "" ++ " "
                             ++ orElse (rawText item) "") items).

(** [x || null] on a string. *)
Definition orNull (s : string) : option string :=
  match s with
  | EmptyString => None
  | String _ _ => Some s
  end.

(** [analyzeCluster]; the configuration it loads and the rendering of the
    clock it stamps the citations with are arguments. *)
Definition analyzeCluster (competitors : list CompetitorConfig)
           (nowISO : string) (items : list RawItemWithSource) : AnalysisResult :=
  let combined := combinedText items in
  let competitor := detectCompetitor combined competitors in
  let caps := detectAICapabilities combined in
  let hasAIClaims := (0 <? length caps)%nat in
  let status := determineVerificationStatus items hasAIClaims in
  let prio := detectPriority combined caps in
  let confidence := calculateConfidence items status in
  {| competitorName := match competitor with
                       | Some c => orNull (cname c)
                       | None => None
                       end;
     resultVerticals := match competitor with
                        | Some c => verticals c
                        | None => []
                        end;
     aiCapabilities := caps;
     summary := generateExtractiveSummary items;
     keyPoints := generateKeyPoints items;
     whyItMatters := generateWhyItMatters competitor caps prio;
     recommendedActions := generateRecommendedActions prio caps;
     priority := prio;
     confidenceScore := confidence;
     verificationStatus := status;
     citations := map (fun item =>
                         {| citedUrl := url item;
                            citedTitle := orElse (title item) (name (source item));
                            retrievedAt := nowISO |}) items |}.

End Narrative.

(** Notions used to state what the text generators do. *)

Module NarrativeSpec.
Import JsString Regex Ai Narrative.

Fixpoint allChars (p : ascii -> bool) (s : string) : bool :=
  match s with
  | EmptyString => true
  | String c s' => if p c then allChars p s' else false
  end.

Definition notTerminator (c : ascii) : bool := negb (isTerminator c).

(** What [/[^.!?]+[.!?]+/] matches from end to end: one or more other
    characters, then one or more terminators. *)
Definition isSentence (s : string) : Prop :=
  exists body closing,
    s = body ++ closing
    /\ body <> "" /\ allChars notTerminator body = true
    /\ closing <> "" /\ allChars isTerminator closing = true.

Fixpoint concatStrings (l : list string) : string :=
  match l with
  | [] => ""
  | x :: rest => x ++ concatStrings rest
  end.

(** The order the sort leaves: no later entry scores higher. *)
Definition scoresFall (a b : Scored) : Prop := (score b <= score a)%nat.

End NarrativeSpec.

(* ================================================================== *)
(** ** Running one job by name: [runJobAsync] of the jobs route and
    [processJob] of the queue worker, which are the same code *)

Module JobRunner.
Import Ingestion.

Inductive JobType : Type :=
| fetch_sources
| normalize
| dedupe_and_cluster
| summarize_and_analyze
| alerts
| full_pipeline.

Definition jobTypeName (t : JobType) : string :=
  match t with
  | fetch_sources => "fetch_sources"
  | normalize => "normalize"
  | dedupe_and_cluster => "dedupe_and_cluster"
  | summarize_and_analyze => "summarize_and_analyze"
  | alerts => "alerts"
  | full_pipeline => "full_pipeline"
  end.

Section Runner.

Variable fetchSourcesJob : Stage nat.          (* itemsFetched *)
Variable normalizeJob : Stage nat.             (* itemsProcessed *)
Variable clusterJob : Stage ClusterResult.
Variable summarizeAndAnalyzeJob : Stage nat.   (* summariesCreated *)
Variable alertsStage : Stage nat.              (* alertsSent *)

(** The [switch] inside the [try] block, giving [itemsProcessed]. *)
Definition jobBody (jobName : JobType) : Stage nat :=
  match jobName with
  | fetch_sources =>
      result <- fetchSourcesJob ;; ret result
  | normalize =>
      result <- normalizeJob ;; ret result
  | dedupe_and_cluster =>
      result <- clusterJob ;;
      ret (clustersCreated result + itemsLinked result)%nat
  | summarize_and_analyze =>
      result <- summarizeAndAnalyzeJob ;; ret result
  | alerts =>
      result <- alertsStage ;; ret result
  | full_pipeline =>
      fetchResult <- fetchSourcesJob ;;
      normalizeResult <- normalizeJob ;;
      clusterResult <- clusterJob ;;
      summaryResult <- summarizeAndAnalyzeJob ;;
      alertsResult <- alertsStage ;;
      ret (fetchResult + normalizeResult + itemsLinked clusterResult
           + summaryResult + alertsResult)%nat
  end.

Definition runJobAsync (jobName : JobType) (now : Z) (w : Store * LogTable)
  : (Store * LogTable) * (Thrown + unit) :=
  let (db, logs) := w in
  let (logs, jobLogId) := createJobLog (jobTypeName jobName) logs in
  match jobBody jobName db with
  | (db', inr itemsProcessed) =>
      ((db', updateJobLog jobLogId COMPLETED itemsProcessed None now logs),
       inr tt)
  | (db', inl error) =>
      let errorMsg := errorMsgOf error in
      ((db', updateJobLog jobLogId FAILED 0 (Some errorMsg) now logs),
       inl error)
  end.

End Runner.

End JobRunner.

(* ================================================================== *)
(** ** The in-process scheduler: [src/lib/scheduler.ts] *)

Module Scheduler.

(** The module's two variables, and the timers the runtime holds:
    [setInterval] adds one and returns it, [clearInterval] removes it. *)
Record State : Type := {
  schedulerStarted : bool;
  intervalId : option nat;
  timers : list nat;
  nextTimer : nat
}.

Record Env : Type := {
  NODE_ENV : option string;
  ENABLE_SCHEDULER : option string
}.

Definition initial : State :=
  {| schedulerStarted := false; intervalId := None; timers := [];
     nextTimer := 0 |}.

(** [process.env.NODE_ENV !== "development"] *)
Definition notDevelopment (env : Env) : bool :=
  match NODE_ENV env with
  | Some v => negb (String.eqb v "development")
  | None => true
  end.

(** [!process.env.ENABLE_SCHEDULER]: unset or empty. *)
Definition notEnabled (env : Env) : bool :=
  match ENABLE_SCHEDULER env with
  | Some (String _ _) => false
  | _ => true
  end.

Definition startScheduler (env : Env) (st : State) : State :=
  if schedulerStarted st then st
  else if notDevelopment env && notEnabled env then st
  else {| schedulerStarted := true;
          intervalId := Some (nextTimer st);
          timers := (timers st ++ [nextTimer st])%list;
          nextTimer := S (nextTimer st) |}.

Definition stopScheduler (st : State) : State :=
  match intervalId st with
  | Some t =>
      {| schedulerStarted := false;
         intervalId := None;
         timers := filter (fun x => negb (Nat.eqb x t)) (timers st);
         nextTimer := nextTimer st |}
  | None => st
  end.

(** A call from outside: a start under some environment, or a stop. *)
Inductive Call : Type :=
| Start (env : Env)
| Stop.

Definition step (st : State) (c : Call) : State :=
  match c with
  | Start env => startScheduler env st
  | Stop => stopScheduler st
  end.

End Scheduler.

(** Notions used to state what the jobs keep. *)

Module JobSpec.
Import JsString Ingestion.

(** The rows still waiting for the clusterer. *)
Definition pending (db : Store) : nat :=
  length (filter unprocessed (rawItems db)).

(** The group the clusterer holds for a key: the items of the first entry
    with that key. *)
Definition groupOf (key : string) (groups : Groups) : list RawItem :=
  match find (fun g => String.eqb (fst g) key) groups with
  | Some g => snd g
  | None => []
  end.

(** What the clusterer never rewrites of a cluster. *)
Definition clusterCore (c : StoryCluster) : nat * string * Z :=
  (clusterId c, canonicalTitle c, createdAt c).

(** What a stretch of the clustering job over the groups [done] leaves
    behind, besides [Spec.clusterEffect]: the clusters that were there
    keep id, title and creation time and [created] counts the ones
    appended, at most one per group; no link goes away and [linked] grows
    by at most the number of items; and all items of a group are linked
    to one cluster of the table. *)
Definition clusterTrace (db : Store) (created linked : nat) (done : Groups)
           (db' : Store) (created' linked' : nat) : Prop :=
  (exists extra,
      map clusterCore (storyClusters db')
      = (map clusterCore (storyClusters db) ++ extra)%list
      /\ created' = (created + length extra)%nat
      /\ (length extra <= length done)%nat)
  /\ incl (storyItemLinks db) (storyItemLinks db')
  /\ (linked' <= linked + length (concat (map snd done)))%nat
  /\ (forall g, In g done -> snd g <> [] ->
        exists cid,
          In cid (map clusterId (storyClusters db'))
          /\ forall x, In x (snd g) ->
                In {| linkClusterId := cid; rawItemId := id x |}
                   (storyItemLinks db')).

(** The row of the job log a finished run of the job [name] leaves. *)
Definition finishedJobRow (name : string) (logs : LogTable) (st : JobStatus)
           (items : nat) (msg : option string) (now : Z) : JobRunLog :=
  {| logId := nextLogId logs; jobName := name; status := st;
     finishedAt := Some now; itemsProcessed := items; errorMessage := msg |}.

(** The scheduler holds exactly the timer it remembers, if any. *)
Definition schedulerConsistent (st : Scheduler.State) : Prop :=
  (Scheduler.schedulerStarted st = true
   /\ exists t, Scheduler.intervalId st = Some t
                /\ Scheduler.timers st = [t])
  \/ (Scheduler.schedulerStarted st = false
      /\ Scheduler.intervalId st = None
      /\ Scheduler.timers st = []).

(** The job run once per clock reading of [nows], in order. *)
Definition drain (toISODate : Z -> string)
           (competitors : list Ai.CompetitorConfig)
           (nows : list Z) (db : Store) : Store :=
  fold_left (fun db now => fst (dedupeAndClusterJob toISODate competitors now db))
            nows db.

End JobSpec.


(** Inputs for the examples of the job runner. *)

Module JobExamples.

Definition twoAndThree : Ingestion.ClusterResult :=
  {| Ingestion.clustersCreated := 2; Ingestion.itemsLinked := 3 |}.

End JobExamples.

(* ================================================================== *)
(** ** Jobs 1 and 2: fetching and normalizing (src/lib/ingestion.ts) *)

Module Intake.
Import JsString Regex.

(** [z.enum(["official", "industry", "reviews", "jobs"])] *)
Inductive SourceType : Type := official | industry | reviews | jobs.

(** [SourceConfig] of [src/lib/config.ts] *)
Record SourceConfig : Type := {
  name : string;
  base_url : string;
  source_type : SourceType;
  trust_tier : Ai.TrustTier
}.

(** A row of the table [source], with the columns the job writes. *)
Record SourceRow : Type := {
  sourceRowId : string;
  sourceName : string;
  baseUrl : string;
  sourceType : SourceType;
  trustTier : Ai.TrustTier
}.

(** A [Date]: a time value, or the Invalid Date that [new Date(text)]
    gives for a text it cannot read. *)
Inductive JsDate : Type :=
| ValidDate (ms : Z)
| InvalidDate.

(** [interface FetchResult].  [fetchRssFeed] builds [publishedAt] with
    [new Date(item.pubDate)] and does not test it; [fetchWebPage] keeps a
    date only when it is valid. *)
Record FetchResult : Type := {
  url : string;
  title : string;
  content : string;
  publishedAt : option JsDate
}.

(** A row of the table [rawItem], with the columns the two jobs read or
    write. *)
Record ItemRow : Type := {
  rowId : nat;
  rowUrl : string;
  rowTitle : option string;
  rawText : option string;
  rowPublishedAt : option JsDate;
  checksum : option string;
  sourceId : string
}.

Record Db : Type := {
  sources : list SourceRow;
  rows : list ItemRow;
  nextRowId : nat
}.

(** [s.replace(/\s+/g, "-")]: each run of white space becomes one dash. *)
Fixpoint dashSpaces (inRun : bool) (s : string) : string :=
  match s with
  | EmptyString => EmptyString
  | String c s' =>
      if isWhiteSpace c
      then if inRun then dashSpaces true s'
           else String "-" (dashSpaces true s')
      else String c (dashSpaces false s')
  end.

(** [sourceConfig.name.toLowerCase().replace(/\s+/g, "-")] *)
Definition sourceIdOf (cfg : SourceConfig) : string :=
  dashSpaces false (toLowerCase (name cfg)).

Definition hasSource (k : string) (t : list SourceRow) : bool :=
  existsb (fun r => String.eqb (sourceRowId r) k) t.

(** The [update] branch of the upsert, on the row with the id. *)
Definition updateSource (cfg : SourceConfig) (r : SourceRow) : SourceRow :=
  if String.eqb (sourceRowId r) (sourceIdOf cfg)
  then {| sourceRowId := sourceRowId r;
          sourceName := sourceName r;
          baseUrl := base_url cfg;
          sourceType := source_type cfg;
          trustTier := trust_tier cfg |}
  else r.

(** The [create] branch of the upsert. *)
Definition createSource (cfg : SourceConfig) : SourceRow :=
  {| sourceRowId := sourceIdOf cfg;
     sourceName := name cfg;
     baseUrl := base_url cfg;
     sourceType := source_type cfg;
     trustTier := trust_tier cfg |}.

(** [prisma.source.upsert]: the row with the id is updated, or a row is
    created. *)
Definition upsertSource (t : list SourceRow) (cfg : SourceConfig)
  : list SourceRow :=
  if hasSource (sourceIdOf cfg) t
  then map (updateSource cfg) t
  else (t ++ [createSource cfg])%list.

Definition RATE_LIMIT_MS : Z := 2000.

(** [rateLimitMap]: the latest entry of a domain comes first. *)
Definition RateLimitMap : Type := list (string * Z).

Definition lastFetchOf (domain : string) (m : RateLimitMap) : option Z :=
  match find (fun e => String.eqb (fst e) domain) m with
  | Some e => Some (snd e)
  | None => None
  end.

(** The time [respectRateLimit] asks [sleep] for, if it sleeps at all;
    [now] is the clock when it is called.  A missing entry and the time
    stamp 0 are both falsy. *)
Definition sleepFor (domain : string) (now : Z) (m : RateLimitMap) : option Z :=
  match lastFetchOf domain m with
  | Some lastFetch =>
      if (lastFetch =? 0)%Z then None
      else let elapsed := (now - lastFetch)%Z in
           if (elapsed <? RATE_LIMIT_MS)%Z
           then Some (RATE_LIMIT_MS - elapsed)%Z
           else None
  | None => None
  end.

(** [respectRateLimit]: [now] is the clock at the call, [after] the clock
    when the entry is written, which is after the sleep if there was one.
    The result is the sleep asked for and the map. *)
Definition respectRateLimit (domain : string) (now after : Z)
           (m : RateLimitMap) : option Z * RateLimitMap :=
  (sleepFor domain now m, (domain, after) :: m).

Section Jobs.

(** [computeChecksum] is CryptoJS's SHA-256 in hexadecimal; [stripHtml] is
    a chain of regular-expression replacements.  The jobs only pass
    strings through them. *)
Variable computeChecksum : string -> string.
Variable stripHtml : string -> string.

(** What the network answers: [fetchRssFeed] and [fetchWebPage] catch
    their own errors and answer with no items. *)
Variable fetchRssFeed : string -> list FetchResult.
Variable fetchWebPage : string -> option FetchResult.

(** What the database answers to the create of a result: nothing, or the
    error it throws, rendered as a string (a row it rejects, as an
    Invalid Date in [publishedAt] may be). *)
Variable createError : FetchResult -> option string.

Definition rssUrls (cfg : SourceConfig) : list string :=
  [ base_url cfg ++ "/feed"; base_url cfg ++ "/rss";
    base_url cfg ++ "/feed.xml"; base_url cfg ++ "/rss.xml" ].

(** The loop over [rssUrls] that stops at the first feed with items. *)
Fixpoint firstFeed (urls : list string) : list FetchResult :=
  match urls with
  | [] => []
  | rssUrl :: rest =>
      match fetchRssFeed rssUrl with
      | [] => firstFeed rest
      | results => results
      end
  end.

(** The results for one source: a feed for blogs, else the page. *)
Definition fetchResults (cfg : SourceConfig) : list FetchResult :=
  let results :=
    match source_type cfg with
    | official | industry => firstFeed (rssUrls cfg)
    | _ => []
    end in
  match results with
  | [] => match fetchWebPage (base_url cfg) with
          | Some page => [page]
          | None => []
          end
  | _ => results
  end.

(** [prisma.rawItem.create] for a result, and the count going up. *)
Definition createItem (sid : string) (st : Db * nat) (result : FetchResult)
  : Db * nat :=
  let (db, itemsFetched) := st in
  ({| sources := sources db;
      rows := (rows db
               ++ [ {| rowId := nextRowId db;
                       rowUrl := url result;
                       rowTitle := Some (title result);
                       rawText := Some (content result);
                       rowPublishedAt := publishedAt result;
                       checksum := Some (computeChecksum (content result));
                       sourceId := sid |} ])%list;
      nextRowId := S (nextRowId db) |},
   S itemsFetched).

(** The loop "Store results", which runs inside the [try] of its source:
    an item is created unless a row has its URL, compared as it is; a
    create that the database rejects throws, which ends the loop with the
    error and leaves the source's remaining results unstored. *)
Fixpoint storeResults (sid : string) (results : list FetchResult)
         (st : Db * nat) : (Db * nat) * option string :=
  match results with
  | [] => (st, None)
  | result :: rest =>
      match find (fun r => String.eqb (rowUrl r) (url result))
                 (rows (fst st)) with
      | Some _ => storeResults sid rest st
      | None =>
          match createError result with
          | Some error => (st, Some error)
          | None => storeResults sid rest (createItem sid st result)
          end
      end
  end.

(** What the job returns. *)
Record FetchOutcome : Type := {
  itemsFetched : nat;
  errors : list string
}.

(** One round of the loop over the sources: the [try] with its
    [catch], which records the error and goes on to the next source. *)
Definition fetchSource (st : Db * FetchOutcome) (cfg : SourceConfig)
  : Db * FetchOutcome :=
  let (db, out) := st in
  match storeResults (sourceIdOf cfg) (fetchResults cfg)
                     (db, itemsFetched out) with
  | ((db', n), None) => (db', {| itemsFetched := n; errors := errors out |})
  | ((db', n), Some error) =>
      (db', {| itemsFetched := n;
               errors := (errors out
                          ++ [("Error fetching " ++ name cfg ++ ": "
                               ++ error)%string])%list |})
  end.

(** [fetchSourcesJob] *)
Definition fetchSourcesJob (configured : list SourceConfig) (db : Db)
  : Db * FetchOutcome :=
  let db1 := {| sources := fold_left upsertSource configured (sources db);
                rows := rows db;
                nextRowId := nextRowId db |} in
  fold_left fetchSource configured
            (db1, {| itemsFetched := 0; errors := [] |}).

Definition unchecked (r : ItemRow) : bool :=
  match checksum r with
  | None => true
  | Some _ => false
  end.

(** [prisma.rawItem.update] of the normalizer on the row with the id. *)
Definition normalizeRow (itemId : nat) (normalizedText : string) (r : ItemRow)
  : ItemRow :=
  if Nat.eqb (rowId r) itemId
  then {| rowId := rowId r; rowUrl := rowUrl r; rowTitle := rowTitle r;
          rawText := Some normalizedText;
          rowPublishedAt := rowPublishedAt r;
          checksum := Some (computeChecksum normalizedText);
          sourceId := sourceId r |}
  else r.

(** One round of the normalizer's loop; [null] and the empty text are
    falsy. *)
Definition normalizeItem (t : list ItemRow) (item : ItemRow) : list ItemRow :=
  match rawText item with
  | Some (String c s) =>
      map (normalizeRow (rowId item) (stripHtml (String c s))) t
  | _ => t
  end.

(** [normalizeJob], giving [itemsProcessed]. *)
Definition normalizeJob (db : Db) : Db * nat :=
  let items := firstn 100 (filter unchecked (rows db)) in
  ({| sources := sources db;
      rows := fold_left normalizeItem items (rows db);
      nextRowId := nextRowId db |},
   length items).

End Jobs.

End Intake.

(** Notions used to state what the two jobs keep. *)

Module IntakeSpec.
Import Intake.

(** A row the normalizer can work on. *)
Definition hasText (r : ItemRow) : bool :=
  match rawText r with
  | Some (String _ _) => true
  | _ => false
  end.

(** What the normalizer makes of a row it works on. *)
Definition normalized (computeChecksum stripHtml : string -> string) (r : ItemRow)
  : ItemRow :=
  match rawText r with
  | Some (String c s) =>
      {| rowId := rowId r; rowUrl := rowUrl r; rowTitle := rowTitle r;
         rawText := Some (stripHtml (String c s));
         rowPublishedAt := rowPublishedAt r;
         checksum := Some (computeChecksum (stripHtml (String c s)));
         sourceId := sourceId r |}
  | _ => r
  end.

(** The normalizer's work on a row of the stretch it looks at. *)
Definition normalizeIfUnchecked (computeChecksum stripHtml : string -> string)
           (r : ItemRow) : ItemRow :=
  if unchecked r then normalized computeChecksum stripHtml r else r.

(** The last configuration that names the source id [k]. *)
Definition lastConfig (k : string) (configured : list SourceConfig)
  : option SourceConfig :=
  find (fun cfg => String.eqb (sourceIdOf cfg) k) (rev configured).

(** A source row that carries what the last configuration of its id
    says. *)
Definition settled (configured : list SourceConfig) (r : SourceRow) : Prop :=
  forall cfg, lastConfig (sourceRowId r) configured = Some cfg ->
              baseUrl r = base_url cfg
              /\ sourceType r = source_type cfg
              /\ trustTier r = trust_tier cfg.

(** All updates of the configured sources on one row, in order. *)
Definition refreshAll (configured : list SourceConfig) (r : SourceRow)
  : SourceRow :=
  fold_left (fun r cfg => updateSource cfg r) configured r.

(** The store only grew: rows were added at the end, each counted, each
    with a checksum and a URL that no row before it has. *)
Definition grows (st st' : Db * nat) : Prop :=
  exists added,
    rows (fst st') = (rows (fst st) ++ added)%list
    /\ snd st' = (snd st + length added)%nat
    /\ sources (fst st') = sources (fst st)
    /\ nextRowId (fst st') = (nextRowId (fst st) + length added)%nat
    /\ Forall (fun r => unchecked r = false) added
    /\ NoDup (map rowUrl added)
    /\ (forall r, In r added -> ~ In (rowUrl r) (map rowUrl (rows (fst st)))).

End IntakeSpec.

(* ================================================================== *)
(** ** Job 4: summarize and analyze (src/lib/ingestion.ts) *)

Module Summarize.
Import JsString.

(** The columns of a story summary that the record read by the alerts job
    leaves out, one entry per summary: the cluster it belongs to and the
    rest of the analysis. *)
Record SummaryDetail : Type := {
  detailSummaryId : nat;
  detailClusterId : nat;
  detailKeyPoints : list string;
  detailWhyItMatters : string;
  detailRecommendedActions : list string;
  detailConfidenceScore : Z;
  detailVerificationStatus : Ai.VerificationStatus;
  detailCitations : list Narrative.Citation
}.

(** A row of the tables [competitor] and [vertical]: the job reads the
    name and the id. *)
Record NamedRow : Type := {
  namedId : nat;
  rowName : string
}.

Record World : Type := {
  store : Ingestion.Store;
  summaryDetails : list SummaryDetail;
  competitorRows : list NamedRow;
  verticalRows : list NamedRow
}.

(** [summaries: { none: {} }], negated. *)
Definition hasSummary (details : list SummaryDetail)
           (cluster : Ingestion.StoryCluster) : bool :=
  existsb (fun d => Nat.eqb (detailClusterId d) (Ingestion.clusterId cluster))
          details.

(** [prisma.storyCluster.findMany({ where, include, take: 50 })] *)
Definition clustersWithoutSummaries (w : World) : list Ingestion.StoryCluster :=
  firstn 50 (filter (fun c => negb (hasSummary (summaryDetails w) c))
                    (Ingestion.storyClusters (store w))).

(** The object built from [link.rawItem]. *)
Definition toItem (r : Ingestion.RawItem) : Ai.RawItemWithSource :=
  {| Ai.id := Ingestion.id r;
     Ai.url := Ingestion.url r;
     Ai.title := Ingestion.title r;
     Ai.rawText := Ingestion.rawText r;
     Ai.source := Ingestion.source r |}.

(** [cluster.storyLinks.map(...)]: the items of the cluster's links, each
    link with the raw item it points to. *)
Definition linkedItems (db : Ingestion.Store) (cluster : Ingestion.StoryCluster)
  : list Ai.RawItemWithSource :=
  flat_map
    (fun link =>
       if Nat.eqb (Ingestion.linkClusterId link) (Ingestion.clusterId cluster)
       then match find (fun r => Nat.eqb (Ingestion.id r)
                                         (Ingestion.rawItemId link))
                       (Ingestion.rawItems db) with
            | Some r => [toItem r]
            | None => []
            end
       else [])
    (Ingestion.storyItemLinks db).

(** [findFirst({ where: { name } })] *)
Definition findFirstByName (name : string) (t : list NamedRow)
  : option NamedRow :=
  find (fun r => String.eqb (rowName r) name) t.

Section Job.

Variable competitors : list Ai.CompetitorConfig.
Variable toISOString : Z -> string.

(** The row of [storySummary] the job creates for an analysis. *)
Definition summaryRow (now : Z) (w : World) (analysis : Narrative.AnalysisResult)
  : Ingestion.StorySummary :=
  let competitor :=
    match Narrative.competitorName analysis with
    | Some (String c s) => findFirstByName (String c s) (competitorRows w)
    | _ => None
    end in
  let vertical :=
    match Narrative.resultVerticals analysis with
    | first :: _ => findFirstByName first (verticalRows w)
    | [] => None
    end in
  {| Ingestion.summaryId := Ingestion.nextId (store w);
     Ingestion.verticalId := option_map namedId vertical;
     Ingestion.competitorId := option_map namedId competitor;
     Ingestion.competitorName := option_map rowName competitor;
     Ingestion.aiCapabilities := Narrative.aiCapabilities analysis;
     Ingestion.summaryText := Narrative.summary analysis;
     Ingestion.priority := Narrative.priority analysis;
     Ingestion.summaryCreatedAt := now |}.

Definition detailRow (w : World) (cluster : Ingestion.StoryCluster)
           (analysis : Narrative.AnalysisResult) : SummaryDetail :=
  {| detailSummaryId := Ingestion.nextId (store w);
     detailClusterId := Ingestion.clusterId cluster;
     detailKeyPoints := Narrative.keyPoints analysis;
     detailWhyItMatters := Narrative.whyItMatters analysis;
     detailRecommendedActions := Narrative.recommendedActions analysis;
     detailConfidenceScore := Narrative.confidenceScore analysis;
     detailVerificationStatus := Narrative.verificationStatus analysis;
     detailCitations := Narrative.citations analysis |}.

(** [prisma.storySummary.create] *)
Definition createSummary (w : World) (s : Ingestion.StorySummary)
           (d : SummaryDetail) : World :=
  {| store :=
       {| Ingestion.rawItems := Ingestion.rawItems (store w);
          Ingestion.storyClusters := Ingestion.storyClusters (store w);
          Ingestion.storyItemLinks := Ingestion.storyItemLinks (store w);
          Ingestion.storySummaries :=
            (Ingestion.storySummaries (store w) ++ [s])%list;
          Ingestion.userAlerts := Ingestion.userAlerts (store w);
          Ingestion.notifications := Ingestion.notifications (store w);
          Ingestion.nextId := S (Ingestion.nextId (store w)) |};
     summaryDetails := (summaryDetails w ++ [d])%list;
     competitorRows := competitorRows w;
     verticalRows := verticalRows w |}.

(** One round of the loop; [found] is the store as the query at the start
    of the job read it. *)
Definition summarizeCluster (now : Z) (found : Ingestion.Store)
           (st : World * nat) (cluster : Ingestion.StoryCluster) : World * nat :=
  let (w, summariesCreated) := st in
  let items := linkedItems found cluster in
  match items with
  | [] => st
  | _ :: _ =>
      let analysis := Narrative.analyzeCluster competitors (toISOString now)
                                               items in
      (createSummary w (summaryRow now w analysis)
                     (detailRow w cluster analysis),
       S summariesCreated)
  end.

(** [summarizeAndAnalyzeJob], giving [summariesCreated]. *)
Definition summarizeAndAnalyzeJob (now : Z) (w : World) : World * nat :=
  fold_left (summarizeCluster now (store w)) (clustersWithoutSummaries w)
            (w, 0%nat).

End Job.

End Summarize.

(** Notions used to state what the summarizer does. *)

Module SummarizeSpec.
Import Summarize.

Definition hasItems (db : Ingestion.Store) (c : Ingestion.StoryCluster) : bool :=
  match linkedItems db c with
  | [] => false
  | _ :: _ => true
  end.

(** The summary [s] with its other columns [d] is what the analysis of
    the cluster's items gives. *)
Definition madeFrom (competitors : list Ai.CompetitorConfig)
           (toISOString : Z -> string) (now : Z) (found : Ingestion.Store)
           (c : Ingestion.StoryCluster)
           (sd : Ingestion.StorySummary * SummaryDetail) : Prop :=
  let analysis := Narrative.analyzeCluster competitors (toISOString now)
                                           (linkedItems found c) in
  detailClusterId (snd sd) = Ingestion.clusterId c
  /\ detailSummaryId (snd sd) = Ingestion.summaryId (fst sd)
  /\ Ingestion.priority (fst sd) = Narrative.priority analysis
  /\ Ingestion.aiCapabilities (fst sd) = Narrative.aiCapabilities analysis
  /\ Ingestion.summaryText (fst sd) = Narrative.summary analysis
  /\ Ingestion.summaryCreatedAt (fst sd) = now
  /\ detailConfidenceScore (snd sd) = Narrative.confidenceScore analysis
  /\ detailVerificationStatus (snd sd) = Narrative.verificationStatus analysis.

(** What a run over the clusters [cs] leaves: one new summary for each
    cluster of [cs] that has items, in order, and nothing else. *)
Definition summarized (competitors : list Ai.CompetitorConfig)
           (toISOString : Z -> string) (now : Z) (found : Ingestion.Store)
           (cs : list Ingestion.StoryCluster) (st st' : World * nat) : Prop :=
  exists news : list (Ingestion.StorySummary * SummaryDetail),
    Forall2 (madeFrom competitors toISOString now found)
            (filter (hasItems found) cs) news
    /\ Ingestion.storySummaries (store (fst st'))
       = (Ingestion.storySummaries (store (fst st)) ++ map fst news)%list
    /\ summaryDetails (fst st')
       = (summaryDetails (fst st) ++ map snd news)%list
    /\ snd st' = (snd st + length news)%nat
    /\ Ingestion.nextId (store (fst st'))
       = (Ingestion.nextId (store (fst st)) + length news)%nat
    /\ Ingestion.rawItems (store (fst st')) = Ingestion.rawItems (store (fst st))
    /\ Ingestion.storyClusters (store (fst st'))
       = Ingestion.storyClusters (store (fst st))
    /\ Ingestion.storyItemLinks (store (fst st'))
       = Ingestion.storyItemLinks (store (fst st))
    /\ Ingestion.userAlerts (store (fst st'))
       = Ingestion.userAlerts (store (fst st))
    /\ Ingestion.notifications (store (fst st'))
       = Ingestion.notifications (store (fst st))
    /\ competitorRows (fst st') = competitorRows (fst st)
    /\ verticalRows (fst st') = verticalRows (fst st).

End SummarizeSpec.

(** Inputs for the examples of the fetch job, the normalizer and the
    summarizer. *)

Module IntakeExamples.
Import Intake.

(** Stand-ins for the two string functions the jobs are given. *)
Definition checksumOf (s : string) : string := "sha256:" ++ s.
Definition stripped (s : string) : string := "text:" ++ s.

Definition noFeed : string -> list FetchResult := fun _ => [].
Definition homePage : string -> option FetchResult :=
  fun u => Some {| url := u; title := "Home"; content := "Welcome";
                   publishedAt := None |}.

(** A database that accepts every row, and one that rejects an Invalid
    Date. *)
Definition accepts : FetchResult -> option string := fun _ => None.
Definition rejectsInvalidDate : FetchResult -> option string :=
  fun r => match publishedAt r with
           | Some InvalidDate => Some "Invalid Date"
           | _ => None
           end.

(** A blog whose feed has two posts, the first with a date that cannot be
    read, and a review site whose page is that first post. *)
Definition blog : SourceConfig :=
  {| name := "Blog"; base_url := "https://blog.example.com";
     source_type := official; trust_tier := Ai.HIGH |}.

Definition reviewSite : SourceConfig :=
  {| name := "Reviews"; base_url := "https://blog.example.com/one";
     source_type := reviews; trust_tier := Ai.LOW |}.

Definition blogFeed : string -> list FetchResult :=
  fun u => if String.eqb u "https://blog.example.com/feed"
           then [ {| url := "https://blog.example.com/one"; title := "One";
                     content := "First post";
                     publishedAt := Some InvalidDate |}
                ; {| url := "https://blog.example.com/two"; title := "Two";
                     content := "Second post";
                     publishedAt := Some (ValidDate 1000) |} ]
           else [].

Definition tradeDigest : SourceConfig :=
  {| name := "Trade Digest"; base_url := "https://digest.example.com";
     source_type := industry; trust_tier := Ai.MEDIUM |}.

Definition row (n : nat) (text sum : option string) : ItemRow :=
  {| rowId := n; rowUrl := "https://example.com/item"; rowTitle := None;
     rawText := text; rowPublishedAt := None; checksum := sum;
     sourceId := "trade-digest" |}.

(** Two rows without checksum and without text, and one with both. *)
Definition textlessDb : Db :=
  {| sources := [];
     rows := [ row 1 None None; row 2 (Some "done") (Some "sha256:done");
               row 3 (Some "") None ];
     nextRowId := 4 |}.

(** One row to normalize between a finished and a textless one. *)
Definition mixedDb : Db :=
  {| sources := [];
     rows := [ row 1 (Some "done") (Some "sha256:done");
               row 2 (Some "<b>Hi</b>") None; row 3 None None ];
     nextRowId := 4 |}.

Definition checkedDb : Db :=
  {| sources := [];
     rows := [ row 1 (Some "done") (Some "sha256:done") ];
     nextRowId := 2 |}.

Definition emptyDb : Db := {| sources := []; rows := []; nextRowId := 0 |}.

Definition oneStamp : RateLimitMap := [("example.com", 10000%Z)].

End IntakeExamples.

Module SummarizeExamples.
Import Summarize.

Definition exampleWorld : World :=
  {| store := Examples.exampleStore;
     summaryDetails := [];
     competitorRows := [ {| namedId := 2; rowName := "ServiceTitan" |} ];
     verticalRows := [ {| namedId := 1; rowName := "Home Services" |} ] |}.

Definition exampleStamp : Z -> string := fun _ => "2026-01-01T00:00:00.000Z".

End SummarizeExamples.
(* ================================================================== *)
(** ** Facts about strings *)

Section StringFacts.
Import JsString.


Lemma append_assoc (a b c : string) : (a ++ b) ++ c = a ++ (b ++ c).
Proof.
  induction a as [|x a IH]; simpl; [reflexivity|].
  now rewrite IH.
Qed.

Lemma startsWith_iff (s p : string) :
  startsWith s p = true <-> exists post, s = p ++ post.
Proof.
  revert s. induction p as [|a p IH]; intros s; simpl.
  - split; [intros _; now exists s | reflexivity].
  - destruct s as [|b s].
    + split; [discriminate | intros [post H]; discriminate].
    + destruct (Ascii.eqb a b) eqn:E.
      * apply Ascii.eqb_eq in E. subst b. rewrite IH.
        split; intros [post H]; exists post.
        -- now rewrite H.
        -- now inversion H.
      * split; [discriminate|].
        intros [post H]. inversion H. subst.
        rewrite Ascii.eqb_refl in E. discriminate.
Qed.

Lemma includes_iff (s sub : string) :
  includes s sub = true <-> exists pre post, s = pre ++ sub ++ post.
Proof.
  induction s as [|c s IH]; simpl.
  - destruct (startsWith "" sub) eqn:E.
    + apply startsWith_iff in E. destruct E as [post E].
      split; [intros _; now exists "", post | reflexivity].
    + split; [discriminate|].
      intros (pre & post & H).
      destruct pre; simpl in H.
      * assert (startsWith "" sub = true) by (apply startsWith_iff; now exists post).
        congruence.
      * discriminate.
  - destruct (startsWith (String c s) sub) eqn:E.
    + apply startsWith_iff in E. destruct E as [post E].
      split; [intros _; now exists "", post | reflexivity].
    + rewrite IH. split.
      * intros (pre & post & H). exists (String c pre), post.
        simpl. now rewrite H.
      * intros (pre & post & H).
        destruct pre as [|d pre]; simpl in H.
        -- assert (startsWith (String c s) sub = true)
             by (apply startsWith_iff; now exists post).
           congruence.
        -- inversion H. now exists pre, post.
Qed.












Lemma sameIgnoringCase_refl (w : string) : Spec.sameIgnoringCase w w.
Proof. induction w; constructor; [now left | assumption]. Qed.

Lemma contains_ciSubstring (pre w post : string) :
  Spec.ciSubstring w (pre ++ w ++ post).
Proof.
  exists pre, w, post. split; [reflexivity | apply sameIgnoringCase_refl].
Qed.

End StringFacts.

(* ================================================================== *)
(** ** Facts about the pattern matcher *)

Section RegexFacts.
Import JsString Regex Ai.

Lemma atomMatches_Lit_same (c : ascii) : atomMatches (Lit c) c = true.
Proof. simpl. apply Ascii.eqb_refl. Qed.

Lemma searchFrom_unfold (r : regex) (prev : option ascii) (s : string) :
  searchFrom r prev s =
  if matchFrom r prev s accept then true
  else match s with
       | String c s' => searchFrom r (Some c) s'
       | EmptyString => false
       end.
Proof. destruct s; reflexivity. Qed.

(** A match found after skipping a prefix is found by the search. *)
Lemma searchFrom_intro (r : regex) (pre : string) :
  forall prev s,
    matchFrom r (Spec.lastOf prev pre) s accept = true ->
    searchFrom r prev (pre ++ s) = true.
Proof.
  induction pre as [|c pre IH]; intros prev s H; simpl in *.
  - rewrite searchFrom_unfold, H. reflexivity.
  - destruct (matchFrom r prev (String c (pre ++ s)) accept); [reflexivity|].
    now apply IH.
Qed.

(** Conversely the search only succeeds at some position. *)
Lemma searchFrom_elim (r : regex) (s : string) :
  forall prev,
    searchFrom r prev s = true ->
    exists pre rest,
      s = pre ++ rest /\ matchFrom r (Spec.lastOf prev pre) rest accept = true.
Proof.
  induction s as [|c s IH]; intros prev H; rewrite searchFrom_unfold in H.
  - destruct (matchFrom r prev "" accept) eqn:E; [|discriminate].
    now exists "", "".
  - destruct (matchFrom r prev (String c s) accept) eqn:E.
    + now exists "", (String c s).
    + destruct (IH _ H) as (pre & rest & -> & Hm).
      now exists (String c pre), rest.
Qed.

(** A run of pattern characters matches itself. *)
Lemma matchFrom_lit_self (w : string) :
  forall prev rest k,
    (forall p, k p rest = true) ->
    matchFrom (lit w) prev (w ++ rest) k = true.
Proof.
  induction w as [|c w IH]; intros prev rest k Hk.
  - simpl. apply Hk.
  - destruct w as [|d w].
    + simpl. rewrite Ascii.eqb_refl. apply Hk.
    + change (lit (String c (String d w)))
        with (Seq (Atom (Lit c)) (lit (String d w))).
      change (String c (String d w) ++ rest)
        with (String c (String d w ++ rest)).
      cbn [matchFrom]. rewrite atomMatches_Lit_same.
      now apply IH.
Qed.

(** A pattern that is a plain word matches every text containing it. *)
Lemma test_lit_contains (w pre post : string) :
  test (lit w) (pre ++ w ++ post) = true.
Proof.
  unfold test. apply searchFrom_intro.
  apply matchFrom_lit_self. reflexivity.
Qed.

Lemma anyPatternMatches_true (patterns : list regex) (text : string) :
  anyPatternMatches patterns text = true <-> Spec.matchesSome patterns text.
Proof.
  induction patterns as [|p ps IH]; simpl.
  - split; [discriminate | intros (p & [] & _)].
  - destruct (test p text) eqn:E.
    + split; [intros _; exists p; split; [now left | exact E] | reflexivity].
    + rewrite IH. split.
      * intros (q & Hq & Ht). exists q. split; [now right | exact Ht].
      * intros (q & [-> | Hq] & Ht); [congruence | exists q; split; assumption].
Qed.

Lemma anyPatternMatches_false (patterns : list regex) (text : string) :
  anyPatternMatches patterns text = false <-> Spec.matchesNone patterns text.
Proof.
  split.
  - intros H p Hp. destruct (test p text) eqn:E; [|reflexivity].
    assert (anyPatternMatches patterns text = true)
      by (apply anyPatternMatches_true; exists p; split; assumption).
    congruence.
  - intros H. destruct (anyPatternMatches patterns text) eqn:E; [|reflexivity].
    apply anyPatternMatches_true in E. destruct E as (p & Hp & Ht).
    rewrite (H p Hp) in Ht. discriminate.
Qed.

Lemma canon_a (x : ascii) :
  Ascii.eqb (canon "a") (canon x) = true -> x = "a"%char \/ x = "A"%char.
Proof.
  destruct x as [[] [] [] [] [] [] [] []]; vm_compute; intros H;
    try discriminate; auto.
Qed.

Lemma canon_i (y : ascii) :
  Ascii.eqb (canon "i") (canon y) = true -> y = "i"%char \/ y = "I"%char.
Proof.
  destruct y as [[] [] [] [] [] [] [] []]; vm_compute; intros H;
    try discriminate; auto.
Qed.

(** [/\bai\b/i] matches exactly the texts with a standalone "ai". *)
Lemma test_AI_TOKEN_iff (text : string) :
  test AI_TOKEN text = true <-> Spec.aiToken text.
Proof.
  split.
  - intros H. apply searchFrom_elim in H.
    destruct H as (pre & rest & -> & H).
    unfold AI_TOKEN in H. cbn [seqs lit matchFrom] in H.
    destruct (isBoundary (Spec.lastOf None pre) rest) eqn:B1; [|discriminate].
    destruct rest as [|x rest]; [discriminate|].
    destruct (atomMatches (Lit "a") x) eqn:Ex; [|discriminate].
    destruct rest as [|y post]; [discriminate|].
    destruct (atomMatches (Lit "i") y) eqn:Ey; [|discriminate].
    destruct (isBoundary (Some y) post) eqn:B2; [|discriminate].
    apply canon_a in Ex. apply canon_i in Ey.
    exists pre, x, y, post. repeat split; auto.
    + unfold isBoundary in B1.
      destruct Ex as [-> | ->];
        destruct (wordBefore (Spec.lastOf None pre)); [discriminate B1 | reflexivity
                                                       | discriminate B1 | reflexivity].
    + unfold isBoundary in B2.
      destruct Ey as [-> | ->];
        destruct (wordAfter post); [discriminate B2 | reflexivity
                                    | discriminate B2 | reflexivity].
  - intros (pre & x & y & post & -> & Hx & Hy & Hb & Ha).
    unfold test. apply searchFrom_intro.
    unfold AI_TOKEN. cbn [seqs lit matchFrom].
    unfold isBoundary. rewrite Hb, Ha.
    destruct Hx as [-> | ->]; destruct Hy as [-> | ->]; reflexivity.
Qed.

End RegexFacts.

(* ================================================================== *)
(** ** Priority and capability detection *)

Section DetectionFacts.
Import JsString Regex Ai.

Lemma AICapability_eqb_eq (a b : AICapability) :
  AICapability_eqb a b = true <-> a = b.
Proof. destruct a, b; simpl; split; congruence. Qed.

Lemma capIncludes_iff (caps : list AICapability) (c : AICapability) :
  capIncludes caps c = true <-> In c caps.
Proof.
  unfold capIncludes. rewrite existsb_exists. split.
  - intros (x & Hx & E). apply AICapability_eqb_eq in E. now subst.
  - intros H. exists c. split; [exact H | now apply AICapability_eqb_eq].
Qed.

(** With no pattern matching, the loop over the table adds nothing. *)
Lemma collectCapabilities_none (text : string) :
  forall entries caps,
    (forall cap patterns, In (cap, patterns) entries ->
                          Spec.matchesNone patterns text) ->
    collectCapabilities entries text caps = caps.
Proof.
  induction entries as [|[cap patterns] rest IH]; intros caps H; simpl.
  - reflexivity.
  - assert (E : anyPatternMatches patterns text = false).
    { apply anyPatternMatches_false. apply (H cap). now left. }
    rewrite E. apply IH. intros c ps Hin. apply (H c). now right.
Qed.

(** A decision procedure for [Spec.noCapabilityPattern]. *)
Lemma noCapabilityPattern_check (text : string) :
  forallb (fun e => negb (anyPatternMatches (snd e) text))
          AI_CAPABILITY_PATTERNS = true ->
  Spec.noCapabilityPattern text.
Proof.
  intros H cap patterns Hin.
  rewrite forallb_forall in H. specialize (H _ Hin). simpl in H.
  apply anyPatternMatches_false.
  now destruct (anyPatternMatches patterns text).
Qed.

Lemma matchesNone_check (patterns : list regex) (text : string) :
  anyPatternMatches patterns text = false -> Spec.matchesNone patterns text.
Proof. apply anyPatternMatches_false. Qed.

Lemma matchesSome_check (patterns : list regex) (text : string) :
  anyPatternMatches patterns text = true -> Spec.matchesSome patterns text.
Proof. apply anyPatternMatches_true. Qed.

End DetectionFacts.

Section PriorityCascade.
Import JsString Regex Ai.

(** C1.  Priority detection is a strict cascade.  If some P0 pattern
    matches the text the priority is P0, whatever else matches; failing
    that, if some P1 pattern matches it is P1; failing that, it is P1
    when AI_VOICE_AGENT is among the detected capabilities and P2 when
    it is not.  A text containing "acquisition" is P0, also when it
    contains the P1 pattern "beta" further on. *)
Theorem detectPriority_cascade (text : string) (caps : list AICapability) :
  (Spec.matchesSome P0_PATTERNS text -> detectPriority text caps = P0)
  /\ (Spec.matchesNone P0_PATTERNS text ->
      Spec.matchesSome P1_PATTERNS text -> detectPriority text caps = P1)
  /\ (Spec.matchesNone P0_PATTERNS text ->
      Spec.matchesNone P1_PATTERNS text ->
      In AI_VOICE_AGENT caps -> detectPriority text caps = P1)
  /\ (Spec.matchesNone P0_PATTERNS text ->
      Spec.matchesNone P1_PATTERNS text ->
      ~ In AI_VOICE_AGENT caps -> detectPriority text caps = P2)
  /\ (forall pre post,
         detectPriority (pre ++ "acquisition" ++ post) caps = P0)
  /\ (forall pre mid post,
         Spec.matchesSome P1_PATTERNS
           (pre ++ "acquisition" ++ mid ++ "beta" ++ post)
         /\ detectPriority (pre ++ "acquisition" ++ mid ++ "beta" ++ post)
                           caps = P0).
Proof.
  assert (Hacq : forall pre post,
             detectPriority (pre ++ "acquisition" ++ post) caps = P0).
  { intros pre post. unfold detectPriority.
    assert (E : anyPatternMatches P0_PATTERNS (pre ++ "acquisition" ++ post)
                = true).
    { apply anyPatternMatches_true. exists (lit "acqui"). split.
      - simpl. auto.
      - change (pre ++ "acquisition" ++ post)
          with (pre ++ "acqui" ++ ("sition" ++ post)).
        apply test_lit_contains. }
    now rewrite E. }
  unfold detectPriority.
  split; [|split; [|split; [|split; [|split]]]].
  - intros H. apply anyPatternMatches_true in H. now rewrite H.
  - intros H0 H1. apply anyPatternMatches_false in H0.
    apply anyPatternMatches_true in H1. now rewrite H0, H1.
  - intros H0 H1 Hv. apply anyPatternMatches_false in H0, H1.
    apply capIncludes_iff in Hv. now rewrite H0, H1, Hv.
  - intros H0 H1 Hv. apply anyPatternMatches_false in H0, H1.
    rewrite H0, H1.
    destruct (capIncludes caps AI_VOICE_AGENT) eqn:E; [|reflexivity].
    apply capIncludes_iff in E. contradiction.
  - exact Hacq.
  - intros pre mid post. split; [|apply Hacq].
    exists (lit "beta"). split.
    + simpl. intuition.
    + rewrite <- !append_assoc.
      rewrite (append_assoc _ "beta" post).
      apply test_lit_contains.
Qed.

Lemma detectPriority_cascade_witness :
  detectPriority "Rival closes acquisition while its app is in beta"
                 [AI_CHAT_AGENT] = P0
  /\ detectPriority "open beta this week" [] = P1
  /\ detectPriority "voice agent answers calls" [AI_VOICE_AGENT] = P1
  /\ detectPriority "quarterly recap" [AI_CHAT_AGENT] = P2.
Proof.
  split; [|split; [|split]].
  - destruct (detectPriority_cascade
                "Rival closes acquisition while its app is in beta"
                [AI_CHAT_AGENT]) as (H & _).
    apply H. apply matchesSome_check. vm_compute. reflexivity.
  - destruct (detectPriority_cascade "open beta this week" [])
      as (_ & H & _).
    apply H.
    + apply matchesNone_check. vm_compute. reflexivity.
    + apply matchesSome_check. vm_compute. reflexivity.
  - destruct (detectPriority_cascade "voice agent answers calls"
                                     [AI_VOICE_AGENT]) as (_ & _ & H & _).
    apply H.
    + apply matchesNone_check. vm_compute. reflexivity.
    + apply matchesNone_check. vm_compute. reflexivity.
    + simpl. auto.
  - destruct (detectPriority_cascade "quarterly recap" [AI_CHAT_AGENT])
      as (_ & _ & _ & H & _).
    apply H.
    + apply matchesNone_check. vm_compute. reflexivity.
    + apply matchesNone_check. vm_compute. reflexivity.
    + simpl. intros [E | []]. discriminate E.
Defined.

(** C6.  [/\bai\b/i] matches a text exactly when the text contains the
    standalone token "ai"; and for every text that matches none of the
    capability patterns but contains that token, the detected
    capabilities are exactly AI_WORKFLOW_AUTOMATION, so the story is not
    left without a tag. *)
Theorem detectAICapabilities_fallback (text : string) :
  Spec.noCapabilityPattern text ->
  Spec.aiToken text ->
  test AI_TOKEN text = true
  /\ detectAICapabilities text = [AI_WORKFLOW_AUTOMATION]
  /\ detectAICapabilities text <> [].
Proof.
  intros Hnone Htok.
  apply test_AI_TOKEN_iff in Htok.
  assert (E : detectAICapabilities text = [AI_WORKFLOW_AUTOMATION]).
  { unfold detectAICapabilities.
    rewrite (collectCapabilities_none text AI_CAPABILITY_PATTERNS [] Hnone).
    simpl length. rewrite Htok. reflexivity. }
  repeat split; [exact Htok | exact E | rewrite E; discriminate].
Qed.

Lemma detectAICapabilities_fallback_witness :
  Spec.noCapabilityPattern "We love AI."
  /\ Spec.aiToken "We love AI."
  /\ detectAICapabilities "We love AI." = [AI_WORKFLOW_AUTOMATION].
Proof.
  assert (H1 : Spec.noCapabilityPattern "We love AI.").
  { apply noCapabilityPattern_check. vm_compute. reflexivity. }
  assert (H2 : Spec.aiToken "We love AI.").
  { exists "We love ", "A"%char, "I"%char, ".".
    split; [reflexivity|].
    split; [now right|]. split; [now right|].
    split; reflexivity. }
  split; [exact H1 | split; [exact H2 |]].
  apply (detectAICapabilities_fallback "We love AI." H1 H2).
Defined.

End PriorityCascade.

(* ================================================================== *)
(** ** Competitor detection *)

Section CompetitorFacts.
Import JsString Ai.





Lemma find_none {A} (f : A -> bool) (l : list A) :
  find f l = None <-> forall y, In y l -> f y = false.
Proof.
  split.
  - intros H y Hy. now apply (find_none f l H).
  - induction l as [|a l IH]; simpl; intros H; [reflexivity|].
    rewrite (H a) by now left. apply IH. intros y Hy. apply H. now right.
Qed.



(** *** Latin-1 strings among all strings

    On the code units of a Latin-1 string the functions of [Utf16] do
    what those of [JsString] do. *)













End CompetitorFacts.

(* ================================================================== *)
(** ** Verification status *)

Section VerificationFacts.
Import Ai.

Lemma TrustTier_eqb_eq (a b : TrustTier) : TrustTier_eqb a b = true <-> a = b.
Proof. destruct a, b; simpl; split; congruence. Qed.

Lemma setAdd_In (acc : list string) (x y : string) :
  In y (setAdd String.eqb acc x) <-> In y acc \/ y = x.
Proof.
  unfold setAdd. destruct (existsb (String.eqb x) acc) eqn:E.
  - apply existsb_exists in E. destruct E as (z & Hz & E).
    apply String.eqb_eq in E. subst z.
    split; [now left | intros [H | ->]; assumption].
  - rewrite in_app_iff. simpl. intuition.
Qed.

Lemma setAdd_NoDup (acc : list string) (x : string) :
  NoDup acc -> NoDup (setAdd String.eqb acc x).
Proof.
  intros H. unfold setAdd. destruct (existsb (String.eqb x) acc) eqn:E.
  - exact H.
  - apply NoDup_app; [exact H | repeat constructor; intros [] |].
    intros y Hy [E' | []]. subst y.
    assert (existsb (String.eqb x) acc = true).
    { apply existsb_exists. exists x. split; [exact Hy | apply String.eqb_refl]. }
    congruence.
Qed.

Lemma fold_setAdd_In (l acc : list string) (y : string) :
  In y (fold_left (setAdd String.eqb) l acc) <-> In y acc \/ In y l.
Proof.
  revert acc. induction l as [|x l IH]; intros acc; simpl.
  - intuition.
  - rewrite IH, setAdd_In. intuition.
Qed.

Lemma fold_setAdd_NoDup (l acc : list string) :
  NoDup acc -> NoDup (fold_left (setAdd String.eqb) l acc).
Proof.
  revert acc. induction l as [|x l IH]; intros acc H; simpl; [exact H|].
  apply IH. now apply setAdd_NoDup.
Qed.

(** A duplicate-free list has two elements or more exactly when it holds
    two different ones. *)
Lemma NoDup_two (l : list string) :
  NoDup l ->
  ((2 <= length l)%nat <-> exists a b, In a l /\ In b l /\ a <> b).
Proof.
  intros H. split.
  - destruct l as [|a [|b l]]; simpl; try lia. intros _.
    exists a, b. repeat split; auto.
    inversion H as [|? ? Hn _]; subst. intros ->. apply Hn. now left.
  - intros (a & b & Ha & Hb & Hab).
    destruct l as [|x [|y l]]; simpl in *; try lia; intuition congruence.
Qed.

Lemma uniqueSourceCount_two (items : list RawItemWithSource) :
  (2 <=? uniqueSourceCount items)%nat = true <-> Spec.twoDistinctSources items.
Proof.
  unfold uniqueSourceCount, Spec.twoDistinctSources.
  rewrite Nat.leb_le, NoDup_two by (apply fold_setAdd_NoDup; constructor).
  split.
  - intros (a & b & Ha & Hb & Hab).
    apply fold_setAdd_In in Ha, Hb.
    destruct Ha as [[] | Ha], Hb as [[] | Hb].
    apply in_map_iff in Ha, Hb.
    destruct Ha as (i & <- & Hi), Hb as (j & <- & Hj).
    now exists i, j.
  - intros (i & j & Hi & Hj & Hij).
    exists (name (source i)), (name (source j)).
    split; [|split; [|exact Hij]];
      apply fold_setAdd_In; right; apply in_map_iff; eauto.
Qed.

Lemma hasOfficialSource_iff (items : list RawItemWithSource) :
  existsb (fun i => TrustTier_eqb (trustTier (source i)) HIGH) items = true
  <-> Spec.someHighTrust items.
Proof.
  rewrite existsb_exists. unfold Spec.someHighTrust.
  split; intros (i & Hi & H); exists i; (split; [exact Hi|]);
    now apply TrustTier_eqb_eq.
Qed.

Lemma verified_iff (items : list RawItemWithSource) :
  determineVerificationStatus items true = VERIFIED <->
  Spec.someHighTrust items \/ Spec.twoDistinctSources items.
Proof.
  unfold determineVerificationStatus. simpl negb. cbv iota.
  rewrite <- hasOfficialSource_iff, <- uniqueSourceCount_two.
  destruct (existsb _ items); destruct (2 <=? uniqueSourceCount items)%nat;
    simpl; intuition congruence.
Qed.

(** C2.  Without a detected capability the status is VERIFIED whatever
    the items are.  With one, the status is VERIFIED exactly when some
    contributing item has a HIGH-trust source or two contributing items
    have different source names, and CLAIM_UNVERIFIED otherwise.  So a
    cluster whose items all come from one source of LOW trust is
    CLAIM_UNVERIFIED, and adding an item with another source name, of
    any trust tier and at any place among the items, makes it
    VERIFIED. *)
Theorem determineVerificationStatus_spec (items : list RawItemWithSource) :
  determineVerificationStatus items false = VERIFIED
  /\ (determineVerificationStatus items true = VERIFIED <->
      Spec.someHighTrust items \/ Spec.twoDistinctSources items)
  /\ (determineVerificationStatus items true = CLAIM_UNVERIFIED <->
      ~ (Spec.someHighTrust items \/ Spec.twoDistinctSources items))
  /\ ((forall i, In i items -> trustTier (source i) = LOW) ->
      (forall i j, In i items -> In j items ->
                   name (source i) = name (source j)) ->
      determineVerificationStatus items true = CLAIM_UNVERIFIED)
  /\ (forall i extra front back,
         items = (front ++ back)%list ->
         In i items ->
         name (source extra) <> name (source i) ->
         determineVerificationStatus (front ++ extra :: back)%list true
         = VERIFIED).
Proof.
  split; [reflexivity|].
  split; [apply verified_iff|].
  assert (Hun : determineVerificationStatus items true = CLAIM_UNVERIFIED <->
                ~ (Spec.someHighTrust items \/ Spec.twoDistinctSources items)).
  { rewrite <- verified_iff.
    destruct (determineVerificationStatus items true); intuition congruence. }
  split; [exact Hun|]. split.
  - intros Hlow Hone. apply Hun. intros [(i & Hi & H) | (i & j & Hi & Hj & H)].
    + rewrite (Hlow i Hi) in H. discriminate.
    + apply H. now apply Hone.
  - intros i extra front back -> Hi Hne.
    apply verified_iff. right. exists extra, i.
    split; [apply in_or_app; right; now left|].
    split; [|exact Hne].
    apply in_app_or in Hi. apply in_or_app.
    destruct Hi as [Hi | Hi]; [now left | right; now right].
Qed.

Lemma determineVerificationStatus_spec_witness :
  determineVerificationStatus
    [Examples.blogItem 1 LOW "Forum"; Examples.blogItem 2 LOW "Forum"] true
  = CLAIM_UNVERIFIED
  /\ determineVerificationStatus
       [Examples.blogItem 1 LOW "Forum"; Examples.blogItem 3 LOW "Digest";
        Examples.blogItem 2 LOW "Forum"] true
     = VERIFIED.
Proof.
  destruct (determineVerificationStatus_spec
              [Examples.blogItem 1 LOW "Forum"; Examples.blogItem 2 LOW "Forum"])
    as (_ & _ & _ & Hlow & Hadd).
  split.
  - apply Hlow.
    + intros i [<- | [<- | []]]; reflexivity.
    + intros i j [<- | [<- | []]] [<- | [<- | []]]; reflexivity.
  - apply (Hadd (Examples.blogItem 1 LOW "Forum")
                (Examples.blogItem 3 LOW "Digest")
                [Examples.blogItem 1 LOW "Forum"]
                [Examples.blogItem 2 LOW "Forum"]).
    + reflexivity.
    + now left.
    + simpl. discriminate.
Defined.

End VerificationFacts.

(* ================================================================== *)
(** ** Confidence score *)

Section ConfidenceFacts.
Import Ai.

(** One case per combination of the five tests of [calculateConfidence]. *)
Ltac confidence_cases items status :=
  unfold calculateConfidence, rawConfidence, Spec.specScore;
  cbv zeta;
  destruct (2 <=? countTier HIGH items)%nat;
  destruct (1 <=? countTier HIGH items)%nat;
  destruct (2 <=? countTier MEDIUM items)%nat;
  destruct (3 <=? length items)%nat;
  destruct status.

(** The counts the code takes with [filter] are the numbers of HIGH-trust
    and of MEDIUM-trust items. *)
Lemma countTier_HIGH (items : list RawItemWithSource) :
  countTier HIGH items = Spec.itemsWithHighTrust items.
Proof.
  unfold countTier. induction items as [|i rest IH]; [reflexivity|].
  cbn [filter Spec.itemsWithHighTrust].
  destruct (trustTier (source i)); cbn [TrustTier_eqb length]; now rewrite IH.
Qed.

Lemma countTier_MEDIUM (items : list RawItemWithSource) :
  countTier MEDIUM items = Spec.itemsWithMediumTrust items.
Proof.
  unfold countTier. induction items as [|i rest IH]; [reflexivity|].
  cbn [filter Spec.itemsWithMediumTrust].
  destruct (trustTier (source i)); cbn [TrustTier_eqb length]; now rewrite IH.
Qed.

Lemma rawConfidence_specScore (items : list RawItemWithSource)
      (status : VerificationStatus) :
  (rawConfidence items status == Spec.specScore items status)%Q.
Proof.
  unfold Spec.specScore. rewrite <- countTier_HIGH, <- countTier_MEDIUM.
  confidence_cases items status; vm_compute; reflexivity.
Qed.

Lemma Math_round_nearest (x : Q) :
  (inject_Z (Math_round x) - (1 # 2) <= x
   /\ x < inject_Z (Math_round x) + (1 # 2))%Q.
Proof.
  unfold Math_round.
  pose proof (Qfloor_le (x + (1 # 2))) as Hlo.
  pose proof (Qlt_floor (x + (1 # 2))) as Hhi.
  rewrite inject_Z_plus in Hhi.
  change (inject_Z 1) with 1%Q in Hhi.
  split; lra.
Qed.

Lemma calculateConfidence_range (items : list RawItemWithSource)
      (status : VerificationStatus) :
  (3 <= calculateConfidence items status <= 5)%Z.
Proof. confidence_cases items status; vm_compute; split; discriminate. Qed.

(** C3.  The score before rounding is the specification's sum: base 3,
    plus 1 for two HIGH-trust items, plus one half for one, plus one
    half for two MEDIUM-trust items, plus 1 when VERIFIED, minus one
    half when CLAIM_UNVERIFIED, plus one half for three items, the
    items of a tier being counted one by one on the specification's
    side and with [filter] in the code.  The result is that sum rounded
    to the nearest integer (a tie going up) and clamped to 1..5, so it
    is always an integer from 1 to 5; with two or more HIGH-trust items,
    three or more items and VERIFIED it is 5. *)
Theorem calculateConfidence_spec (items : list RawItemWithSource)
        (status : VerificationStatus) :
  (rawConfidence items status == Spec.specScore items status)%Q
  /\ calculateConfidence items status
     = Z.min 5 (Z.max 1 (Math_round (Spec.specScore items status)))
  /\ (inject_Z (Math_round (Spec.specScore items status)) - (1 # 2)
      <= Spec.specScore items status
      < inject_Z (Math_round (Spec.specScore items status)) + (1 # 2))%Q
  /\ (1 <= calculateConfidence items status <= 5)%Z
  /\ ((2 <= Spec.itemsWithHighTrust items)%nat -> (3 <= length items)%nat ->
      calculateConfidence items VERIFIED = 5%Z).
Proof.
  split; [apply rawConfidence_specScore|].
  split.
  { unfold calculateConfidence, Math_round.
    now rewrite (rawConfidence_specScore items status). }
  split; [apply Math_round_nearest|].
  split.
  { unfold calculateConfidence. lia. }
  intros Hh Hn. rewrite <- countTier_HIGH in Hh.
  unfold calculateConfidence, rawConfidence. cbv zeta.
  assert (E2 : (2 <=? countTier HIGH items)%nat = true) by now apply Nat.leb_le.
  assert (E1 : (1 <=? countTier HIGH items)%nat = true) by (apply Nat.leb_le; lia).
  assert (E3 : (3 <=? length items)%nat = true) by now apply Nat.leb_le.
  rewrite E2, E1, E3.
  destruct (2 <=? countTier MEDIUM items)%nat; vm_compute; reflexivity.
Qed.

Lemma calculateConfidence_spec_witness :
  calculateConfidence
    [Examples.blogItem 1 LOW "A"; Examples.blogItem 2 HIGH "B";
     Examples.blogItem 3 MEDIUM "C"; Examples.blogItem 4 HIGH "D";
     Examples.blogItem 5 LOW "E"] VERIFIED = 5%Z.
Proof.
  apply (calculateConfidence_spec
           [Examples.blogItem 1 LOW "A"; Examples.blogItem 2 HIGH "B";
            Examples.blogItem 3 MEDIUM "C"; Examples.blogItem 4 HIGH "D";
            Examples.blogItem 5 LOW "E"] VERIFIED).
  - vm_compute. lia.
  - vm_compute. lia.
Defined.

(** C10.  The confidence score is never below 3: the only deduction is
    the half point for CLAIM_UNVERIFIED, the score before rounding is at
    least 2.5, and 2.5 rounds up to 3.  The lower clamp at 1 therefore
    never changes the rounded score, and the values actually returned
    are 3, 4 and 5, each of which occurs. *)
Theorem calculateConfidence_at_least_3 (items : list RawItemWithSource)
        (status : VerificationStatus) :
  (3 <= calculateConfidence items status <= 5)%Z
  /\ (5 # 2 <= rawConfidence items status)%Q
  /\ Math_round (5 # 2) = 3%Z
  /\ Z.max 1 (Math_round (rawConfidence items status))
     = Math_round (rawConfidence items status)
  /\ calculateConfidence [] CLAIM_UNVERIFIED = 3%Z
  /\ calculateConfidence [] VERIFIED = 4%Z
  /\ calculateConfidence [Examples.blogItem 1 HIGH "A"] VERIFIED = 5%Z.
Proof.
  split; [apply calculateConfidence_range|].
  split.
  { confidence_cases items status; vm_compute; discriminate. }
  split; [reflexivity|].
  split.
  { pose proof (calculateConfidence_range items status) as H.
    unfold calculateConfidence in H. lia. }
  split; [|split]; vm_compute; reflexivity.
Qed.

End ConfidenceFacts.

(* ================================================================== *)
(** ** The clustering job *)

Section ClusterFacts.
Import JsString Ingestion.

Variable toISODate : Z -> string.

Lemma markedItem_id (ids : list nat) (r : RawItem) :
  id (Spec.markedItem ids r) = id r.
Proof. unfold Spec.markedItem. now destruct (existsb _ ids). Qed.

Lemma markedItem_app (ids1 ids2 : list nat) (r : RawItem) :
  Spec.markedItem ids2 (Spec.markedItem ids1 r) = Spec.markedItem (ids1 ++ ids2) r.
Proof.
  unfold Spec.markedItem at 2 3. rewrite existsb_app.
  destruct (existsb (Nat.eqb (id r)) ids1) eqn:E1; simpl.
  - unfold Spec.markedItem. simpl.
    now destruct (existsb (Nat.eqb (id r)) ids2).
  - reflexivity.
Qed.

Lemma map_markedItem_nil (l : list RawItem) : map (Spec.markedItem []) l = l.
Proof.
  induction l as [|a l IH]; simpl; [reflexivity|].
  now rewrite IH.
Qed.

Lemma markedItem_processed (ids : list nat) (r : RawItem) :
  In (id r) ids -> processed (Spec.markedItem ids r) = true.
Proof.
  intros H. unfold Spec.markedItem.
  assert (E : existsb (Nat.eqb (id r)) ids = true).
  { apply existsb_exists. exists (id r). split; [exact H | apply Nat.eqb_refl]. }
  now rewrite E.
Qed.

Lemma markedItem_unprocessed (ids : list nat) (r : RawItem) :
  unprocessed (Spec.markedItem ids r) = true ->
  unprocessed r = true /\ ~ In (id r) ids /\ Spec.markedItem ids r = r.
Proof.
  unfold Spec.markedItem.
  destruct (existsb (Nat.eqb (id r)) ids) eqn:E.
  - unfold unprocessed. simpl. discriminate.
  - intros H. split; [exact H|]. split; [|reflexivity].
    intros Hin.
    assert (existsb (Nat.eqb (id r)) ids = true).
    { apply existsb_exists. exists (id r). split; [exact Hin | apply Nat.eqb_refl]. }
    congruence.
Qed.

Lemma clusterEffect_refl (db : Store) (created linked : nat) :
  Spec.clusterEffect db created linked [] db created linked.
Proof.
  unfold Spec.clusterEffect. rewrite map_markedItem_nil.
  split; [reflexivity|]. split.
  { exists []. rewrite app_nil_r. simpl. repeat split; auto; try lia.
    constructor. }
  split.
  { exists 0%nat. split; lia. }
  repeat split; reflexivity.
Qed.

Lemma clusterEffect_trans (db0 db1 db2 : Store) (c0 c1 c2 k0 k1 k2 : nat)
      (ids1 ids2 : list nat) :
  Spec.clusterEffect db0 c0 k0 ids1 db1 c1 k1 ->
  Spec.clusterEffect db1 c1 k1 ids2 db2 c2 k2 ->
  Spec.clusterEffect db0 c0 k0 (ids1 ++ ids2) db2 c2 k2.
Proof.
  intros (R1 & (n1 & L1 & K1 & D1 & F1) & (f1 & C1 & X1) & S1 & A1 & N1)
         (R2 & (n2 & L2 & K2 & D2 & F2) & (f2 & C2 & X2) & S2 & A2 & N2).
  unfold Spec.clusterEffect.
  split.
  { rewrite R2, R1, map_map. apply map_ext. intros r. apply markedItem_app. }
  split.
  { exists (n1 ++ n2)%list. rewrite L2, L1, <- app_assoc.
    split; [reflexivity|]. split; [rewrite length_app; lia|]. split.
    - apply NoDup_app; [exact D1 | exact D2 |].
      intros l H1 H2. apply (F2 l H2). rewrite L1. apply in_or_app. now right.
    - intros l Hl Hin. apply in_app_or in Hl. destruct Hl as [Hl | Hl].
      + now apply (F1 l).
      + apply (F2 l Hl). rewrite L1. apply in_or_app. now left. }
  split.
  { exists (f1 + f2)%nat. split; lia. }
  repeat split; congruence.
Qed.

Lemma sameLink_iff (cid item : nat) (l : StoryItemLink) :
  sameLink cid item l = true <->
  l = {| linkClusterId := cid; rawItemId := item |}.
Proof.
  unfold sameLink. rewrite andb_true_iff, !Nat.eqb_eq.
  destruct l as [c i]; simpl. split.
  - intros [-> ->]. reflexivity.
  - intros [= -> ->]. auto.
Qed.

(** Linking one item: its row is marked; a link is appended only when the
    same link is not there yet. *)
Lemma linkItem_effect (cid : nat) (db : Store) (created linked : nat)
      (item : RawItem) :
  Spec.clusterEffect db created linked [id item]
    (fst (linkItem cid (db, linked) item)) created
    (snd (linkItem cid (db, linked) item)).
Proof.
  unfold linkItem.
  destruct (find (sameLink cid (id item)) (storyItemLinks db)) as [l|] eqn:F;
    simpl; unfold Spec.clusterEffect; simpl.
  - split.
    { apply map_ext. intros r. unfold Spec.markedItem. simpl.
      now rewrite orb_false_r. }
    split.
    { exists []. rewrite app_nil_r. simpl.
      split; [reflexivity|]. split; [lia|]. split; [constructor|].
      intros l0 []. }
    split; [exists 0%nat; split; lia|].
    repeat split; reflexivity.
  - split.
    { apply map_ext. intros r. unfold Spec.markedItem. simpl.
      now rewrite orb_false_r. }
    split.
    { exists [{| linkClusterId := cid; rawItemId := id item |}]. simpl.
      split; [reflexivity|]. split; [lia|]. split.
      - constructor; [intros [] | constructor].
      - intros l [<- | []] Hin.
        pose proof (proj1 (find_none _ _) F _ Hin) as E.
        assert (sameLink cid (id item)
                  {| linkClusterId := cid; rawItemId := id item |} = true)
          by now apply sameLink_iff.
        congruence. }
    split; [exists 0%nat; split; lia|].
    repeat split; reflexivity.
Qed.

Lemma linkItems_effect (cid : nat) (items : list RawItem) :
  forall db created linked,
    Spec.clusterEffect db created linked (map id items)
      (fst (fold_left (linkItem cid) items (db, linked))) created
      (snd (fold_left (linkItem cid) items (db, linked))).
Proof.
  induction items as [|item items IH]; intros db created linked.
  - apply clusterEffect_refl.
  - cbn [fold_left map].
    pose proof (linkItem_effect cid db created linked item) as H1.
    destruct (linkItem cid (db, linked) item) as [db1 linked1] eqn:E.
    cbn [fst snd] in H1.
    change (id item :: map id items) with ([id item] ++ map id items)%list.
    eapply clusterEffect_trans; [exact H1 | apply IH].
Qed.

(** Finding or creating the cluster consumes no row and adds no link. *)
Lemma resolveCluster_effect (now : Z) (competitorName : string)
      (items : list RawItem) (db : Store) (created linked : nat) :
  Spec.clusterEffect db created linked []
    (fst (fst (resolveCluster toISODate now competitorName items db)))
    (if snd (resolveCluster toISODate now competitorName items db)
     then S created else created)
    linked.
Proof.
  unfold resolveCluster.
  destruct (findRecentCluster db competitorName now) as [c|]; simpl;
    unfold Spec.clusterEffect; simpl; rewrite map_markedItem_nil.
  - split; [reflexivity|]. split.
    { exists []. rewrite app_nil_r. simpl.
      split; [reflexivity|]. split; [lia|]. split; [constructor|].
      intros l []. }
    split; [exists 0%nat; rewrite length_map; split; lia|].
    repeat split; reflexivity.
  - split; [reflexivity|]. split.
    { exists []. rewrite app_nil_r. simpl.
      split; [reflexivity|]. split; [lia|]. split; [constructor|].
      intros l []. }
    split; [exists 1%nat; rewrite length_app; simpl; split; lia|].
    repeat split; reflexivity.
Qed.

Lemma processGroup_effect (now : Z) (db : Store) (res : ClusterResult)
      (group : string * list RawItem) :
  Spec.clusterEffect db (clustersCreated res) (itemsLinked res)
    (map id (snd group))
    (fst (processGroup toISODate now (db, res) group))
    (clustersCreated (snd (processGroup toISODate now (db, res) group)))
    (itemsLinked (snd (processGroup toISODate now (db, res) group))).
Proof.
  destruct group as [competitorName items]. unfold processGroup.
  destruct items as [|i items]; [apply clusterEffect_refl|].
  pose proof (resolveCluster_effect now competitorName (i :: items) db
                (clustersCreated res) (itemsLinked res)) as H1.
  destruct (resolveCluster toISODate now competitorName (i :: items) db)
    as [[db1 cid] isNew] eqn:E.
  simpl fst in H1. simpl snd in H1.
  pose proof (linkItems_effect cid (i :: items) db1
                (if isNew then S (clustersCreated res) else clustersCreated res)
                (itemsLinked res)) as H2.
  destruct (fold_left (linkItem cid) (i :: items) (db1, itemsLinked res))
    as [db2 linked2] eqn:E2.
  simpl fst in H2. simpl snd in H2. cbn [fst snd clustersCreated itemsLinked].
  change (map id (i :: items)) with ([] ++ map id (i :: items))%list.
  eapply clusterEffect_trans; [exact H1 | exact H2].
Qed.

Lemma processGroups_effect (now : Z) (groups : Groups) :
  forall db res,
    Spec.clusterEffect db (clustersCreated res) (itemsLinked res)
      (Spec.groupIds groups)
      (fst (fold_left (processGroup toISODate now) groups (db, res)))
      (clustersCreated
         (snd (fold_left (processGroup toISODate now) groups (db, res))))
      (itemsLinked
         (snd (fold_left (processGroup toISODate now) groups (db, res)))).
Proof.
  induction groups as [|g groups IH]; intros db res.
  - apply clusterEffect_refl.
  - cbn [fold_left].
    pose proof (processGroup_effect now db res g) as H1.
    destruct (processGroup toISODate now (db, res) g) as [db1 res1] eqn:E.
    cbn [fst snd] in H1.
    unfold Spec.groupIds. cbn [map concat]. rewrite map_app.
    eapply clusterEffect_trans; [exact H1 | apply IH].
Qed.

Lemma groupPush_In (groups : Groups) (key : string) (item x : RawItem) :
  In x (concat (map snd (groupPush groups key item))) <->
  In x (concat (map snd groups)) \/ x = item.
Proof.
  induction groups as [|[k items] rest IH]; simpl.
  - intuition.
  - destruct (String.eqb k key); simpl; rewrite !in_app_iff.
    + simpl. intuition.
    + rewrite IH. intuition.
Qed.

Lemma groupItems_In (competitors : list Ai.CompetitorConfig)
      (items : list RawItem) (x : RawItem) :
  In x (concat (map snd (groupItems competitors items))) <-> In x items.
Proof.
  unfold groupItems.
  assert (G : forall groups,
             In x (concat (map snd
                     (fold_left (fun groups item =>
                                   groupPush groups
                                     (competitorKey competitors item) item)
                                items groups)))
             <-> In x (concat (map snd groups)) \/ In x items).
  { induction items as [|i items IH]; intros groups; simpl.
    - intuition.
    - rewrite IH, groupPush_In. intuition. }
  rewrite G. simpl. intuition.
Qed.

(** The whole job, from an empty count. *)
Lemma dedupeAndClusterJob_effect (competitors : list Ai.CompetitorConfig)
      (now : Z) (db : Store) :
  Spec.clusterEffect db 0 0
    (Spec.groupIds (groupItems competitors (findUnprocessed db)))
    (fst (dedupeAndClusterJob toISODate competitors now db))
    (clustersCreated (snd (dedupeAndClusterJob toISODate competitors now db)))
    (itemsLinked (snd (dedupeAndClusterJob toISODate competitors now db))).
Proof.
  unfold dedupeAndClusterJob.
  apply (processGroups_effect now _ db
           {| clustersCreated := 0; itemsLinked := 0 |}).
Qed.

Lemma consumed_ids (competitors : list Ai.CompetitorConfig) (db : Store) (n : nat) :
  In n (Spec.groupIds (groupItems competitors (findUnprocessed db))) <->
  exists b, In b (findUnprocessed db) /\ id b = n.
Proof.
  unfold Spec.groupIds. rewrite in_map_iff.
  split; intros (b & H1 & H2); exists b.
  - split; [now apply (groupItems_In competitors) | exact H1].
  - split; [exact H2 | now apply groupItems_In].
Qed.

Lemma firstn_incl {A} (n : nat) (l : list A) (x : A) :
  In x (firstn n l) -> In x l.
Proof.
  revert n. induction l as [|a l IH]; intros [|n]; simpl; try tauto.
  intros [-> | H]; [now left | right; now apply (IH n)].
Qed.

Lemma filter_none {A} (f : A -> bool) (l : list A) :
  (forall x, In x l -> f x = false) -> filter f l = [].
Proof.
  induction l as [|a l IH]; intros H; simpl; [reflexivity|].
  rewrite (H a) by now left. apply IH. intros x Hx. apply H. now right.
Qed.

(** C5.  The clustering job is idempotent.  After a run every row it
    consumed is marked processed, whether or not a link was added for
    it; links are only appended, each one a link that was not there
    before and none twice (so a table without duplicate links stays
    without), and [itemsLinked] is their number;
    [clustersCreated] is the number of clusters added.  A second run
    consumes none of the rows the first one consumed, and when the first
    run consumed every pending row the second changes nothing and
    reports zero clusters and zero links. *)
Theorem dedupeAndClusterJob_idempotent
        (competitors : list Ai.CompetitorConfig) (now now' : Z) (db : Store) :
  let run1 := dedupeAndClusterJob toISODate competitors now db in
  let db1 := fst run1 in
  (forall r, In r (rawItems db1) ->
             (exists b, In b (findUnprocessed db) /\ id b = id r) ->
             processed r = true)
  /\ (exists new,
         storyItemLinks db1 = (storyItemLinks db ++ new)%list
         /\ itemsLinked (snd run1) = length new
         /\ NoDup new
         /\ forall l, In l new -> ~ In l (storyItemLinks db))
  /\ (NoDup (storyItemLinks db) -> NoDup (storyItemLinks db1))
  /\ length (storyClusters db1)
     = (length (storyClusters db) + clustersCreated (snd run1))%nat
  /\ (forall r b, In r (findUnprocessed db1) -> In b (findUnprocessed db) ->
                  id r <> id b)
  /\ ((length (filter unprocessed (rawItems db)) <= BATCH)%nat ->
      dedupeAndClusterJob toISODate competitors now' db1
      = (db1, {| clustersCreated := 0; itemsLinked := 0 |})).
Proof.
  intros run1 db1.
  pose proof (dedupeAndClusterJob_effect competitors now db) as E.
  fold run1 in E. fold db1 in E.
  destruct E as (R & (new & L & K & D & F) & (fresh & C & X) & _).
  set (ids := Spec.groupIds (groupItems competitors (findUnprocessed db))) in *.
  split.
  { intros r Hr (b & Hb & Hid).
    rewrite R in Hr. apply in_map_iff in Hr. destruct Hr as (r0 & <- & _).
    apply markedItem_processed. rewrite markedItem_id in Hid.
    apply consumed_ids. now exists b. }
  split.
  { exists new. repeat split; auto. }
  split.
  { intros Hold. rewrite L. apply NoDup_app; [exact Hold | exact D |].
    intros l Hl Hl'. now apply (F l). }
  split; [lia|].
  assert (Hleft : forall r, In r (filter unprocessed (rawItems db1)) ->
                            In r (rawItems db) /\ unprocessed r = true
                            /\ ~ In (id r) ids).
  { intros r Hr. apply filter_In in Hr. destruct Hr as [Hr Hu].
    rewrite R in Hr. apply in_map_iff in Hr. destruct Hr as (r0 & <- & Hr0).
    destruct (markedItem_unprocessed ids r0 Hu) as (U0 & Hn & ->). auto. }
  split.
  { intros r b Hr Hb Hid.
    apply firstn_incl in Hr. destruct (Hleft r Hr) as (_ & _ & Hn).
    apply Hn. apply consumed_ids. exists b. auto. }
  intros Hall.
  assert (Hnone : filter unprocessed (rawItems db1) = []).
  { destruct (filter unprocessed (rawItems db1)) as [|r rest] eqn:Ef;
      [reflexivity|].
    destruct (Hleft r) as (Hr & Hu & Hn); [try rewrite Ef; now left|].
    exfalso. apply Hn. apply consumed_ids. exists r. split; [|reflexivity].
    unfold findUnprocessed. rewrite firstn_all2 by exact Hall.
    apply filter_In. auto. }
  unfold dedupeAndClusterJob, findUnprocessed. rewrite Hnone.
  destruct BATCH; reflexivity.
Qed.

(** C7.  For the group of a competitor key: when some cluster of the
    store has a title containing the key and was created within the last
    24 hours, such a cluster (the first in the table) is the group's
    cluster, no cluster is added and its row gets [updatedAt] set to the
    clock reading; when there is none, one cluster is added, titled with
    the first item's title or, that title being null or empty, with
    "<key> Updates - <ISO date>".  [processGroup] links every item of the
    group to the cluster so resolved. *)
Theorem resolveCluster_reuse_or_create
        (now : Z) (competitorName : string) (first : RawItem)
        (others : list RawItem) (db : Store) :
  let items := first :: others in
  let db' := fst (fst (resolveCluster toISODate now competitorName items db)) in
  let cid := snd (fst (resolveCluster toISODate now competitorName items db)) in
  let created := snd (resolveCluster toISODate now competitorName items db) in
  ((exists c, In c (storyClusters db) /\ Spec.reusable competitorName now c) ->
   exists c,
     In c (storyClusters db) /\ Spec.reusable competitorName now c
     /\ cid = clusterId c /\ created = false
     /\ storyClusters db'
        = map (fun c' => if Nat.eqb (clusterId c') cid
                         then Spec.bumped now c' else c')
              (storyClusters db)
     /\ In (Spec.bumped now c) (storyClusters db'))
  /\ (~ (exists c, In c (storyClusters db) /\ Spec.reusable competitorName now c) ->
      created = true /\ cid = nextId db
      /\ storyClusters db'
         = (storyClusters db ++
            [{| clusterId := nextId db;
                canonicalTitle := defaultTitle toISODate competitorName items now;
                createdAt := now; updatedAt := now |}])%list)
  /\ (forall t, title first = Some t -> t <> "" ->
                defaultTitle toISODate competitorName items now = t)
  /\ (title first = None \/ title first = Some "" ->
      defaultTitle toISODate competitorName items now
      = competitorName ++ " Updates - " ++ toISODate now)
  /\ (forall res,
         processGroup toISODate now (db, res) (competitorName, items)
         = (fst (fold_left (linkItem cid) items (db', itemsLinked res)),
            {| clustersCreated := if created then S (clustersCreated res)
                                  else clustersCreated res;
               itemsLinked :=
                 snd (fold_left (linkItem cid) items (db', itemsLinked res)) |})).
Proof.
  intros items db' cid created.
  assert (Hre : forall c, recentFor competitorName now c = true <->
                          Spec.reusable competitorName now c).
  { intros c. unfold recentFor, Spec.reusable.
    now rewrite andb_true_iff, includes_iff, Z.leb_le. }
  split; [|split; [|split; [|split]]].
  - intros (c0 & Hin0 & Hr0).
    destruct (findRecentCluster db competitorName now) as [c|] eqn:F.
    + unfold findRecentCluster in F.
      pose proof (find_some _ _ F) as [Hin Hc]. apply Hre in Hc.
      assert (Ecid : cid = clusterId c)
        by (unfold cid, resolveCluster, findRecentCluster; now rewrite F).
      assert (Edb : storyClusters db'
                    = map (fun c' => if Nat.eqb (clusterId c') cid
                                     then Spec.bumped now c' else c')
                          (storyClusters db)).
      { rewrite Ecid.
        unfold db', resolveCluster, findRecentCluster. rewrite F. reflexivity. }
      exists c. split; [exact Hin|]. split; [exact Hc|].
      split; [exact Ecid|]. split.
      { unfold created, resolveCluster, findRecentCluster. now rewrite F. }
      split; [exact Edb|].
      rewrite Edb. apply in_map_iff. exists c. split; [|exact Hin].
      now rewrite Ecid, Nat.eqb_refl.
    + unfold findRecentCluster in F.
      pose proof (proj1 (find_none _ _) F c0 Hin0) as E.
      apply Hre in Hr0. congruence.
  - intros Hno.
    assert (F : findRecentCluster db competitorName now = None).
    { unfold findRecentCluster. apply find_none. intros c Hin.
      destruct (recentFor competitorName now c) eqn:E; [|reflexivity].
      exfalso. apply Hno. exists c. split; [exact Hin | now apply Hre]. }
    unfold created, cid, db', resolveCluster. rewrite F. simpl. auto.
  - intros t Ht Hne. unfold defaultTitle, items. rewrite Ht.
    destruct t; [contradiction | reflexivity].
  - intros [Ht | Ht]; unfold defaultTitle, items; rewrite Ht; reflexivity.
  - intros res. unfold processGroup, items at 1.
    unfold db', cid, created.
    destruct (resolveCluster toISODate now competitorName items db)
      as [[db1 c1] isNew].
    cbn [fst snd].
    now destruct (fold_left (linkItem c1) items (db1, itemsLinked res)).
Qed.

End ClusterFacts.

Lemma dedupeAndClusterJob_idempotent_witness :
  (length (filter Ingestion.unprocessed
                  (Ingestion.rawItems Examples.exampleStore))
   <= Ingestion.BATCH)%nat
  /\ Ingestion.dedupeAndClusterJob Examples.exampleDate
       Examples.exampleCompetitors 90000000
       (fst (Ingestion.dedupeAndClusterJob Examples.exampleDate
               Examples.exampleCompetitors 5000 Examples.exampleStore))
     = (fst (Ingestion.dedupeAndClusterJob Examples.exampleDate
               Examples.exampleCompetitors 5000 Examples.exampleStore),
        {| Ingestion.clustersCreated := 0; Ingestion.itemsLinked := 0 |}).
Proof.
  assert (H : (length (filter Ingestion.unprocessed
                         (Ingestion.rawItems Examples.exampleStore))
               <= Ingestion.BATCH)%nat) by (vm_compute; lia).
  split; [exact H|].
  destruct (dedupeAndClusterJob_idempotent Examples.exampleDate
              Examples.exampleCompetitors 5000 90000000 Examples.exampleStore)
    as (_ & _ & _ & _ & _ & Hidem).
  exact (Hidem H).
Defined.

Lemma resolveCluster_reuse_or_create_witness :
  snd (fst (Ingestion.resolveCluster Examples.exampleDate 5000 "Housecall Pro"
              [Examples.rawItem 2 None (Some "Housecall Pro opens a new office.")]
              Examples.exampleStore)) = 7%nat
  /\ Ingestion.defaultTitle Examples.exampleDate "Housecall Pro"
       [Examples.rawItem 2 None (Some "Housecall Pro opens a new office.")] 5000
     = "Housecall Pro Updates - 2026-01-01".
Proof.
  destruct (resolveCluster_reuse_or_create Examples.exampleDate 5000
              "Housecall Pro"
              (Examples.rawItem 2 None (Some "Housecall Pro opens a new office."))
              [] Examples.exampleStore)
    as (Hreuse & _ & _ & Htitle & _).
  split.
  - destruct Hreuse as (c & Hin & _ & Hcid & _).
    + exists {| Ingestion.clusterId := 7;
                Ingestion.canonicalTitle := "Housecall Pro Updates - 2026-01-01";
                Ingestion.createdAt := 1000; Ingestion.updatedAt := 1000 |}.
      split; [now left|]. split.
      * exists "", " Updates - 2026-01-01". reflexivity.
      * vm_compute. discriminate.
    + rewrite Hcid. destruct Hin as [<- | []]. reflexivity.
  - apply Htitle. now left.
Defined.

(* ================================================================== *)
(** ** The alerts job *)

Section AlertFacts.
Import Ai Ingestion.

Lemma Priority_eqb_eq (a b : Priority) : Priority_eqb a b = true <-> a = b.
Proof. destruct a, b; simpl; split; congruence. Qed.

Lemma length_zero_iff {A} (l : list A) : (length l =? 0)%nat = true <-> l = [].
Proof. destruct l; simpl; split; congruence. Qed.

Lemma sameId_iff (x : nat) (o : option nat) : sameId x o = true <-> o = Some x.
Proof.
  destruct o as [y|]; simpl.
  - rewrite Nat.eqb_eq. split; congruence.
  - split; discriminate.
Qed.

(** The four tests of the job are the specification's four conditions. *)
Lemma alertMatches_iff (alert : UserAlert) (summary : StorySummary) :
  alertMatches alert summary = true <-> Spec.ruleMatches alert summary.
Proof.
  unfold alertMatches, Spec.ruleMatches,
    matchesVertical, matchesCompetitor, matchesPriority, matchesCapability.
  rewrite !andb_true_iff, !orb_true_iff, !length_zero_iff, !existsb_exists,
    andb_true_iff, negb_true_iff, !Priority_eqb_eq.
  assert (HV : (exists x, In x (alertVerticals alert)
                          /\ sameId x (verticalId summary) = true)
               <-> exists v, In v (alertVerticals alert)
                             /\ verticalId summary = Some v).
  { split; intros (v & Hv & H); exists v; (split; [exact Hv|]);
      now apply sameId_iff. }
  assert (HC : (exists x, In x (alertCompetitors alert)
                          /\ sameId x (competitorId summary) = true)
               <-> exists c, In c (alertCompetitors alert)
                             /\ competitorId summary = Some c).
  { split; intros (v & Hv & H); exists v; (split; [exact Hv|]);
      now apply sameId_iff. }
  assert (HK : (exists x, In x (aiCapabilities summary)
                          /\ existsb (AICapability_eqb x)
                                     (alertCapabilities alert) = true)
               <-> exists c, In c (aiCapabilities summary)
                             /\ In c (alertCapabilities alert)).
  { split; intros (c & Hc & H); exists c; (split; [exact Hc|]);
      now apply capIncludes_iff. }
  assert (HP : Priority_eqb (minPriority alert) P0 = false
               <-> minPriority alert <> P0).
  { rewrite <- Priority_eqb_eq.
    destruct (Priority_eqb (minPriority alert) P0); intuition congruence. }
  rewrite HV, HC, HK, HP. tauto.
Qed.

Lemma sameNotification_iff (user story : nat) (n : Notification) :
  sameNotification user story n = true <-> Spec.notifKey n = (user, story).
Proof.
  unfold sameNotification, Spec.notifKey.
  rewrite andb_true_iff, !Nat.eqb_eq. split.
  - intros [-> ->]. reflexivity.
  - intros [= -> ->]. auto.
Qed.

Lemma find_notification_none (user story : nat) (l : list Notification) :
  find (sameNotification user story) l = None ->
  ~ In (user, story) (map Spec.notifKey l).
Proof.
  intros F Hin. apply in_map_iff in Hin. destruct Hin as (n & Hk & Hn).
  pose proof (proj1 (find_none _ _) F n Hn) as E.
  apply sameNotification_iff in Hk. congruence.
Qed.

Lemma find_notification_some (user story : nat) (l : list Notification)
      (n : Notification) :
  find (sameNotification user story) l = Some n ->
  In (user, story) (map Spec.notifKey l).
Proof.
  intros F. apply find_some in F. destruct F as [Hn Hk].
  apply sameNotification_iff in Hk. apply in_map_iff. now exists n.
Qed.

(** The nested loops walk [Spec.processedPairs]. *)
Lemma alertsJob_pairs (now : Z) (db : Store) :
  alertsJob now db =
  fold_left (fun st p => alertStep (fst p) st (snd p))
            (Spec.processedPairs now db) (db, 0%nat).
Proof.
  unfold alertsJob, Spec.processedPairs.
  generalize (filter isActive (userAlerts db)) as alerts.
  generalize (filter (recentSummary now) (storySummaries db)) as sums.
  generalize (db, 0%nat) as st.
  intros st sums alerts. revert st.
  induction sums as [|s sums IH]; intros st; simpl; [reflexivity|].
  rewrite fold_left_app, <- IH. f_equal.
  clear IH. revert st.
  induction alerts as [|a alerts IHa]; intros st; simpl; [reflexivity|].
  apply IHa.
Qed.

(** One more pair keeps the effect. *)
Lemma alertStep_effect (before : list Notification) (sent : nat)
      (pairs : list (StorySummary * UserAlert))
      (db1 : Store) (sent1 : nat) (s : StorySummary) (a : UserAlert) :
  Spec.alertEffect before sent pairs db1 sent1 ->
  Spec.alertEffect before sent (pairs ++ [(s, a)])
    (fst (alertStep s (db1, sent1) a)) (snd (alertStep s (db1, sent1) a)).
Proof.
  intros (new & N & K & Hsound & Hnd & Hnew & Hcomplete).
  assert (Hold : forall n, In n new ->
                   exists s0 a0, In (s0, a0) (pairs ++ [(s, a)])
                                 /\ alertMatches a0 s0 = true
                                 /\ n = notificationFor a0 s0).
  { intros n Hn. destruct (Hsound n Hn) as (s0 & a0 & Hp & Hm & E).
    exists s0, a0. split; [apply in_or_app; now left | auto]. }
  unfold alertStep.
  destruct (alertMatches a s) eqn:M.
  - destruct (find (sameNotification (userId a) (summaryId s))
                   (notifications db1)) as [n0|] eqn:F; cbn [fst snd].
    + exists new. repeat split; auto.
      intros s0 a0 Hp Hm. apply in_app_or in Hp.
      destruct Hp as [Hp | [[= <- <-] | []]]; [now apply Hcomplete|].
      rewrite <- N. now apply (find_notification_some _ _ _ n0).
    + apply find_notification_none in F. rewrite N in F.
      exists (new ++ [notificationFor a s])%list.
      split; [simpl; now rewrite N, app_assoc|].
      split; [rewrite length_app; simpl; lia|].
      split.
      { intros n Hn. apply in_app_or in Hn.
        destruct Hn as [Hn | [<- | []]]; [now apply Hold|].
        exists s, a. split; [apply in_or_app; right; now left | auto]. }
      split.
      { rewrite map_app. apply NoDup_app; [exact Hnd | |].
        - simpl. constructor; [intros [] | constructor].
        - intros k Hk [<- | []]. apply F. rewrite map_app.
          apply in_or_app. now right. }
      split.
      { intros n Hn. apply in_app_or in Hn.
        destruct Hn as [Hn | [<- | []]]; [now apply Hnew|].
        intros Hin. apply F. rewrite map_app. apply in_or_app. now left. }
      intros s0 a0 Hp Hm. rewrite app_assoc, map_app.
      apply in_app_or in Hp.
      destruct Hp as [Hp | [[= <- <-] | []]].
      * apply in_or_app. left. now apply Hcomplete.
      * apply in_or_app. right. now left.
  - cbn [fst snd]. exists new. repeat split; auto.
    intros s0 a0 Hp Hm. apply in_app_or in Hp.
    destruct Hp as [Hp | [[= <- <-] | []]]; [now apply Hcomplete|].
    congruence.
Qed.

Lemma alertPairs_effect (pairs : list (StorySummary * UserAlert)) (db : Store) :
  Spec.alertEffect (notifications db) 0 pairs
    (fst (fold_left (fun st p => alertStep (fst p) st (snd p)) pairs (db, 0%nat)))
    (snd (fold_left (fun st p => alertStep (fst p) st (snd p)) pairs (db, 0%nat))).
Proof.
  induction pairs as [|[s a] pairs IH] using rev_ind.
  - exists []. simpl. rewrite app_nil_r.
    split; [reflexivity|]. split; [reflexivity|].
    split; [intros n []|]. split; [constructor|].
    split; [intros n []|]. intros s a [].
  - rewrite fold_left_app. cbn [fold_left fst snd].
    destruct (fold_left _ pairs (db, 0%nat)) as [db1 sent1].
    now apply alertStep_effect.
Qed.

Lemma processedPairs_In (now : Z) (db : Store) (s : StorySummary) (a : UserAlert) :
  In (s, a) (Spec.processedPairs now db) <->
  (In s (storySummaries db) /\ recentSummary now s = true)
  /\ (In a (userAlerts db) /\ isActive a = true).
Proof.
  unfold Spec.processedPairs. rewrite in_flat_map. split.
  - intros (s0 & Hs & Hp). apply in_map_iff in Hp.
    destruct Hp as (a0 & [= -> ->] & Ha).
    apply filter_In in Hs, Ha. tauto.
  - intros [Hs Ha]. exists s. split; [now apply filter_In|].
    apply in_map. now apply filter_In.
Qed.

(** C9.  The job's test of a rule against a summary is the conjunction
    the specification gives.  The job only appends notifications and
    [alertsSent] is their number; each one is for a processed summary and
    an active rule that matches it; no two of them are for the same user
    and summary and none is for a user and summary that already had one,
    so a table with at most one notification per user and summary stays
    so; and after the job every matching pair of a processed summary and an
    active rule has a notification for the rule's user and the
    summary. *)
Theorem alertsJob_notifications (now : Z) (db : Store) :
  let db' := fst (alertsJob now db) in
  let alertsSent := snd (alertsJob now db) in
  (forall a s, alertMatches a s = true <-> Spec.ruleMatches a s)
  /\ exists new,
      notifications db' = (notifications db ++ new)%list
      /\ alertsSent = length new
      /\ (forall n, In n new ->
            exists s a,
              In s (storySummaries db) /\ recentSummary now s = true
              /\ In a (userAlerts db) /\ isActive a = true
              /\ Spec.ruleMatches a s /\ n = notificationFor a s)
      /\ NoDup (map Spec.notifKey new)
      /\ (forall n, In n new ->
            ~ In (Spec.notifKey n) (map Spec.notifKey (notifications db)))
      /\ (NoDup (map Spec.notifKey (notifications db)) ->
          NoDup (map Spec.notifKey (notifications db')))
      /\ (forall s a,
            In s (storySummaries db) -> recentSummary now s = true ->
            In a (userAlerts db) -> isActive a = true ->
            Spec.ruleMatches a s ->
            exists n, In n (notifications db')
                      /\ notifUserId n = userId a
                      /\ storyId n = summaryId s).
Proof.
  intros db' alertsSent.
  split; [intros a s; apply alertMatches_iff|].
  pose proof (alertPairs_effect (Spec.processedPairs now db) db) as E.
  rewrite <- alertsJob_pairs in E. fold db' in E. fold alertsSent in E.
  destruct E as (new & N & K & Hsound & Hnd & Hnew & Hcomplete).
  exists new.
  split; [exact N|]. split; [exact K|]. split.
  { intros n Hn. destruct (Hsound n Hn) as (s & a & Hp & Hm & E).
    apply processedPairs_In in Hp. destruct Hp as [[Hs Hr] [Ha Hact]].
    exists s, a. split; [exact Hs|]. split; [exact Hr|].
    split; [exact Ha|]. split; [exact Hact|].
    split; [now apply alertMatches_iff | exact E]. }
  split; [exact Hnd|]. split; [exact Hnew|]. split.
  { intros Hold. rewrite N, map_app.
    apply NoDup_app; [exact Hold | exact Hnd |].
    intros k Hk Hk'. apply in_map_iff in Hk'.
    destruct Hk' as (n & <- & Hn). now apply (Hnew n). }
  intros s a Hs Hr Ha Hact Hm.
  assert (Hin : In (userId a, summaryId s)
                   (map Spec.notifKey (notifications db ++ new)%list)).
  { apply Hcomplete; [now apply processedPairs_In | now apply alertMatches_iff]. }
  rewrite <- N in Hin. apply in_map_iff in Hin.
  destruct Hin as (n & Hk & Hn). injection Hk as H1 H2.
  exists n. auto.
Qed.

End AlertFacts.

Lemma alertsJob_notifications_witness :
  exists n,
    In n (Ingestion.notifications
            (fst (Ingestion.alertsJob 2000 Examples.alertStore)))
    /\ Ingestion.notifUserId n = 5%nat /\ Ingestion.storyId n = 10%nat.
Proof.
  destruct (alertsJob_notifications 2000 Examples.alertStore)
    as (_ & new & _ & _ & _ & _ & _ & _ & Hcomplete).
  apply (Hcomplete (Examples.someSummary 10 Ai.P1)
                   (Examples.someAlert 5 Ai.P2)).
  - simpl. auto.
  - vm_compute. reflexivity.
  - simpl. auto.
  - reflexivity.
  - apply alertMatches_iff. vm_compute. reflexivity.
Defined.

(* ================================================================== *)
(** ** The pipeline run *)

Section PipelineFacts.
Import Ingestion.

Variable fetchSourcesJob : Stage nat.
Variable normalizeJob : Stage nat.
Variable clusterJob : Stage ClusterResult.
Variable summarizeAndAnalyzeJob : Stage nat.
Variable alertsStage : Stage nat.

Let body : Stage nat :=
  pipelineBody fetchSourcesJob normalizeJob clusterJob
               summarizeAndAnalyzeJob alertsStage.

Let run : Z -> Store * LogTable -> (Store * LogTable) * (Thrown + unit) :=
  runAllJobs fetchSourcesJob normalizeJob clusterJob
             summarizeAndAnalyzeJob alertsStage.

(** The row a run creates is the one its final update rewrites. *)
Lemma finished_row_recorded (logs : LogTable) (st : JobStatus) (items : nat)
      (msg : option string) (now : Z) :
  In (Spec.finishedRow logs st items msg now)
     (jobRunLogs (updateJobLog (snd (createJobLog "full_pipeline" logs))
                               st items msg now
                               (fst (createJobLog "full_pipeline" logs)))).
Proof.
  unfold createJobLog, updateJobLog. cbn [fst snd jobRunLogs].
  rewrite map_app. apply in_or_app. right. cbn [map logId].
  rewrite Nat.eqb_refl. left. unfold Spec.finishedRow.
  now destruct msg.
Qed.

Lemma run_failed (now : Z) (db db' : Store) (logs : LogTable) (e : Thrown) :
  body db = (db', inl e) -> Spec.failedRun logs now (run now (db, logs)) db' e.
Proof.
  intros H. unfold run, runAllJobs. fold body. rewrite H.
  unfold Spec.failedRun. cbn [fst snd].
  split; [reflexivity|]. split; [reflexivity|].
  apply (finished_row_recorded logs FAILED 0 (Some (errorMsgOf e)) now).
Qed.

Lemma run_completed (now : Z) (db db' : Store) (logs : LogTable) (n : nat) :
  body db = (db', inr n) -> Spec.completedRun logs now (run now (db, logs)) db' n.
Proof.
  intros H. unfold run, runAllJobs. fold body. rewrite H.
  unfold Spec.completedRun. cbn [fst snd].
  split; [reflexivity|]. split; [reflexivity|].
  apply (finished_row_recorded logs COMPLETED n None now).
Qed.

(** C8, as amended.  The five stages run in the fixed order, each on the
    store the one before it left.  When a stage throws, the later stages
    are not run, the run's row of the job log is FAILED with an item
    count of 0 and the error's message in full ([error.message] of an
    [Error], [String(error)] otherwise), and the error is thrown on to
    the caller.  When no stage throws, the row is COMPLETED with the sum
    of the five stages' counts. *)
Theorem runAllJobs_outcome (now : Z) (db : Store) (logs : LogTable) :
  let out := runAllJobs fetchSourcesJob normalizeJob clusterJob
                        summarizeAndAnalyzeJob alertsStage now (db, logs) in
  (forall db1 e,
      fetchSourcesJob db = (db1, inl e) -> Spec.failedRun logs now out db1 e)
  /\ (forall db1 n1 db2 e,
         fetchSourcesJob db = (db1, inr n1) ->
         normalizeJob db1 = (db2, inl e) -> Spec.failedRun logs now out db2 e)
  /\ (forall db1 n1 db2 n2 db3 e,
         fetchSourcesJob db = (db1, inr n1) ->
         normalizeJob db1 = (db2, inr n2) ->
         clusterJob db2 = (db3, inl e) -> Spec.failedRun logs now out db3 e)
  /\ (forall db1 n1 db2 n2 db3 r3 db4 e,
         fetchSourcesJob db = (db1, inr n1) ->
         normalizeJob db1 = (db2, inr n2) ->
         clusterJob db2 = (db3, inr r3) ->
         summarizeAndAnalyzeJob db3 = (db4, inl e) ->
         Spec.failedRun logs now out db4 e)
  /\ (forall db1 n1 db2 n2 db3 r3 db4 n4 db5 e,
         fetchSourcesJob db = (db1, inr n1) ->
         normalizeJob db1 = (db2, inr n2) ->
         clusterJob db2 = (db3, inr r3) ->
         summarizeAndAnalyzeJob db3 = (db4, inr n4) ->
         alertsStage db4 = (db5, inl e) ->
         Spec.failedRun logs now out db5 e)
  /\ (forall db1 n1 db2 n2 db3 r3 db4 n4 db5 n5,
         fetchSourcesJob db = (db1, inr n1) ->
         normalizeJob db1 = (db2, inr n2) ->
         clusterJob db2 = (db3, inr r3) ->
         summarizeAndAnalyzeJob db3 = (db4, inr n4) ->
         alertsStage db4 = (db5, inr n5) ->
         Spec.completedRun logs now out db5
           (n1 + n2 + itemsLinked r3 + n4 + n5)%nat).
Proof.
  intros out. unfold out. fold run.
  split; [|split; [|split; [|split; [|split]]]].
  - intros db1 e H1. apply run_failed.
    unfold body, pipelineBody, bind. now rewrite H1.
  - intros db1 n1 db2 e H1 H2. apply run_failed.
    unfold body, pipelineBody, bind. now rewrite H1, H2.
  - intros db1 n1 db2 n2 db3 e H1 H2 H3. apply run_failed.
    unfold body, pipelineBody, bind. now rewrite H1, H2, H3.
  - intros db1 n1 db2 n2 db3 r3 db4 e H1 H2 H3 H4. apply run_failed.
    unfold body, pipelineBody, bind. now rewrite H1, H2, H3, H4.
  - intros db1 n1 db2 n2 db3 r3 db4 n4 db5 e H1 H2 H3 H4 H5. apply run_failed.
    unfold body, pipelineBody, bind. now rewrite H1, H2, H3, H4, H5.
  - intros db1 n1 db2 n2 db3 r3 db4 n4 db5 n5 H1 H2 H3 H4 H5.
    apply run_completed.
    unfold body, pipelineBody, bind, ret. now rewrite H1, H2, H3, H4, H5.
Qed.

End PipelineFacts.

Lemma length_longMessage (n : nat) : String.length (Examples.longMessage n) = n.
Proof. induction n as [|n IH]; simpl; congruence. Qed.

Lemma runAllJobs_outcome_witness :
  Spec.failedRun Examples.emptyLogs 6000
    (Ingestion.runAllJobs
       (Examples.returns 4%nat) (Examples.returns 0%nat)
       (Ingestion.total
          (Ingestion.dedupeAndClusterJob Examples.exampleDate
             Examples.exampleCompetitors 5000))
       (Examples.throws "analysis failed")
       (Ingestion.total (Ingestion.alertsJob 5000))
       6000 (Examples.exampleStore, Examples.emptyLogs))
    (fst (Ingestion.dedupeAndClusterJob Examples.exampleDate
            Examples.exampleCompetitors 5000 Examples.exampleStore))
    (Ingestion.ErrorObject "analysis failed").
Proof.
  destruct (runAllJobs_outcome
              (Examples.returns 4%nat) (Examples.returns 0%nat)
              (Ingestion.total
                 (Ingestion.dedupeAndClusterJob Examples.exampleDate
                    Examples.exampleCompetitors 5000))
              (Examples.throws "analysis failed")
              (Ingestion.total (Ingestion.alertsJob 5000))
              6000 Examples.exampleStore Examples.emptyLogs)
    as (_ & _ & _ & H & _).
  apply (H Examples.exampleStore 4%nat Examples.exampleStore 0%nat
           (fst (Ingestion.dedupeAndClusterJob Examples.exampleDate
                   Examples.exampleCompetitors 5000 Examples.exampleStore))
           (snd (Ingestion.dedupeAndClusterJob Examples.exampleDate
                   Examples.exampleCompetitors 5000 Examples.exampleStore))).
  - reflexivity.
  - reflexivity.
  - vm_compute. reflexivity.
  - reflexivity.
Defined.

(** C8, as stated, fails: the message recorded on failure is not cut to
    any length.  A first stage throwing an [Error] with a message of 1000
    characters leaves all 1000 in the FAILED row; and whatever limit one
    names, a longer message is recorded whole. *)
Lemma runAllJobs_message_not_truncated :
  (In (Spec.finishedRow Examples.emptyLogs Ingestion.FAILED 0
         (Some (Examples.longMessage 1000)) 0)
      (Ingestion.jobRunLogs
         (snd (fst (Ingestion.runAllJobs
                      (Examples.throws (Examples.longMessage 1000))
                      (Examples.returns 0%nat)
                      (Examples.returns Examples.noClusters)
                      (Examples.returns 0%nat) (Examples.returns 0%nat)
                      0 (Examples.emptyStore, Examples.emptyLogs)))))
   /\ String.length (Examples.longMessage 1000) = 1000%nat)
  /\ ~ exists limit : nat,
        forall (msg : string) (row : Ingestion.JobRunLog) (m : string),
          In row (Ingestion.jobRunLogs
                    (snd (fst (Ingestion.runAllJobs
                                 (Examples.throws msg) (Examples.returns 0%nat)
                                 (Examples.returns Examples.noClusters)
                                 (Examples.returns 0%nat) (Examples.returns 0%nat)
                                 0 (Examples.emptyStore, Examples.emptyLogs))))) ->
          Ingestion.status row = Ingestion.FAILED ->
          Ingestion.errorMessage row = Some m ->
          (String.length m <= limit)%nat.
Proof.
  split.
  - split; [left; reflexivity | apply length_longMessage].
  - intros [limit H].
    specialize (H (Examples.longMessage (S limit))
                  (Spec.finishedRow Examples.emptyLogs Ingestion.FAILED 0
                     (Some (Examples.longMessage (S limit))) 0)
                  (Examples.longMessage (S limit))).
    rewrite length_longMessage in H.
    assert (S limit <= limit)%nat; [|lia].
    apply H; [left; reflexivity | reflexivity | reflexivity].
Qed.

(* ================================================================== *)
(** ** Truncation *)

Section TruncateFacts.
Import Utils.

Lemma length_append (a b : string) :
  String.length (a ++ b) = (String.length a + String.length b)%nat.
Proof. induction a as [|c a IH]; simpl; [reflexivity | now rewrite IH]. Qed.

Lemma length_substring0 (m : nat) (s : string) :
  String.length (substring 0 m s) = Nat.min m (String.length s).
Proof.
  revert s. induction m as [|m IH]; intros [|c s]; simpl; try reflexivity.
  now rewrite IH.
Qed.

Lemma slice0_length (s : string) (finish : Z) :
  (0 <= finish <= Z.of_nat (String.length s))%Z ->
  String.length (slice s 0 finish) = Z.to_nat finish.
Proof.
  intros H. unfold slice. cbn [Z.ltb Z.compare].
  destruct (finish <? 0)%Z eqn:E; [apply Z.ltb_lt in E; lia|].
  rewrite Z.min_l by lia. rewrite Z.min_l by lia.
  rewrite Z.sub_0_r, Z.max_l by lia. simpl Z.to_nat at 1.
  rewrite length_substring0. lia.
Qed.

Lemma substring0_prefix (n : nat) (s : string) :
  exists dropped, s = substring 0 n s ++ dropped.
Proof.
  revert s. induction n as [|n IH]; intros s.
  - exists s. now destruct s.
  - destruct s as [|c t]; [now exists ""|].
    destruct (IH t) as [d Hd]. exists d. simpl. now rewrite <- Hd.
Qed.

Lemma slice0_prefix (s : string) (finish : Z) :
  (0 <= finish)%Z -> exists dropped, s = slice s 0 finish ++ dropped.
Proof.
  intros H. unfold slice. cbn [Z.ltb Z.compare].
  destruct (finish <? 0)%Z eqn:E; [apply Z.ltb_lt in E; lia|].
  rewrite (Z.min_l 0) by lia. rewrite Z.sub_0_r. simpl Z.to_nat at 1.
  apply substring0_prefix.
Qed.

(** [slice(0, n)] with [n] negative drops the last [-n] characters. *)
Lemma slice0_negative_length (s : string) (finish : Z) :
  (finish < 0)%Z ->
  String.length (slice s 0 finish)
  = Z.to_nat (Z.max (Z.of_nat (String.length s) + finish) 0).
Proof.
  intros H. unfold slice. cbn [Z.ltb Z.compare].
  apply Z.ltb_lt in H. rewrite H.
  rewrite Z.min_l by lia. rewrite Z.sub_0_r. simpl Z.to_nat at 1.
  rewrite length_substring0. lia.
Qed.

Lemma truncateText_short (text : string) (maxLength : Z) :
  (Z.of_nat (String.length text) <= maxLength)%Z ->
  truncateText text maxLength = text.
Proof. intros H. unfold truncateText. apply Z.leb_le in H. now rewrite H. Qed.

Lemma truncateText_long (text : string) (maxLength : Z) :
  (3 <= maxLength)%Z ->
  (maxLength < Z.of_nat (String.length text))%Z ->
  truncateText text maxLength = slice text 0 (maxLength - 3) ++ "..."
  /\ Z.of_nat (String.length (truncateText text maxLength)) = maxLength.
Proof.
  intros H3 H. unfold truncateText.
  destruct (Z.of_nat (String.length text) <=? maxLength)%Z eqn:E;
    [apply Z.leb_le in E; lia|].
  split; [reflexivity|].
  rewrite length_append, slice0_length by lia. simpl String.length. lia.
Qed.

Lemma truncateText_length_le (text : string) (maxLength : Z) :
  (3 <= maxLength)%Z ->
  (Z.of_nat (String.length (truncateText text maxLength)) <= maxLength)%Z.
Proof.
  intros H3.
  destruct (Z_le_gt_dec (Z.of_nat (String.length text)) maxLength) as [H|H].
  - now rewrite truncateText_short.
  - destruct (truncateText_long text maxLength H3) as [_ Hl]; lia.
Qed.

(** X1.  With a limit of 3 or more, [truncateText] never returns more
    than [maxLength] characters: a text within the limit comes back as it
    is, a longer one comes back as exactly [maxLength] characters ending
    in "...".  Truncating twice is truncating once. *)
Theorem truncateText_bound (text : string) (maxLength : Z) :
  (3 <= maxLength)%Z ->
  (Z.of_nat (String.length (truncateText text maxLength)) <= maxLength)%Z
  /\ ((Z.of_nat (String.length text) <= maxLength)%Z ->
      truncateText text maxLength = text)
  /\ ((maxLength < Z.of_nat (String.length text))%Z ->
      Z.of_nat (String.length (truncateText text maxLength)) = maxLength
      /\ exists kept,
          truncateText text maxLength = kept ++ "..."
          /\ exists dropped, text = kept ++ dropped)
  /\ truncateText (truncateText text maxLength) maxLength
     = truncateText text maxLength.
Proof.
  intros H3.
  pose proof (truncateText_length_le text maxLength H3) as Hbound.
  split; [exact Hbound|]. split; [apply truncateText_short|]. split.
  - intros H. destruct (truncateText_long text maxLength H3 H) as [E Hl].
    split; [exact Hl|].
    exists (slice text 0 (maxLength - 3)). split; [exact E|].
    apply slice0_prefix. lia.
  - unfold truncateText at 1. apply Z.leb_le in Hbound. now rewrite Hbound.
Qed.

Lemma truncateText_bound_witness :
  (3 <= 10)%Z
  /\ truncateText "ServiceTitan launches" 10 = "Service...".
Proof.
  split; [lia|].
  destruct (truncateText_bound "ServiceTitan launches" 10) as (_ & _ & H & _);
    [lia|].
  destruct H as (_ & kept & E & dropped & Hd); [vm_compute; reflexivity|].
  rewrite E. vm_compute in E. now inversion E.
Defined.

(** X2.  With a limit below 3 the bound fails: a text longer than the
    limit comes back longer than the limit, as the text less its last
    [3 - maxLength] characters (none left when it is that short)
    followed by "...". *)
Theorem truncateText_small_limit (text : string) (maxLength : Z) :
  (maxLength < 3)%Z ->
  (maxLength < Z.of_nat (String.length text))%Z ->
  Z.of_nat (String.length (truncateText text maxLength))
  = (Z.max (Z.of_nat (String.length text) + (maxLength - 3)) 0 + 3)%Z
  /\ (maxLength < Z.of_nat (String.length (truncateText text maxLength)))%Z.
Proof.
  intros H3 Hlen. unfold truncateText.
  destruct (Z.of_nat (String.length text) <=? maxLength)%Z eqn:E;
    [apply Z.leb_le in E; lia|].
  rewrite length_append, slice0_negative_length by lia.
  simpl String.length. lia.
Qed.

Lemma truncateText_small_limit_witness :
  (2 < 3)%Z /\ (2 < Z.of_nat (String.length "abcdefgh"))%Z
  /\ (2 < Z.of_nat (String.length (truncateText "abcdefgh" 2)))%Z.
Proof.
  assert (H1 : (2 < 3)%Z) by lia.
  assert (H2 : (2 < Z.of_nat (String.length "abcdefgh"))%Z) by (simpl; lia).
  split; [exact H1|]. split; [exact H2|].
  apply (truncateText_small_limit "abcdefgh" 2 H1 H2).
Defined.

End TruncateFacts.

(* ================================================================== *)
(** ** Sentences *)

Section SentenceFacts.
Import JsString Regex Narrative NarrativeSpec.

Lemma allChars_app (p : ascii -> bool) (a b : string) :
  allChars p (a ++ b) = allChars p a && allChars p b.
Proof.
  induction a as [|c a IH]; simpl; [reflexivity|].
  destruct (p c); [exact IH | reflexivity].
Qed.

Lemma append_nonempty_l (a b : string) : a <> "" -> a ++ b <> "".
Proof. destruct a; [congruence | discriminate]. Qed.

Lemma append_nonempty_r (a b : string) : b <> "" -> a ++ b <> "".
Proof. destruct a; simpl; [auto | discriminate]. Qed.

Lemma isSentence_nonempty (s : string) : isSentence s -> s <> "".
Proof.
  intros (body & closing & -> & Hb & _). now apply append_nonempty_l.
Qed.

(** Every string the scan emits has the shape of a match, provided the
    one being read has the shape of a match in progress. *)
Lemma scanSentences_shape (s : string) :
  forall (cur : string) (closing : bool),
    (if closing then isSentence cur
     else allChars notTerminator cur = true) ->
    forall x, In x (scanSentences s cur closing) -> isSentence x.
Proof.
  induction s as [|c s IH]; intros cur closing Hcur x Hx; simpl in Hx.
  - destruct closing; [|contradiction].
    destruct Hx as [<- | []]. exact Hcur.
  - destruct (isTerminator c) eqn:T.
    + destruct cur as [|d cur].
      * apply (IH "" false); [reflexivity | exact Hx].
      * apply (IH (String d cur ++ String c "") true); [|exact Hx].
        destruct closing.
        -- destruct Hcur as (body & cl & E & Hb & Hnb & Hc & Hac).
           exists body, (cl ++ String c ""). rewrite E, append_assoc.
           split; [reflexivity|]. split; [exact Hb|]. split; [exact Hnb|].
           split; [now apply append_nonempty_l|].
           rewrite allChars_app, Hac. simpl. now rewrite T.
        -- exists (String d cur), (String c "").
           split; [reflexivity|]. split; [discriminate|].
           split; [exact Hcur|]. split; [discriminate|].
           simpl. now rewrite T.
    + assert (Hc : allChars notTerminator (String c "") = true).
      { simpl. unfold notTerminator. now rewrite T. }
      destruct closing.
      * destruct Hx as [<- | Hx]; [exact Hcur|].
        apply (IH (String c "") false); [exact Hc | exact Hx].
      * apply (IH (cur ++ String c "") false); [|exact Hx].
        now rewrite allChars_app, Hcur, Hc.
Qed.

(** With a match in progress, nothing of it or of the rest is lost but a
    last run without terminator. *)
Lemma scanSentences_covers (s : string) :
  forall cur closing,
    cur <> "" ->
    (closing = false -> allChars notTerminator cur = true) ->
    exists tail,
      allChars notTerminator tail = true
      /\ cur ++ s = concatStrings (scanSentences s cur closing) ++ tail.
Proof.
  induction s as [|c s IH]; intros cur closing Hne Hopen; simpl.
  - destruct closing.
    + exists "". split; [reflexivity|]. simpl. now rewrite !append_assoc.
    + exists cur. split; [now apply Hopen|]. simpl.
      clear. induction cur as [|d cur IH]; simpl; [reflexivity|].
      now rewrite IH.
  - destruct (isTerminator c) eqn:T.
    + destruct cur as [|d cur]; [congruence|].
      destruct (IH (String d cur ++ String c "") true) as (tail & Ht & E);
        [discriminate | discriminate |].
      exists tail. split; [exact Ht|].
      rewrite <- E, append_assoc. reflexivity.
    + assert (Hc : allChars notTerminator (String c "") = true).
      { simpl. unfold notTerminator. now rewrite T. }
      destruct closing.
      * destruct (IH (String c "") false) as (tail & Ht & E);
          [discriminate | intros _; exact Hc |].
        exists tail. split; [exact Ht|].
        simpl concatStrings. rewrite append_assoc, <- E. reflexivity.
      * destruct (IH (cur ++ String c "") false) as (tail & Ht & E).
        -- now apply append_nonempty_r.
        -- intros _. rewrite allChars_app, Hc, Hopen; reflexivity.
        -- exists tail. split; [exact Ht|].
           rewrite <- E, append_assoc. reflexivity.
Qed.

Lemma matchSentences_shape (text x : string) :
  In x (matchSentences text) -> isSentence x.
Proof.
  intros Hx. apply (scanSentences_shape text "" false); [reflexivity|].
  exact Hx.
Qed.

(** X3.  The sentences [match(/[^.!?]+[.!?]+/g)] finds each consist of
    one or more characters other than [.!?] followed by one or more of
    [.!?]; and they cover the text: the text is some leading terminators,
    then the sentences one after the other, then a last stretch without
    terminator.  Only those two ends are left out of the summary and the
    key points. *)
Theorem matchSentences_cover (text : string) :
  (forall x, In x (matchSentences text) -> isSentence x)
  /\ exists lead tail,
      text = lead ++ concatStrings (matchSentences text) ++ tail
      /\ allChars isTerminator lead = true
      /\ allChars notTerminator tail = true.
Proof.
  split.
  - intros x. apply matchSentences_shape.
  - unfold matchSentences. induction text as [|c s IH].
    + exists "", "". simpl. auto.
    + simpl. destruct (isTerminator c) eqn:T.
      * destruct IH as (lead & tail & E & Hl & Ht).
        exists (String c lead), tail. simpl. rewrite T, <- E. auto.
      * destruct (scanSentences_covers s (String c "") false)
          as (tail & Ht & E).
        -- discriminate.
        -- intros _. simpl. unfold notTerminator. now rewrite T.
        -- exists "", tail. simpl. simpl in E. rewrite <- E. auto.
Qed.

Lemma terminator_not_space (c : ascii) :
  isTerminator c = true -> isWhiteSpace c = false.
Proof.
  destruct c as [[] [] [] [] [] [] [] []]; vm_compute; intros H;
    try discriminate; reflexivity.
Qed.

Lemma trimEnd_empty (s : string) :
  trimEnd s = "" -> allChars isWhiteSpace s = true.
Proof.
  induction s as [|c s IH]; simpl; [reflexivity|].
  destruct (trimEnd s) eqn:E; [|discriminate].
  destruct (isWhiteSpace c); [intros _; now apply IH | discriminate].
Qed.

Lemma trimStart_keeps (s : string) :
  allChars isWhiteSpace s = false ->
  allChars isWhiteSpace (trimStart s) = false.
Proof.
  induction s as [|c s IH]; simpl; [discriminate|].
  destruct (isWhiteSpace c) eqn:W; [exact IH|].
  intros _. simpl. now rewrite W.
Qed.

(** Trimming leaves something of any string that is not all white space. *)
Lemma trim_nonempty (s : string) :
  allChars isWhiteSpace s = false -> trim s <> "".
Proof.
  intros H E. apply trimStart_keeps in H. unfold trim in E.
  apply trimEnd_empty in E. congruence.
Qed.

Lemma sentence_trim_nonempty (s : string) : isSentence s -> trim s <> "".
Proof.
  intros (body & closing & -> & _ & _ & Hc & Hac).
  apply trim_nonempty. rewrite allChars_app.
  destruct closing as [|c cl]; [congruence|].
  simpl in Hac. destruct (isTerminator c) eqn:T; [|discriminate].
  simpl. rewrite (terminator_not_space c T). apply andb_false_r.
Qed.

End SentenceFacts.

(* ================================================================== *)
(** ** The extractive summary and the key points *)

Section SummaryFacts.
Import JsString Regex Ai Utils Narrative NarrativeSpec.

Lemma insertScored_perm (x : Scored) (l : list Scored) :
  Permutation (insertScored x l) (x :: l).
Proof.
  induction l as [|y l IH]; simpl; [reflexivity|].
  destruct (score y <? score x)%nat; [reflexivity|].
  rewrite IH. apply perm_swap.
Qed.

Lemma insertScored_sorted (x : Scored) (l : list Scored) :
  StronglySorted scoresFall l -> StronglySorted scoresFall (insertScored x l).
Proof.
  induction l as [|y l IH]; intros H; simpl.
  - repeat constructor.
  - inversion H as [|? ? Hl Hy]; subst.
    destruct (score y <? score x)%nat eqn:E.
    + apply Nat.ltb_lt in E. constructor; [exact H|].
      constructor; [unfold scoresFall; lia|].
      apply Forall_forall. intros z Hz.
      rewrite Forall_forall in Hy. specialize (Hy z Hz).
      unfold scoresFall in *. lia.
    + apply Nat.ltb_ge in E. constructor; [now apply IH|].
      apply Forall_forall. intros z Hz.
      apply (Permutation_in _ (insertScored_perm x l)) in Hz.
      destruct Hz as [<- | Hz]; [exact E|].
      rewrite Forall_forall in Hy. now apply Hy.
Qed.

Lemma sortScored_spec (l : list Scored) :
  Permutation (sortScored l) l /\ StronglySorted scoresFall (sortScored l).
Proof.
  unfold sortScored.
  assert (G : forall acc,
             StronglySorted scoresFall acc ->
             Permutation (fold_left (fun acc x => insertScored x acc) l acc)
                         (acc ++ l)
             /\ StronglySorted scoresFall
                  (fold_left (fun acc x => insertScored x acc) l acc)).
  { induction l as [|x l IH]; intros acc Hacc; simpl.
    - rewrite app_nil_r. split; [reflexivity | exact Hacc].
    - destruct (IH (insertScored x acc)) as [P S];
        [now apply insertScored_sorted|].
      split; [|exact S].
      rewrite P, (insertScored_perm x acc).
      apply Permutation_middle. }
  apply (G []). constructor.
Qed.

Lemma sorted_split (l1 l2 : list Scored) :
  StronglySorted scoresFall (l1 ++ l2) ->
  forall a b, In a l1 -> In b l2 -> (score b <= score a)%nat.
Proof.
  induction l1 as [|x l1 IH]; intros H a b Ha Hb; [contradiction|].
  simpl in H. inversion H as [|? ? Hl Hx]; subst.
  destruct Ha as [<- | Ha].
  - rewrite Forall_forall in Hx. apply Hx. apply in_or_app. now right.
  - now apply IH.
Qed.

Lemma topSentences_length (sentences : list string) :
  length (topSentences sentences) = Nat.min 3 (length sentences).
Proof.
  destruct (sortScored_spec (map scoreSentence sentences)) as [P _].
  unfold topSentences.
  rewrite length_map, length_firstn, (Permutation_length P), length_map.
  reflexivity.
Qed.

(** X4.  The sentences of the summary are the highest-scoring ones: the
    sort keeps every scored sentence and orders them by falling score, so
    each of the (at most three) sentences taken scores at least as high
    as each sentence left out, and three are taken when there are that
    many. *)
Theorem topSentences_highest (sentences : list string) :
  let sorted := sortScored (map scoreSentence sentences) in
  Permutation sorted (map scoreSentence sentences)
  /\ StronglySorted scoresFall sorted
  /\ topSentences sentences = map sentence (firstn 3 sorted)
  /\ length (topSentences sentences) = Nat.min 3 (length sentences)
  /\ forall a b, In a (firstn 3 sorted) -> In b (skipn 3 sorted) ->
                 (score b <= score a)%nat.
Proof.
  intros sorted.
  destruct (sortScored_spec (map scoreSentence sentences)) as [P S].
  fold sorted in P, S.
  split; [exact P|]. split; [exact S|]. split; [reflexivity|]. split.
  - apply topSentences_length.
  - apply sorted_split. now rewrite firstn_skipn.
Qed.

Lemma join_head (sep x : string) (rest : list string) :
  exists more, join sep (x :: rest) = x ++ more.
Proof.
  destruct rest as [|y rest]; simpl.
  - exists "". clear. induction x as [|c x IH]; simpl; [reflexivity|].
    now rewrite <- IH.
  - now exists (sep ++ join sep (y :: rest)).
Qed.

Lemma truncateText_nonempty (text : string) (maxLength : Z) :
  text <> "" -> truncateText text maxLength <> "".
Proof.
  intros H. unfold truncateText.
  destruct (Z.of_nat (String.length text) <=? maxLength)%Z; [exact H|].
  apply append_nonempty_r. discriminate.
Qed.

Lemma topSentences_nonempty (sentences : list string) :
  sentences <> [] ->
  (forall x, In x sentences -> isSentence x) ->
  exists t rest, topSentences sentences = t :: rest /\ t <> "".
Proof.
  intros Hne Hall.
  pose proof (topSentences_length sentences) as Hlen.
  destruct (sortScored_spec (map scoreSentence sentences)) as [P _].
  destruct (topSentences sentences) as [|t rest] eqn:E.
  - destruct sentences; [congruence | simpl in Hlen; lia].
  - exists t, rest. split; [reflexivity|].
    assert (Hin : In t (topSentences sentences)) by (rewrite E; now left).
    unfold topSentences in Hin. apply in_map_iff in Hin.
    destruct Hin as (sc & <- & Hsc). apply firstn_incl in Hsc.
    apply (Permutation_in _ P) in Hsc. apply in_map_iff in Hsc.
    destruct Hsc as (s & <- & Hs). simpl.
    apply sentence_trim_nonempty. now apply Hall.
Qed.

(** X5.  When the items' text holds a sentence, the summary is not empty
    and has at most 500 characters.  When it holds none, the summary is
    the first item's title, whole, or "No summary available" when that
    title is null or empty; so the summary is never empty. *)
Theorem generateExtractiveSummary_bound (items : list RawItemWithSource) :
  (matchSentences (allText items) <> [] ->
   (String.length (generateExtractiveSummary items) <= 500)%nat
   /\ generateExtractiveSummary items
      = truncateText (join " " (topSentences (matchSentences (allText items))))
                     500)
  /\ (matchSentences (allText items) = [] ->
      generateExtractiveSummary items
      = orElse (firstTitle items) "No summary available")
  /\ generateExtractiveSummary items <> "".
Proof.
  unfold generateExtractiveSummary.
  destruct (matchSentences (allText items)) as [|s ss] eqn:E.
  - simpl. split; [congruence|]. split; [reflexivity|].
    destruct (firstTitle items) as [[|c t]|]; simpl; discriminate.
  - cbn [length Nat.eqb]. split; [|split; [discriminate|]].
    + intros _. split; [|reflexivity].
      pose proof (truncateText_length_le (join " " (topSentences (s :: ss))) 500 ltac:(lia)) as H; lia.
    + apply truncateText_nonempty.
      destruct (topSentences_nonempty (s :: ss)) as (t & rest & Et & Hne).
      * discriminate.
      * intros x Hx. rewrite <- E in Hx.
        now apply (matchSentences_shape (allText items)).
      * rewrite Et. destruct (join_head " " t rest) as [more ->].
        now apply append_nonempty_l.
Qed.

Lemma generateExtractiveSummary_bound_witness :
  (String.length (generateExtractiveSummary
                    [Examples.blogItem 1 LOW "Forum"]) <= 500)%nat.
Proof.
  destruct (generateExtractiveSummary_bound [Examples.blogItem 1 LOW "Forum"])
    as (H & _).
  apply H. vm_compute. discriminate.
Defined.

Lemma indicatorLoop_points (inds : list regex) (sentence : string)
      (points : list string) :
  (length points <= 5)%nat ->
  (forall p, In p points -> (String.length p <= 150)%nat /\ p <> "") ->
  trim sentence <> "" ->
  (length (indicatorLoop inds sentence points) <= 5)%nat
  /\ (forall p, In p (indicatorLoop inds sentence points) ->
                (String.length p <= 150)%nat /\ p <> "").
Proof.
  intros Hlen Hall Hne.
  induction inds as [|pattern rest IH]; simpl; [auto|].
  destruct (test pattern sentence && (length points <? 5)%nat) eqn:E;
    [|exact IH].
  apply andb_true_iff in E. destruct E as [_ E]. apply Nat.ltb_lt in E.
  split; [rewrite length_app; simpl; lia|].
  intros p Hp. apply in_app_or in Hp. destruct Hp as [Hp | [<- | []]];
    [now apply Hall|].
  split; [|now apply truncateText_nonempty].
  pose proof (truncateText_length_le (trim sentence) 150 ltac:(lia)) as H; lia.
Qed.

(** X6.  There are never more than 5 key points, none is empty and none
    has more than 150 characters; and there is no key point exactly when
    the items' text holds no sentence. *)
Theorem generateKeyPoints_bounds (items : list RawItemWithSource) :
  (length (generateKeyPoints items) <= 5)%nat
  /\ (forall p, In p (generateKeyPoints items) ->
                (String.length p <= 150)%nat /\ p <> "")
  /\ (generateKeyPoints items = [] <-> matchSentences (allText items) = []).
Proof.
  unfold generateKeyPoints.
  pose proof (matchSentences_shape (allText items)) as Hshape.
  set (sentences := matchSentences (allText items)) in *.
  assert (G : forall l points,
             (forall x, In x l -> isSentence x) ->
             (length points <= 5)%nat ->
             (forall p, In p points -> (String.length p <= 150)%nat /\ p <> "") ->
             let r := fold_left (fun points sentence =>
                                   indicatorLoop indicators sentence points)
                                l points in
             (length r <= 5)%nat
             /\ (forall p, In p r -> (String.length p <= 150)%nat /\ p <> "")).
  { induction l as [|x l IH]; intros points Hl Hlen Hall; simpl; [auto|].
    destruct (indicatorLoop_points indicators x points Hlen Hall) as [H1 H2].
    - apply sentence_trim_nonempty. apply Hl. now left.
    - apply IH; auto. intros y Hy. apply Hl. now right. }
  destruct (G (firstn 20 sentences) []) as [Hlen Hall].
  { intros x Hx. apply Hshape. now apply firstn_incl in Hx. }
  { simpl. lia. }
  { intros p []. }
  destruct (fold_left _ (firstn 20 sentences) []) as [|p points] eqn:E.
  - destruct sentences as [|s ss] eqn:Es.
    + split; [simpl; lia|]. split; [intros p []|]. tauto.
    + assert (Hs : isSentence s) by (apply Hshape; now left).
      pose proof (isSentence_nonempty s Hs) as Hne.
      destruct s as [|c s]; [congruence|].
      split; [simpl; lia|]. split.
      * intros p [<- | []]. split.
        -- pose proof (truncateText_length_le (trim (String c s)) 150 ltac:(lia)) as H; lia.
        -- apply truncateText_nonempty. now apply sentence_trim_nonempty.
      * split; discriminate.
  - split; [exact Hlen|]. split; [exact Hall|].
    split; [discriminate|].
    intros Es. rewrite Es in E. simpl in E. discriminate.
Qed.

End SummaryFacts.

(* ================================================================== *)
(** ** Actions, the narrative and the whole analysis *)

Section AnalysisFacts.
Import JsString Regex Ai Utils Narrative NarrativeSpec.

Lemma In_string_existsb (x : string) (l : list string) :
  In x l <-> existsb (String.eqb x) l = true.
Proof.
  rewrite existsb_exists. split.
  - intros H. exists x. split; [exact H | apply String.eqb_refl].
  - intros (y & Hy & E). apply String.eqb_eq in E. now subst.
Qed.

Lemma benchmark_action_iff (priority : Priority) (caps : list AICapability) :
  In BENCHMARK_ACTION (generateRecommendedActions priority caps)
  <-> In AI_VOICE_AGENT caps.
Proof.
  unfold generateRecommendedActions.
  rewrite <- (capIncludes_iff caps AI_VOICE_AGENT).
  destruct priority; destruct (capIncludes caps AI_VOICE_AGENT);
    cbn [app length Nat.eqb];
    rewrite !In_string_existsb; vm_compute; intuition congruence.
Qed.

(** X7.  The recommended actions are never empty and never more than
    four.  The voice benchmark is among them exactly when the voice-agent
    capability was detected, and the "continue monitoring" fallback
    exactly when the priority is P2 and it was not; a P0 story gets its
    three actions first. *)
Theorem generateRecommendedActions_spec (priority : Priority)
        (caps : list AICapability) :
  generateRecommendedActions priority caps <> []
  /\ (length (generateRecommendedActions priority caps) <= 4)%nat
  /\ (In BENCHMARK_ACTION (generateRecommendedActions priority caps)
      <-> In AI_VOICE_AGENT caps)
  /\ (In MONITOR_ACTION (generateRecommendedActions priority caps)
      <-> priority = P2 /\ ~ In AI_VOICE_AGENT caps)
  /\ (priority = P0 ->
      firstn 3 (generateRecommendedActions priority caps)
      = [ "Schedule executive briefing to discuss implications"
        ; "Assess competitive response options"
        ; "Monitor customer sentiment and reactions" ]).
Proof.
  split; [|split; [|split; [apply benchmark_action_iff|]]];
    unfold generateRecommendedActions;
    try rewrite <- (capIncludes_iff caps AI_VOICE_AGENT);
    destruct priority; destruct (capIncludes caps AI_VOICE_AGENT);
    cbn [app length Nat.eqb firstn];
    try discriminate; try lia;
    (split; [|reflexivity || discriminate]);
    rewrite !In_string_existsb; vm_compute; intuition congruence.
Qed.

Lemma includes_append (pre w post : string) : includes (pre ++ w ++ post) w = true.
Proof. apply includes_iff. now exists pre, post. Qed.

Lemma join_parts_from (x : string) (rest l : list string) :
  exists more, join " " ((x :: rest) ++ l)%list = x ++ more.
Proof. apply (join_head " " x (rest ++ l)%list). Qed.

(** X8.  The "why it matters" text is the fallback sentence exactly when
    nothing applies: the priority is P2, no competitor was resolved and
    no capability was detected.  It is never empty, and a P0 or P1 story
    has its priority sentence first. *)
Theorem generateWhyItMatters_fallback (competitor : option CompetitorConfig)
        (caps : list AICapability) (priority : Priority) :
  (generateWhyItMatters competitor caps priority = WHY_FALLBACK
   <-> priority = P2 /\ competitor = None /\ caps = [])
  /\ generateWhyItMatters competitor caps priority <> ""
  /\ (priority = P0 ->
      exists more, generateWhyItMatters competitor caps priority
                   = P0_SENTENCE ++ more)
  /\ (priority = P1 ->
      exists more, generateWhyItMatters competitor caps priority
                   = P1_SENTENCE ++ more).
Proof.
  assert (Hne : generateWhyItMatters competitor caps priority <> "").
  { unfold generateWhyItMatters, orElse.
    destruct (join " " (whyParts competitor caps priority)); discriminate. }
  assert (Hstart : forall x rest,
             whyParts competitor caps priority = x :: rest ->
             x <> "" ->
             exists more, generateWhyItMatters competitor caps priority
                          = x ++ more).
  { intros x rest E Hx. unfold generateWhyItMatters. rewrite E.
    destruct (join_head " " x rest) as [more ->]. exists more.
    destruct x as [|c x]; [congruence | reflexivity]. }
  assert (Hparts : forall (l : list string) (b : bool) (y : string),
             (if b then (l ++ [y])%list else l) = (l ++ (if b then [y] else []))%list).
  { intros l [] y; [reflexivity | now rewrite app_nil_r]. }
  split; [|split; [exact Hne|split]].
  - split.
    + intros E. destruct priority.
      * destruct (Hstart P0_SENTENCE
                    (tl (whyParts competitor caps P0))) as [more Hm].
        { unfold whyParts. cbv zeta. rewrite !Hparts.
          destruct competitor; reflexivity. }
        { discriminate. }
        rewrite Hm in E. discriminate E.
      * destruct (Hstart P1_SENTENCE
                    (tl (whyParts competitor caps P1))) as [more Hm].
        { unfold whyParts. cbv zeta. rewrite !Hparts.
          destruct competitor; reflexivity. }
        { discriminate. }
        rewrite Hm in E. discriminate E.
      * split; [reflexivity|]. destruct competitor as [c|].
        -- exfalso.
           assert (Hin : includes (generateWhyItMatters (Some c) caps P2)
                                  " is active in " = true).
           { destruct (Hstart (cname c ++ " is active in "
                               ++ join ", " (verticals c) ++ ".")
                         (tl (whyParts (Some c) caps P2))) as [more Hm].
             - unfold whyParts. cbv zeta. rewrite !Hparts. reflexivity.
             - apply append_nonempty_r. discriminate.
             - rewrite Hm, append_assoc, append_assoc.
               apply includes_append. }
           rewrite E in Hin. vm_compute in Hin. discriminate Hin.
        -- split; [reflexivity|]. destruct caps as [|k caps]; [reflexivity|].
           exfalso. unfold generateWhyItMatters, whyParts in E.
           cbv zeta in E. cbn [length Nat.ltb Nat.leb] in E.
           destruct (capIncludes (k :: caps) AI_VOICE_AGENT).
           ++ cbn [app] in E.
              destruct (join_head " " VOICE_SENTENCE
                          [("AI capabilities involved: "
                            ++ join ", " (map readable (k :: caps)) ++ ".")])
                as [more Hm].
              rewrite Hm in E. discriminate E.
           ++ cbn [app join] in E. discriminate E.
    + intros (-> & -> & ->). reflexivity.
  - intros ->. apply (Hstart P0_SENTENCE (tl (whyParts competitor caps P0))).
    + unfold whyParts. cbv zeta. rewrite !Hparts.
      destruct competitor; reflexivity.
    + discriminate.
  - intros ->. apply (Hstart P1_SENTENCE (tl (whyParts competitor caps P1))).
    + unfold whyParts. cbv zeta. rewrite !Hparts.
      destruct competitor; reflexivity.
    + discriminate.
Qed.

Ltac score_cases items :=
  unfold calculateConfidence, rawConfidence; cbv zeta;
  destruct (2 <=? countTier HIGH items)%nat;
  destruct (1 <=? countTier HIGH items)%nat;
  destruct (2 <=? countTier MEDIUM items)%nat;
  destruct (3 <=? length items)%nat.

Lemma verified_confidence (items : list RawItemWithSource) :
  (4 <= calculateConfidence items VERIFIED <= 5)%Z.
Proof. score_cases items; vm_compute; split; discriminate. Qed.

(** A status of CLAIM_UNVERIFIED means no HIGH-trust item, which caps the
    score. *)
Lemma unverified_confidence (items : list RawItemWithSource) (hasAIClaims : bool) :
  determineVerificationStatus items hasAIClaims = CLAIM_UNVERIFIED ->
  hasAIClaims = true
  /\ countTier HIGH items = 0%nat
  /\ (3 <= calculateConfidence items CLAIM_UNVERIFIED <= 4)%Z.
Proof.
  unfold determineVerificationStatus.
  destruct hasAIClaims; simpl negb; cbv iota; [|discriminate].
  destruct (existsb (fun i => TrustTier_eqb (trustTier (source i)) HIGH) items)
    eqn:E; [discriminate|].
  intros _. split; [reflexivity|].
  assert (H0 : countTier HIGH items = 0%nat).
  { unfold countTier. rewrite filter_none; [reflexivity|].
    intros x Hx. destruct (TrustTier_eqb (trustTier (source x)) HIGH) eqn:T;
      [|reflexivity].
    assert (existsb (fun i => TrustTier_eqb (trustTier (source i)) HIGH) items
            = true) by (apply existsb_exists; now exists x).
    congruence. }
  split; [exact H0|].
  unfold calculateConfidence, rawConfidence. cbv zeta. rewrite H0.
  change (2 <=? 0)%nat with false. change (1 <=? 0)%nat with false.
  cbv iota.
  destruct (2 <=? countTier MEDIUM items)%nat;
    destruct (3 <=? length items)%nat; vm_compute; split; discriminate.
Qed.

(** X9.  In an analysis the verification status and the confidence score
    go together.  CLAIM_UNVERIFIED occurs only with a detected capability
    and no HIGH-trust item, and then the score is 3 or 4, never 5;
    VERIFIED gives 4 or 5; so a score of 3 means an unverified AI claim,
    and an analysis without capability is VERIFIED. *)
Theorem analyzeCluster_status_confidence
        (competitors : list CompetitorConfig) (nowISO : string)
        (items : list RawItemWithSource) :
  let r := analyzeCluster competitors nowISO items in
  (verificationStatus r = CLAIM_UNVERIFIED ->
   aiCapabilities r <> []
   /\ countTier HIGH items = 0%nat
   /\ (3 <= confidenceScore r <= 4)%Z)
  /\ (verificationStatus r = VERIFIED -> (4 <= confidenceScore r <= 5)%Z)
  /\ (confidenceScore r = 3%Z -> verificationStatus r = CLAIM_UNVERIFIED)
  /\ (aiCapabilities r = [] -> verificationStatus r = VERIFIED).
Proof.
  intros r. unfold r, analyzeCluster.
  cbn [verificationStatus aiCapabilities confidenceScore].
  set (caps := detectAICapabilities (combinedText items)).
  set (status := determineVerificationStatus items (0 <? length caps)%nat).
  assert (Hun : status = CLAIM_UNVERIFIED ->
                caps <> [] /\ countTier HIGH items = 0%nat
                /\ (3 <= calculateConfidence items status <= 4)%Z).
  { intros E. destruct (unverified_confidence items _ E) as (Hc & H0 & Hs).
    rewrite E. split; [|auto].
    intros Hnil. rewrite Hnil in Hc. discriminate Hc. }
  assert (Hve : status = VERIFIED ->
                (4 <= calculateConfidence items status <= 5)%Z).
  { intros ->. apply verified_confidence. }
  split; [exact Hun|]. split; [exact Hve|]. split.
  - intros E3. destruct status; [|reflexivity].
    specialize (Hve eq_refl). lia.
  - intros Hnil. unfold status. rewrite Hnil. reflexivity.
Qed.

Lemma analyzeCluster_status_confidence_witness :
  (3 <= confidenceScore
          (analyzeCluster Examples.exampleCompetitors "2026-01-01T00:00:00.000Z"
             [Examples.blogItem 1 LOW "Forum"]) <= 4)%Z.
Proof.
  destruct (analyzeCluster_status_confidence Examples.exampleCompetitors
              "2026-01-01T00:00:00.000Z" [Examples.blogItem 1 LOW "Forum"])
    as (H & _).
  apply H. vm_compute. reflexivity.
Defined.

(** X10.  In an analysis a detected voice agent is never left at P2: the
    priority is P0 or P1 and the voice benchmark is among the actions.
    A P2 analysis therefore has the single action "Continue monitoring for
    developments".  There is one citation per item, in order, titled with
    the item's title or else its source's name. *)
Theorem analyzeCluster_voice_priority
        (competitors : list CompetitorConfig) (nowISO : string)
        (items : list RawItemWithSource) :
  let r := analyzeCluster competitors nowISO items in
  (In AI_VOICE_AGENT (aiCapabilities r) ->
   priority r <> P2 /\ In BENCHMARK_ACTION (recommendedActions r))
  /\ (priority r = P2 ->
      ~ In AI_VOICE_AGENT (aiCapabilities r)
      /\ recommendedActions r = [MONITOR_ACTION])
  /\ map citedUrl (citations r) = map url items
  /\ map citedTitle (citations r)
     = map (fun i => orElse (title i) (name (source i))) items.
Proof.
  intros r. unfold r, analyzeCluster.
  cbn [priority aiCapabilities recommendedActions citations].
  set (text := combinedText items).
  set (caps := detectAICapabilities text).
  assert (Hv : In AI_VOICE_AGENT caps -> detectPriority text caps <> P2).
  { intros Hin. apply capIncludes_iff in Hin. unfold detectPriority.
    destruct (anyPatternMatches P0_PATTERNS text); [discriminate|].
    destruct (anyPatternMatches P1_PATTERNS text); [discriminate|].
    rewrite Hin. discriminate. }
  split; [|split; [|split]].
  - intros Hin. split; [now apply Hv|].
    now apply (benchmark_action_iff (detectPriority text caps) caps).
  - intros E. assert (Hn : ~ In AI_VOICE_AGENT caps).
    { intros Hin. now apply (Hv Hin). }
    split; [exact Hn|]. rewrite E.
    unfold generateRecommendedActions.
    destruct (capIncludes caps AI_VOICE_AGENT) eqn:C; [|reflexivity].
    apply capIncludes_iff in C. contradiction.
  - rewrite map_map. reflexivity.
  - rewrite map_map. reflexivity.
Qed.

Lemma analyzeCluster_voice_priority_witness :
  In BENCHMARK_ACTION
     (recommendedActions
        (analyzeCluster Examples.exampleCompetitors "2026-01-01T00:00:00.000Z"
           [ {| id := 1; url := "https://example.com/a";
                title := Some "Quiet week";
                rawText := Some "Their voice agent answers the phone.";
                source := {| trustTier := LOW; name := "Forum" |} |} ])).
Proof.
  destruct (analyzeCluster_voice_priority Examples.exampleCompetitors
              "2026-01-01T00:00:00.000Z"
              [ {| id := 1; url := "https://example.com/a";
                   title := Some "Quiet week";
                   rawText := Some "Their voice agent answers the phone.";
                   source := {| trustTier := LOW; name := "Forum" |} |} ])
    as (H & _).
  apply H. vm_compute. now left.
Defined.

(** X11.  The label shown for a computed confidence score is "Medium",
    "High" or "Very High": "Low" and "Very Low" cannot occur, and a
    VERIFIED analysis is never "Medium". *)
Theorem getConfidenceLabel_of_score (items : list RawItemWithSource)
        (status : VerificationStatus) :
  let label := getConfidenceLabel (calculateConfidence items status) in
  (label = "Medium" \/ label = "High" \/ label = "Very High")
  /\ (label = "Medium" <-> calculateConfidence items status = 3%Z)
  /\ (status = VERIFIED -> label <> "Medium").
Proof.
  intros label. unfold label.
  assert (H : forall z, (3 <= z <= 5)%Z -> z = 3%Z \/ z = 4%Z \/ z = 5%Z)
    by (intros; lia).
  pose proof (calculateConfidence_range items status) as R.
  destruct (H _ R) as [E | [E | E]]; rewrite E; vm_compute.
  - split; [now left|]. split; [tauto|].
    intros ->. pose proof (verified_confidence items). lia.
  - split; [right; now left|]. split; [split; discriminate | discriminate].
  - split; [right; now right|]. split; [split; discriminate | discriminate].
Qed.

Lemma lowerChar_idempotent (c : ascii) : lowerChar (lowerChar c) = lowerChar c.
Proof. destruct c as [[] [] [] [] [] [] [] []]; reflexivity. Qed.

Lemma lowerChar_upperWordChar (c : ascii) :
  lowerChar (upperWordChar c) = lowerChar c.
Proof. destruct c as [[] [] [] [] [] [] [] []]; reflexivity. Qed.

Lemma toLowerCase_idempotent (s : string) :
  toLowerCase (toLowerCase s) = toLowerCase s.
Proof.
  induction s as [|c s IH]; simpl; [reflexivity|].
  now rewrite lowerChar_idempotent, IH.
Qed.

Lemma toLowerCase_capitalizeWords (s : string) :
  forall prev, toLowerCase (capitalizeWords prev s) = toLowerCase s.
Proof.
  induction s as [|c s IH]; intros prev; simpl; [reflexivity|].
  rewrite IH. f_equal.
  destruct (isWordChar c && negb (wordBefore prev)); [|reflexivity].
  apply lowerChar_upperWordChar.
Qed.

(** X12.  The label [formatAICapability] shows for a tag and the wording
    the "why it matters" text uses for it differ in letter case only, for
    any input string; for the ten capabilities the label lower-cased is
    the narrative's wording. *)
Theorem formatAICapability_matches_narrative (capability : string)
        (c : AICapability) :
  toLowerCase (formatAICapability capability)
  = toLowerCase (underscoresToSpaces (replaceFirst capability "AI_" ""))
  /\ toLowerCase (formatAICapability (capabilityName c)) = readable c.
Proof.
  assert (H : forall s, toLowerCase (formatAICapability s)
                        = toLowerCase (underscoresToSpaces
                                         (replaceFirst s "AI_" ""))).
  { intros s. unfold formatAICapability.
    now rewrite toLowerCase_capitalizeWords, toLowerCase_idempotent. }
  split; [apply H|]. rewrite H. reflexivity.
Qed.

End AnalysisFacts.

(* ================================================================== *)
(** ** More on the clustering job *)

Section GroupingFacts.
Import JsString Ingestion JobSpec.

Lemma groupPush_groupOf_same (groups : Groups) (key : string) (item : RawItem) :
  groupOf key (groupPush groups key item) = (groupOf key groups ++ [item])%list.
Proof.
  unfold groupOf. induction groups as [|[k its] rest IH]; simpl.
  - now rewrite String.eqb_refl.
  - destruct (String.eqb k key) eqn:E; simpl; rewrite E; [reflexivity|].
    exact IH.
Qed.

Lemma groupPush_groupOf_other (groups : Groups) (key k : string) (item : RawItem) :
  k <> key -> groupOf k (groupPush groups key item) = groupOf k groups.
Proof.
  intros Hne. unfold groupOf.
  induction groups as [|[k0 its] rest IH]; simpl.
  - apply String.eqb_neq in Hne. rewrite String.eqb_sym in Hne.
    now rewrite Hne.
  - destruct (String.eqb k0 key) eqn:E; simpl.
    + apply String.eqb_eq in E. subst k0.
      apply String.eqb_neq in Hne. rewrite String.eqb_sym in Hne.
      now rewrite Hne.
    + destruct (String.eqb k0 k); [reflexivity | exact IH].
Qed.

Lemma groupPush_keys (groups : Groups) (key : string) (item : RawItem) :
  map fst (groupPush groups key item)
  = if existsb (String.eqb key) (map fst groups)
    then map fst groups
    else (map fst groups ++ [key])%list.
Proof.
  induction groups as [|[k its] rest IH]; simpl; [reflexivity|].
  rewrite (String.eqb_sym key k).
  destruct (String.eqb k key); simpl; [reflexivity|].
  rewrite IH. now destruct (existsb (String.eqb key) (map fst rest)).
Qed.

Lemma groupPush_keys_NoDup (groups : Groups) (key : string) (item : RawItem) :
  NoDup (map fst groups) -> NoDup (map fst (groupPush groups key item)).
Proof.
  intros H. rewrite groupPush_keys.
  destruct (existsb (String.eqb key) (map fst groups)) eqn:E; [exact H|].
  apply NoDup_app; [exact H | repeat constructor; intros [] |].
  intros k Hk [<- | []].
  assert (existsb (String.eqb key) (map fst groups) = true).
  { apply existsb_exists. exists key. split; [exact Hk | apply String.eqb_refl]. }
  congruence.
Qed.

Lemma groupPush_nonempty (groups : Groups) (key : string) (item : RawItem) :
  (forall g, In g groups -> snd g <> []) ->
  forall g, In g (groupPush groups key item) -> snd g <> [].
Proof.
  induction groups as [|[k its] rest IH]; intros H g Hg; simpl in Hg.
  - destruct Hg as [<- | []]. discriminate.
  - destruct (String.eqb k key).
    + destruct Hg as [<- | Hg]; [simpl; now destruct its|].
      apply H. now right.
    + destruct Hg as [<- | Hg]; [apply (H (k, its)); now left|].
      apply IH; [|exact Hg]. intros g' Hg'. apply H. now right.
Qed.

Lemma groupOf_unique (groups : Groups) (k : string) (its : list RawItem) :
  NoDup (map fst groups) -> In (k, its) groups -> groupOf k groups = its.
Proof.
  unfold groupOf. induction groups as [|[k0 its0] rest IH]; intros Hnd Hin;
    [contradiction|].
  simpl in *. inversion Hnd as [|? ? Hn Hnd']; subst.
  destruct Hin as [[= -> ->] | Hin].
  - now rewrite String.eqb_refl.
  - destruct (String.eqb k0 k) eqn:E; [|now apply IH].
    apply String.eqb_eq in E. subst k0. exfalso. apply Hn.
    apply in_map_iff. now exists (k, its).
Qed.

Lemma groupOf_In (groups : Groups) (k : string) :
  groupOf k groups <> [] -> In (k, groupOf k groups) groups.
Proof.
  unfold groupOf.
  destruct (find (fun g => String.eqb (fst g) k) groups) as [[k0 its]|] eqn:F;
    [|congruence].
  intros _. apply find_some in F. destruct F as [Hin E]. simpl in *.
  apply String.eqb_eq in E. now subst.
Qed.

(** The grouping loop, from any map built so far: keys stay distinct, no
    group is empty, and each key's group grows by its items. *)
Lemma groupItems_loop (competitors : list Ai.CompetitorConfig) :
  forall l acc,
    NoDup (map fst acc) ->
    (forall g, In g acc -> snd g <> []) ->
    let out := fold_left (fun (groups : Groups) item =>
                            groupPush groups (competitorKey competitors item)
                                      item) l acc in
    NoDup (map fst out)
    /\ (forall g, In g out -> snd g <> [])
    /\ forall k, groupOf k out
                 = (groupOf k acc
                    ++ filter (fun i => String.eqb
                                          (competitorKey competitors i) k)
                              l)%list.
Proof.
  induction l as [|x l IH]; intros acc Hnd Hne; simpl.
  - split; [exact Hnd|]. split; [exact Hne|].
    intros k. now rewrite app_nil_r.
  - destruct (IH (groupPush acc (competitorKey competitors x) x))
      as (H1 & H2 & H3).
    + now apply groupPush_keys_NoDup.
    + now apply groupPush_nonempty.
    + split; [exact H1|]. split; [exact H2|].
      intros k. rewrite H3.
      destruct (String.eqb (competitorKey competitors x) k) eqn:E.
      * apply String.eqb_eq in E. subst k.
        rewrite groupPush_groupOf_same, <- app_assoc. reflexivity.
      * rewrite groupPush_groupOf_other; [reflexivity|].
        intros ->. now rewrite String.eqb_refl in E.
Qed.

(** Each item of the batch finds its group in the map. *)
Lemma groupItems_holds (competitors : list Ai.CompetitorConfig)
      (items : list RawItem) (b : RawItem) :
  In b items ->
  In (competitorKey competitors b,
      filter (fun i => String.eqb (competitorKey competitors i)
                                  (competitorKey competitors b)) items)
     (groupItems competitors items).
Proof.
  intros Hb.
  destruct (groupItems_loop competitors items [])
    as (_ & _ & Hof); [constructor | intros g [] |].
  pose proof (Hof (competitorKey competitors b)) as E. simpl in E.
  unfold groupItems. rewrite <- E. apply groupOf_In. rewrite E.
  intros Hnil.
  assert (Hin : In b (filter (fun i => String.eqb
                                         (competitorKey competitors i)
                                         (competitorKey competitors b)) items)).
  { apply filter_In. split; [exact Hb | apply String.eqb_refl]. }
  rewrite Hnil in Hin. contradiction.
Qed.

(** X13.  The clusterer's grouping is a partition of the batch by
    competitor key: no key has two groups, no group is empty (the guard
    that skips empty groups never fires), and the group of a key holds
    exactly the batch items with that key, in batch order. *)
Theorem groupItems_partition (competitors : list Ai.CompetitorConfig)
        (items : list RawItem) :
  let groups := groupItems competitors items in
  NoDup (map fst groups)
  /\ (forall k its, In (k, its) groups ->
        its <> []
        /\ its = filter (fun i => String.eqb (competitorKey competitors i) k) items)
  /\ (forall b, In b items ->
        In (competitorKey competitors b,
            filter (fun i => String.eqb (competitorKey competitors i)
                                        (competitorKey competitors b)) items)
           groups).
Proof.
  intros groups.
  destruct (groupItems_loop competitors items [])
    as (Hnd & Hne & Hof); [constructor | intros g [] |].
  fold (groupItems competitors items) in Hnd, Hne, Hof. fold groups in Hnd, Hne, Hof.
  split; [exact Hnd|]. split.
  - intros k its Hin. split; [apply (Hne (k, its) Hin)|].
    rewrite <- (groupOf_unique _ k its Hnd Hin). now rewrite Hof.
  - intros b Hb. now apply groupItems_holds.
Qed.

End GroupingFacts.

Section ClusterTraceFacts.
Import JsString Ingestion JobSpec.

Variable toISODate : Z -> string.

Lemma clusterIds_of_core (l : list StoryCluster) :
  map clusterId l = map (fun t => fst (fst t)) (map clusterCore l).
Proof. rewrite map_map. reflexivity. Qed.

Lemma clusterTrace_refl (db : Store) (created linked : nat) :
  clusterTrace db created linked [] db created linked.
Proof.
  unfold clusterTrace. split.
  { exists []. rewrite app_nil_r. simpl. split; [reflexivity|]. split; lia. }
  split; [apply incl_refl|]. split; [simpl; lia|]. intros g [].
Qed.

Lemma clusterTrace_trans (db0 db1 db2 : Store) (c0 c1 c2 k0 k1 k2 : nat)
      (g1 g2 : Groups) :
  clusterTrace db0 c0 k0 g1 db1 c1 k1 ->
  clusterTrace db1 c1 k1 g2 db2 c2 k2 ->
  clusterTrace db0 c0 k0 (g1 ++ g2)%list db2 c2 k2.
Proof.
  intros ((e1 & C1 & X1 & N1) & I1 & K1 & L1)
         ((e2 & C2 & X2 & N2) & I2 & K2 & L2).
  unfold clusterTrace. split.
  { exists (e1 ++ e2)%list. rewrite C2, C1, <- app_assoc.
    split; [reflexivity|]. rewrite !length_app. split; lia. }
  split; [eapply incl_tran; eassumption|].
  split.
  { rewrite map_app, concat_app, length_app. lia. }
  intros g Hg Hne. apply in_app_or in Hg. destruct Hg as [Hg | Hg].
  - destruct (L1 g Hg Hne) as (cid & Hcid & Hl). exists cid. split.
    + rewrite clusterIds_of_core, C2, map_app. apply in_or_app. left.
      now rewrite <- clusterIds_of_core.
    + intros x Hx. apply I2. now apply Hl.
  - now apply L2.
Qed.

Lemma linkItem_clusters (cid : nat) (db : Store) (n : nat) (item : RawItem) :
  storyClusters (fst (linkItem cid (db, n) item)) = storyClusters db.
Proof.
  unfold linkItem.
  now destruct (find (sameLink cid (id item)) (storyItemLinks db)).
Qed.

Lemma linkItem_links (cid : nat) (db : Store) (n : nat) (item : RawItem) :
  incl (storyItemLinks db) (storyItemLinks (fst (linkItem cid (db, n) item)))
  /\ In {| linkClusterId := cid; rawItemId := id item |}
        (storyItemLinks (fst (linkItem cid (db, n) item)))
  /\ (snd (linkItem cid (db, n) item) <= S n)%nat.
Proof.
  unfold linkItem.
  destruct (find (sameLink cid (id item)) (storyItemLinks db)) as [l|] eqn:F;
    simpl.
  - split; [apply incl_refl|]. split; [|lia].
    apply find_some in F. destruct F as [Hin E].
    apply sameLink_iff in E. now subst.
  - split; [apply incl_appl, incl_refl|]. split; [|lia].
    apply in_or_app. right. now left.
Qed.

Lemma linkItems_trace (cid : nat) (items : list RawItem) :
  forall db n,
    storyClusters (fst (fold_left (linkItem cid) items (db, n)))
    = storyClusters db
    /\ incl (storyItemLinks db)
            (storyItemLinks (fst (fold_left (linkItem cid) items (db, n))))
    /\ (forall x, In x items ->
          In {| linkClusterId := cid; rawItemId := id x |}
             (storyItemLinks (fst (fold_left (linkItem cid) items (db, n)))))
    /\ (snd (fold_left (linkItem cid) items (db, n)) <= n + length items)%nat.
Proof.
  induction items as [|i items IH]; intros db n.
  - simpl. split; [reflexivity|]. split; [apply incl_refl|].
    split; [intros x []|lia].
  - cbn [fold_left].
    pose proof (linkItem_clusters cid db n i) as C.
    pose proof (linkItem_links cid db n i) as (I & L & K).
    destruct (linkItem cid (db, n) i) as [db1 n1]. cbn [fst snd] in *.
    destruct (IH db1 n1) as (C' & I' & L' & K').
    split; [congruence|]. split; [eapply incl_tran; eassumption|].
    split.
    + intros x [<- | Hx]; [now apply I' | now apply L'].
    + simpl. lia.
Qed.

Lemma resolveCluster_core (now : Z) (competitorName : string)
      (items : list RawItem) (db : Store) :
  let r := resolveCluster toISODate now competitorName items db in
  (exists extra,
      map clusterCore (storyClusters (fst (fst r)))
      = (map clusterCore (storyClusters db) ++ extra)%list
      /\ length extra = (if snd r then 1 else 0)%nat)
  /\ storyItemLinks (fst (fst r)) = storyItemLinks db
  /\ In (snd (fst r)) (map clusterId (storyClusters (fst (fst r)))).
Proof.
  unfold resolveCluster.
  destruct (findRecentCluster db competitorName now) as [c|] eqn:F; simpl.
  - split.
    { exists []. rewrite app_nil_r. split; [|reflexivity].
      rewrite map_map. apply map_ext. intros c'.
      now destruct (Nat.eqb (clusterId c') (clusterId c)). }
    split; [reflexivity|].
    rewrite map_map. apply in_map_iff. exists c. split.
    + now destruct (Nat.eqb (clusterId c) (clusterId c)).
    + unfold findRecentCluster in F. now apply find_some in F.
  - split.
    { eexists. rewrite map_app. split; reflexivity. }
    split; [reflexivity|].
    rewrite map_app. apply in_or_app. right. now left.
Qed.

Lemma processGroup_trace (now : Z) (db : Store) (res : ClusterResult)
      (group : string * list RawItem) :
  clusterTrace db (clustersCreated res) (itemsLinked res) [group]
    (fst (processGroup toISODate now (db, res) group))
    (clustersCreated (snd (processGroup toISODate now (db, res) group)))
    (itemsLinked (snd (processGroup toISODate now (db, res) group))).
Proof.
  destruct group as [competitorName items]. unfold processGroup.
  destruct items as [|i items].
  - cbn [fst snd]. unfold clusterTrace. split.
    { exists []. rewrite app_nil_r. simpl. split; [reflexivity|]. split; lia. }
    split; [apply incl_refl|]. split; [simpl; lia|].
    intros g [<- | []] H. now contradiction H.
  - pose proof (resolveCluster_core now competitorName (i :: items) db)
      as ((extra & C & N) & L & Hcid).
    destruct (resolveCluster toISODate now competitorName (i :: items) db)
      as [[db1 cid] isNew]. cbn [fst snd] in C, N, L, Hcid.
    destruct (linkItems_trace cid (i :: items) db1 (itemsLinked res))
      as (C' & I' & L' & K').
    destruct (fold_left (linkItem cid) (i :: items) (db1, itemsLinked res))
      as [db2 linked2]. cbn [fst snd] in *.
    cbn [clustersCreated itemsLinked].
    unfold clusterTrace. split.
    { exists extra. rewrite C', C. split; [reflexivity|].
      destruct isNew; simpl in *; split; lia. }
    split; [now rewrite <- L|]. split.
    { cbn [map snd concat]. rewrite app_nil_r. exact K'. }
    intros g [<- | []] _. exists cid. split; [now rewrite C'|].
    exact L'.
Qed.

Lemma processGroups_trace (now : Z) (groups : Groups) :
  forall db res,
    clusterTrace db (clustersCreated res) (itemsLinked res) groups
      (fst (fold_left (processGroup toISODate now) groups (db, res)))
      (clustersCreated
         (snd (fold_left (processGroup toISODate now) groups (db, res))))
      (itemsLinked
         (snd (fold_left (processGroup toISODate now) groups (db, res)))).
Proof.
  induction groups as [|g groups IH]; intros db res.
  - apply clusterTrace_refl.
  - cbn [fold_left].
    pose proof (processGroup_trace now db res g) as H1.
    destruct (processGroup toISODate now (db, res) g) as [db1 res1].
    cbn [fst snd] in H1.
    change (g :: groups) with ([g] ++ groups)%list.
    eapply clusterTrace_trans; [exact H1 | apply IH].
Qed.

Lemma groupPush_sizes (groups : Groups) (key : string) (item : RawItem) :
  (length (groupPush groups key item) <= S (length groups))%nat
  /\ length (concat (map snd (groupPush groups key item)))
     = S (length (concat (map snd groups))).
Proof.
  induction groups as [|[k its] rest [IH1 IH2]]; simpl; [split; lia|].
  destruct (String.eqb k key); simpl.
  - split; [lia|]. rewrite !length_app. simpl. lia.
  - split; [lia|]. rewrite !length_app, IH2. lia.
Qed.

Lemma groupItems_sizes (competitors : list Ai.CompetitorConfig)
      (items : list RawItem) :
  (length (groupItems competitors items) <= length items)%nat
  /\ length (concat (map snd (groupItems competitors items))) = length items.
Proof.
  unfold groupItems.
  assert (G : forall acc,
             let r := fold_left
                        (fun groups item =>
                           groupPush groups (competitorKey competitors item) item)
                        items acc in
             (length r <= length acc + length items)%nat
             /\ length (concat (map snd r))
                = (length (concat (map snd acc)) + length items)%nat).
  { induction items as [|x items IH]; intros acc; simpl; [split; lia|].
    destruct (IH (groupPush acc (competitorKey competitors x) x)) as [H1 H2].
    destruct (groupPush_sizes acc (competitorKey competitors x) x) as [S1 S2].
    split; lia. }
  destruct (G []) as [H1 H2]. simpl in *. split; lia.
Qed.

Lemma findUnprocessed_bound (db : Store) :
  (length (findUnprocessed db) <= BATCH)%nat
  /\ length (findUnprocessed db) = Nat.min BATCH (pending db).
Proof.
  unfold findUnprocessed, pending. rewrite length_firstn. split; lia.
Qed.

(** X14.  Every row the job consumes ends up linked, to a cluster that is
    in the table, and rows of the batch with the same competitor key are
    linked to the same cluster. *)
Theorem dedupeAndClusterJob_links_batch
        (competitors : list Ai.CompetitorConfig) (now : Z) (db : Store)
        (b1 b2 : RawItem) :
  let db1 := fst (dedupeAndClusterJob toISODate competitors now db) in
  In b1 (findUnprocessed db) -> In b2 (findUnprocessed db) ->
  competitorKey competitors b1 = competitorKey competitors b2 ->
  exists cid,
    In cid (map clusterId (storyClusters db1))
    /\ In {| linkClusterId := cid; rawItemId := id b1 |} (storyItemLinks db1)
    /\ In {| linkClusterId := cid; rawItemId := id b2 |} (storyItemLinks db1).
Proof.
  intros db1 H1 H2 Hk.
  pose proof (processGroups_trace now
                (groupItems competitors (findUnprocessed db)) db
                {| clustersCreated := 0; itemsLinked := 0 |}) as T.
  destruct T as (_ & _ & _ & L).
  pose proof (groupItems_holds competitors (findUnprocessed db) b1 H1) as G1.
  set (its := filter (fun i => String.eqb (competitorKey competitors i)
                                          (competitorKey competitors b1))
                     (findUnprocessed db)) in *.
  assert (I1 : In b1 its)
    by (apply filter_In; split; [exact H1 | apply String.eqb_refl]).
  assert (I2 : In b2 its).
  { apply filter_In. split; [exact H2|]. rewrite Hk. apply String.eqb_refl. }
  destruct (L _ G1) as (cid & Hcid & Hl).
  { simpl. intros E. rewrite E in I1. contradiction. }
  exists cid. split; [exact Hcid|]. split; apply Hl; assumption.
Qed.

(** X15.  A run is bounded and leaves the existing clusters be: it links
    at most as many items as its batch holds, which is at most 100, and
    creates at most one cluster per competitor group; the clusters that
    were in the table keep their id, title and creation time, in place,
    and the new ones are appended after them. *)
Theorem dedupeAndClusterJob_bounded
        (competitors : list Ai.CompetitorConfig) (now : Z) (db : Store) :
  let run := dedupeAndClusterJob toISODate competitors now db in
  let groups := groupItems competitors (findUnprocessed db) in
  (itemsLinked (snd run) <= length (findUnprocessed db) <= BATCH)%nat
  /\ (clustersCreated (snd run) <= length groups
      <= length (findUnprocessed db))%nat
  /\ exists extra,
      map clusterCore (storyClusters (fst run))
      = (map clusterCore (storyClusters db) ++ extra)%list
      /\ length extra = clustersCreated (snd run).
Proof.
  intros run groups.
  pose proof (processGroups_trace now groups db
                {| clustersCreated := 0; itemsLinked := 0 |}) as T.
  fold run in T. cbn [clustersCreated itemsLinked] in T.
  destruct T as ((extra & C & X & N) & _ & K & _).
  destruct (groupItems_sizes competitors (findUnprocessed db)) as [S1 S2].
  fold groups in S1, S2.
  destruct (findUnprocessed_bound db) as [B _].
  unfold run, dedupeAndClusterJob. fold groups.
  split; [lia|]. split; [lia|].
  exists extra. split; [exact C | lia].
Qed.

End ClusterTraceFacts.

Lemma dedupeAndClusterJob_links_batch_witness :
  exists cid,
    In cid (map Ingestion.clusterId
              (Ingestion.storyClusters
                 (fst (Ingestion.dedupeAndClusterJob Examples.exampleDate
                         Examples.exampleCompetitors 5000
                         Examples.exampleStore))))
    /\ In {| Ingestion.linkClusterId := cid; Ingestion.rawItemId := 1 |}
          (Ingestion.storyItemLinks
             (fst (Ingestion.dedupeAndClusterJob Examples.exampleDate
                     Examples.exampleCompetitors 5000 Examples.exampleStore)))
    /\ In {| Ingestion.linkClusterId := cid; Ingestion.rawItemId := 3 |}
          (Ingestion.storyItemLinks
             (fst (Ingestion.dedupeAndClusterJob Examples.exampleDate
                     Examples.exampleCompetitors 5000 Examples.exampleStore))).
Proof.
  apply (dedupeAndClusterJob_links_batch Examples.exampleDate
           Examples.exampleCompetitors 5000 Examples.exampleStore
           (Examples.rawItem 1 (Some "ServiceTitan ships dispatch board")
                             (Some "ServiceTitan added a dispatch board."))
           (Examples.rawItem 3 (Some "Service Titan pricing")
                             (Some "Rates go up."))).
  - vm_compute. auto.
  - vm_compute. auto.
  - vm_compute. reflexivity.
Defined.

Section BacklogFacts.
Import JsString Ingestion JobSpec.

Variable toISODate : Z -> string.

Lemma filter_marked (ids : list nat) (l : list RawItem) :
  filter unprocessed (map (Spec.markedItem ids) l)
  = filter (fun r => negb (existsb (Nat.eqb (id r)) ids))
           (filter unprocessed l).
Proof.
  induction l as [|r l IH]; [reflexivity|].
  cbn [map filter].
  destruct (existsb (Nat.eqb (id r)) ids) eqn:E.
  - assert (M : Spec.markedItem ids r = setProcessed r)
      by (unfold Spec.markedItem; now rewrite E).
    rewrite M. change (unprocessed (setProcessed r)) with false. cbv iota.
    rewrite IH. destruct (unprocessed r); [|reflexivity].
    cbn [filter]. rewrite E. reflexivity.
  - assert (M : Spec.markedItem ids r = r)
      by (unfold Spec.markedItem; now rewrite E).
    rewrite M. destruct (unprocessed r); [|exact IH].
    cbn [filter]. rewrite E, IH. reflexivity.
Qed.

(** X16.  Each run takes its batch off the backlog: the rows still
    pending afterwards are at most those that were pending less the
    batch, so a run on a non-empty backlog shrinks it, and [n] runs clear
    a backlog of up to [100 * n] rows. *)
Theorem dedupeAndClusterJob_drains
        (competitors : list Ai.CompetitorConfig) (now : Z) (db : Store) :
  let db1 := fst (dedupeAndClusterJob toISODate competitors now db) in
  (pending db1 + length (findUnprocessed db) <= pending db)%nat
  /\ (pending db1 <= pending db - Nat.min BATCH (pending db))%nat
  /\ ((0 < pending db)%nat -> (pending db1 < pending db)%nat)
  /\ forall nows,
      (pending (drain toISODate competitors nows db)
       <= pending db - BATCH * length nows)%nat
      /\ ((pending db <= BATCH * length nows)%nat ->
          findUnprocessed (drain toISODate competitors nows db) = []).
Proof.
  assert (Step : forall now0 db0,
             (pending (fst (dedupeAndClusterJob toISODate competitors now0 db0))
              + length (findUnprocessed db0) <= pending db0)%nat).
  { intros now0 db0.
    pose proof (dedupeAndClusterJob_effect toISODate competitors now0 db0)
      as (R & _).
    set (ids := Spec.groupIds (groupItems competitors (findUnprocessed db0))) in *.
    unfold pending at 1. rewrite R, filter_marked.
    set (F := filter unprocessed (rawItems db0)).
    rewrite <- (firstn_skipn BATCH F), filter_app.
    assert (E : filter (fun r => negb (existsb (Nat.eqb (id r)) ids))
                       (firstn BATCH F) = []).
    { apply filter_none. intros r Hr.
      assert (Hin : In (id r) ids)
        by (apply consumed_ids; exists r; split; [exact Hr | reflexivity]).
      assert (existsb (Nat.eqb (id r)) ids = true).
      { apply existsb_exists. exists (id r).
        split; [exact Hin | apply Nat.eqb_refl]. }
      now rewrite H. }
    rewrite E, app_nil_l.
    pose proof (filter_length_le
                  (fun r => negb (existsb (Nat.eqb (id r)) ids))
                  (skipn BATCH F)) as Hle.
    rewrite length_skipn in Hle.
    unfold findUnprocessed, pending. fold F. rewrite length_firstn. lia. }
  intros db1.
  pose proof (Step now db) as S1. fold db1 in S1.
  destruct (findUnprocessed_bound db) as [_ Hb].
  split; [exact S1|]. split; [lia|]. split.
  { intros Hpos. unfold BATCH in Hb. lia. }
  assert (G : forall nows db0,
             (pending (drain toISODate competitors nows db0)
              <= pending db0 - BATCH * length nows)%nat).
  { induction nows as [|n nows IH]; intros db0.
    - unfold drain. cbn [fold_left length]. lia.
    - unfold drain in *. cbn [fold_left length].
      specialize (IH (fst (dedupeAndClusterJob toISODate competitors n db0))).
      pose proof (Step n db0) as Sn.
      destruct (findUnprocessed_bound db0) as [_ Hb0].
      unfold BATCH in *. lia. }
  intros nows. split; [apply G|].
  intros Hall. specialize (G nows db).
  assert (Hz : pending (drain toISODate competitors nows db) = 0%nat) by lia.
  unfold findUnprocessed. unfold pending in Hz.
  apply length_zero_iff_nil in Hz. rewrite Hz. apply firstn_nil.
Qed.

Lemma NoDup_map_same {A B} (f : A -> B) (l : list A) (x y : A) :
  NoDup (map f l) -> In x l -> In y l -> f x = f y -> x = y.
Proof.
  induction l as [|a l IH]; intros Hnd Hx Hy E; [contradiction|].
  simpl in Hnd. inversion Hnd as [|? ? Hn Hnd']; subst.
  destruct Hx as [-> | Hx], Hy as [-> | Hy]; auto.
  - exfalso. apply Hn. rewrite E. now apply in_map.
  - exfalso. apply Hn. rewrite <- E. now apply in_map.
Qed.

(** X17.  When the ids of the raw items are unique, the job touches only
    the rows of its batch: each of those comes out marked processed and
    otherwise as it was, and every other row, in particular a processed
    row and a row whose text is null, comes out unchanged.  The rows keep
    their ids and their order. *)
Theorem dedupeAndClusterJob_frame
        (competitors : list Ai.CompetitorConfig) (now : Z) (db : Store) :
  NoDup (map id (rawItems db)) ->
  let db1 := fst (dedupeAndClusterJob toISODate competitors now db) in
  rawItems db1
  = map (fun r => if existsb (Nat.eqb (id r)) (map id (findUnprocessed db))
                  then setProcessed r else r)
        (rawItems db)
  /\ map id (rawItems db1) = map id (rawItems db)
  /\ (forall r, In r (findUnprocessed db) -> In (setProcessed r) (rawItems db1))
  /\ (forall r, In r (rawItems db) -> ~ In r (findUnprocessed db) ->
                In r (rawItems db1))
  /\ (forall r, In r (rawItems db) ->
                processed r = true \/ rawText r = None ->
                In r (rawItems db1)).
Proof.
  intros Hnd db1.
  pose proof (dedupeAndClusterJob_effect toISODate competitors now db)
    as (R & _). fold db1 in R.
  set (ids := Spec.groupIds (groupItems competitors (findUnprocessed db))) in *.
  assert (Hsub : forall b, In b (findUnprocessed db) -> In b (rawItems db)).
  { intros b Hb. apply firstn_incl in Hb. now apply filter_In in Hb. }
  assert (Hids : forall r, In r (rawItems db) ->
                           (In (id r) ids <-> In r (findUnprocessed db))).
  { intros r Hr. unfold ids. rewrite consumed_ids. split.
    - intros (b & Hb & E).
      now rewrite <- (NoDup_map_same id _ b r Hnd (Hsub b Hb) Hr E).
    - intros Hb. now exists r. }
  assert (Hout : forall r, In r (rawItems db) -> ~ In r (findUnprocessed db) ->
                           In r (rawItems db1)).
  { intros r Hr Hn. rewrite R. apply in_map_iff. exists r.
    split; [|exact Hr]. unfold Spec.markedItem.
    destruct (existsb (Nat.eqb (id r)) ids) eqn:E; [|reflexivity].
    exfalso. apply Hn, (Hids r Hr).
    apply existsb_exists in E. destruct E as (n & Hn' & En).
    apply Nat.eqb_eq in En. now subst. }
  split.
  { rewrite R. apply map_ext_in. intros r Hr. unfold Spec.markedItem.
    assert (E : existsb (Nat.eqb (id r)) ids
                = existsb (Nat.eqb (id r)) (map id (findUnprocessed db))).
    { apply eq_true_iff_eq. rewrite !existsb_exists.
      split; intros (n & Hn & En); exists n; (split; [|exact En]).
      - apply consumed_ids in Hn. destruct Hn as (b & Hb & <-).
        now apply in_map.
      - apply consumed_ids. apply in_map_iff in Hn.
        destruct Hn as (b & <- & Hb). now exists b. }
    now rewrite E. }
  split.
  { rewrite R, map_map. apply map_ext. intros r. apply markedItem_id. }
  split.
  { intros r Hr. rewrite R. apply in_map_iff. exists r.
    split; [|now apply Hsub]. unfold Spec.markedItem.
    assert (E : existsb (Nat.eqb (id r)) ids = true).
    { apply existsb_exists. exists (id r).
      split; [now apply (Hids r (Hsub r Hr)) | apply Nat.eqb_refl]. }
    now rewrite E. }
  split; [exact Hout|].
  intros r Hr Hskip. apply Hout; [exact Hr|].
  intros Hb. apply firstn_incl in Hb. apply filter_In in Hb.
  destruct Hb as [_ Hu]. unfold unprocessed in Hu.
  destruct Hskip as [E | E]; rewrite E in Hu; simpl in Hu;
    [discriminate | now rewrite andb_false_r in Hu].
Qed.

End BacklogFacts.

Lemma dedupeAndClusterJob_frame_witness :
  NoDup (map Ingestion.id (Ingestion.rawItems Examples.exampleStore))
  /\ In (Examples.rawItem 4 (Some "No text yet") None)
        (Ingestion.rawItems
           (fst (Ingestion.dedupeAndClusterJob Examples.exampleDate
                   Examples.exampleCompetitors 5000 Examples.exampleStore))).
Proof.
  assert (H : NoDup (map Ingestion.id
                         (Ingestion.rawItems Examples.exampleStore))).
  { simpl. repeat constructor; simpl; intuition discriminate. }
  split; [exact H|].
  destruct (dedupeAndClusterJob_frame Examples.exampleDate
              Examples.exampleCompetitors 5000 Examples.exampleStore H)
    as (_ & _ & _ & _ & Hskip).
  apply Hskip; [simpl; auto | now right].
Defined.

(* ================================================================== *)
(** ** More on the alerts job, the job runner and the scheduler *)

Section AlertIdempotence.
Import Ai Ingestion.

Lemma alertStep_tables (s : StorySummary) (db : Store) (sent : nat)
      (a : UserAlert) :
  storySummaries (fst (alertStep s (db, sent) a)) = storySummaries db
  /\ userAlerts (fst (alertStep s (db, sent) a)) = userAlerts db.
Proof.
  unfold alertStep. destruct (alertMatches a s); [|auto].
  destruct (find (sameNotification (userId a) (summaryId s))
                 (notifications db)); auto.
Qed.

Lemma alertPairs_tables (pairs : list (StorySummary * UserAlert)) :
  forall db sent,
    storySummaries
      (fst (fold_left (fun st p => alertStep (fst p) st (snd p)) pairs (db, sent)))
    = storySummaries db
    /\ userAlerts
         (fst (fold_left (fun st p => alertStep (fst p) st (snd p)) pairs
                         (db, sent)))
       = userAlerts db.
Proof.
  induction pairs as [|[s a] pairs IH]; intros db sent; [auto|].
  cbn [fold_left fst snd].
  destruct (alertStep_tables s db sent a) as [H1 H2].
  destruct (alertStep s (db, sent) a) as [db1 sent1]. cbn [fst] in *.
  destruct (IH db1 sent1) as [H3 H4]. split; congruence.
Qed.

(** Pairs whose notification is already there change nothing. *)
Lemma alertPairs_settled (pairs : list (StorySummary * UserAlert)) :
  forall db sent,
    (forall s a, In (s, a) pairs -> alertMatches a s = true ->
                 In (userId a, summaryId s)
                    (map Spec.notifKey (notifications db))) ->
    fold_left (fun st p => alertStep (fst p) st (snd p)) pairs (db, sent)
    = (db, sent).
Proof.
  induction pairs as [|[s a] pairs IH]; intros db sent H; [reflexivity|].
  cbn [fold_left fst snd].
  assert (E : alertStep s (db, sent) a = (db, sent)).
  { unfold alertStep. destruct (alertMatches a s) eqn:M; [|reflexivity].
    destruct (find (sameNotification (userId a) (summaryId s))
                   (notifications db)) eqn:F; [reflexivity|].
    exfalso. apply (find_notification_none _ _ _ F).
    apply H; [now left | exact M]. }
  rewrite E. apply IH. intros s0 a0 Hp. apply H. now right.
Qed.

(** X18.  The alerts job is idempotent: run again at the same or a later
    clock reading on the store it left, it sends nothing and changes
    nothing.  It never touches the summaries or the alert rules. *)
Theorem alertsJob_idempotent (now now' : Z) (db : Store) :
  (now <= now')%Z ->
  let db1 := fst (alertsJob now db) in
  storySummaries db1 = storySummaries db
  /\ userAlerts db1 = userAlerts db
  /\ alertsJob now' db1 = (db1, 0%nat).
Proof.
  intros Hle db1.
  pose proof (alertPairs_tables (Spec.processedPairs now db) db 0) as [T1 T2].
  rewrite <- alertsJob_pairs in T1, T2. fold db1 in T1, T2.
  split; [exact T1|]. split; [exact T2|].
  rewrite alertsJob_pairs. apply alertPairs_settled.
  intros s a Hp Hm.
  pose proof (alertPairs_effect (Spec.processedPairs now db) db) as E.
  rewrite <- alertsJob_pairs in E. fold db1 in E.
  destruct E as (new & N & _ & _ & _ & _ & Hcomplete).
  rewrite N. apply Hcomplete; [|exact Hm].
  apply processedPairs_In in Hp. apply processedPairs_In.
  rewrite T1, T2 in Hp. destruct Hp as [[Hs Hr] Ha].
  split; [|exact Ha]. split; [exact Hs|].
  unfold recentSummary in *. apply andb_true_iff in Hr.
  destruct Hr as [Hp Ht]. rewrite Hp. simpl.
  apply Z.leb_le in Ht. apply Z.leb_le. lia.
Qed.

End AlertIdempotence.

Lemma alertsJob_idempotent_witness :
  (2000 <= 9000)%Z
  /\ Ingestion.alertsJob 9000 (fst (Ingestion.alertsJob 2000 Examples.alertStore))
     = (fst (Ingestion.alertsJob 2000 Examples.alertStore), 0%nat).
Proof.
  assert (H : (2000 <= 9000)%Z) by lia.
  split; [exact H|].
  apply (alertsJob_idempotent 2000 9000 Examples.alertStore H).
Defined.

Section RunnerFacts.
Import Ingestion JobRunner JobSpec.

Variable fetchSourcesJob : Stage nat.
Variable normalizeJob : Stage nat.
Variable clusterJob : Stage ClusterResult.
Variable summarizeAndAnalyzeJob : Stage nat.
Variable alertsStage : Stage nat.

Let runJob : JobType -> Z -> Store * LogTable
             -> (Store * LogTable) * (Thrown + unit) :=
  runJobAsync fetchSourcesJob normalizeJob clusterJob
              summarizeAndAnalyzeJob alertsStage.

Lemma finished_job_row_recorded (name : string) (logs : LogTable)
      (st : JobStatus) (items : nat) (msg : option string) (now : Z) :
  In (finishedJobRow name logs st items msg now)
     (jobRunLogs (updateJobLog (snd (createJobLog name logs))
                               st items msg now
                               (fst (createJobLog name logs)))).
Proof.
  unfold createJobLog, updateJobLog. cbn [fst snd jobRunLogs].
  rewrite map_app. apply in_or_app. right. cbn [map logId].
  rewrite Nat.eqb_refl. left. unfold finishedJobRow.
  now destruct msg.
Qed.

(** X19.  Asking the job runner for "full_pipeline" is running
    [runAllJobs]: the same stores, the same job-log table and the same
    outcome, whatever the five stages do.  (The jobs route and the queue
    worker go through the runner, the scheduler through [runAllJobs].) *)
Theorem runJobAsync_full_pipeline (now : Z) (w : Store * LogTable) :
  runJobAsync fetchSourcesJob normalizeJob clusterJob
              summarizeAndAnalyzeJob alertsStage full_pipeline now w
  = runAllJobs fetchSourcesJob normalizeJob clusterJob
               summarizeAndAnalyzeJob alertsStage now w.
Proof. destruct w as [db logs]. reflexivity. Qed.

(** X20.  A job run on its own runs its one stage and no other: the store
    afterwards is the one that stage left.  If the stage returns, the
    run's row, named after the job, is COMPLETED with the stage's count,
    which for the clustering job is clusters created plus items linked
    (the full pipeline counts only the items linked); if it throws, the
    row is FAILED with a count of 0 and the error's message, and the
    error is thrown on. *)
Theorem runJobAsync_single (now : Z) (db : Store) (logs : LogTable) :
  (forall db' r,
      clusterJob db = (db', inr r) ->
      let out := runJob dedupe_and_cluster now (db, logs) in
      snd out = inr tt /\ fst (fst out) = db'
      /\ In (finishedJobRow "dedupe_and_cluster" logs COMPLETED
               (clustersCreated r + itemsLinked r) None now)
            (jobRunLogs (snd (fst out))))
  /\ (forall db' e,
         clusterJob db = (db', inl e) ->
         let out := runJob dedupe_and_cluster now (db, logs) in
         snd out = inl e /\ fst (fst out) = db'
         /\ In (finishedJobRow "dedupe_and_cluster" logs FAILED 0
                  (Some (errorMsgOf e)) now)
               (jobRunLogs (snd (fst out))))
  /\ (forall (t : JobType) (stage : Stage nat),
         (t = fetch_sources /\ stage = fetchSourcesJob)
         \/ (t = normalize /\ stage = normalizeJob)
         \/ (t = summarize_and_analyze /\ stage = summarizeAndAnalyzeJob)
         \/ (t = alerts /\ stage = alertsStage) ->
         let out := runJob t now (db, logs) in
         (forall db' n,
             stage db = (db', inr n) ->
             snd out = inr tt /\ fst (fst out) = db'
             /\ In (finishedJobRow (jobTypeName t) logs COMPLETED n None now)
                   (jobRunLogs (snd (fst out))))
         /\ (forall db' e,
                stage db = (db', inl e) ->
                snd out = inl e /\ fst (fst out) = db'
                /\ In (finishedJobRow (jobTypeName t) logs FAILED 0
                         (Some (errorMsgOf e)) now)
                      (jobRunLogs (snd (fst out))))).
Proof.
  assert (Hok : forall t db' n,
             jobBody fetchSourcesJob normalizeJob clusterJob
                     summarizeAndAnalyzeJob alertsStage t db = (db', inr n) ->
             let out := runJob t now (db, logs) in
             snd out = inr tt /\ fst (fst out) = db'
             /\ In (finishedJobRow (jobTypeName t) logs COMPLETED n None now)
                   (jobRunLogs (snd (fst out)))).
  { intros t db' n H. unfold runJob, runJobAsync. rewrite H. cbn [fst snd].
    split; [reflexivity|]. split; [reflexivity|].
    apply (finished_job_row_recorded (jobTypeName t) logs COMPLETED n None now). }
  assert (Hko : forall t db' e,
             jobBody fetchSourcesJob normalizeJob clusterJob
                     summarizeAndAnalyzeJob alertsStage t db = (db', inl e) ->
             let out := runJob t now (db, logs) in
             snd out = inl e /\ fst (fst out) = db'
             /\ In (finishedJobRow (jobTypeName t) logs FAILED 0
                      (Some (errorMsgOf e)) now)
                   (jobRunLogs (snd (fst out)))).
  { intros t db' e H. unfold runJob, runJobAsync. rewrite H. cbn [fst snd].
    split; [reflexivity|]. split; [reflexivity|].
    apply (finished_job_row_recorded (jobTypeName t) logs FAILED 0
             (Some (errorMsgOf e)) now). }
  split; [|split].
  - intros db' r H. apply (Hok dedupe_and_cluster).
    unfold jobBody, bind, ret. now rewrite H.
  - intros db' e H. apply (Hko dedupe_and_cluster).
    unfold jobBody, bind. now rewrite H.
  - intros t stage Hts. split.
    + intros db' n H. apply Hok.
      destruct Hts as [[-> ->] | [[-> ->] | [[-> ->] | [-> ->]]]];
        unfold jobBody, bind, ret; now rewrite H.
    + intros db' e H. apply Hko.
      destruct Hts as [[-> ->] | [[-> ->] | [[-> ->] | [-> ->]]]];
        unfold jobBody, bind; now rewrite H.
Qed.

End RunnerFacts.

Lemma runJobAsync_single_witness :
  Examples.returns JobExamples.twoAndThree Examples.alertStore
  = (Examples.alertStore, inr JobExamples.twoAndThree)
  /\ In (JobSpec.finishedJobRow "dedupe_and_cluster" Examples.emptyLogs
           Ingestion.COMPLETED 5 None 6000)
        (Ingestion.jobRunLogs
           (snd (fst (JobRunner.runJobAsync
                        (Examples.throws "offline") (Examples.returns 0%nat)
                        (Examples.returns JobExamples.twoAndThree)
                        (Examples.throws "offline") (Examples.throws "offline")
                        JobRunner.dedupe_and_cluster 6000
                        (Examples.alertStore, Examples.emptyLogs))))).
Proof.
  assert (H : Examples.returns JobExamples.twoAndThree Examples.alertStore
              = (Examples.alertStore, inr JobExamples.twoAndThree))
    by reflexivity.
  split; [exact H|].
  destruct (runJobAsync_single
              (Examples.throws "offline") (Examples.returns 0%nat)
              (Examples.returns JobExamples.twoAndThree)
              (Examples.throws "offline") (Examples.throws "offline")
              6000 Examples.alertStore Examples.emptyLogs) as (K & _).
  exact (proj2 (proj2 (K Examples.alertStore JobExamples.twoAndThree H))).
Defined.

Section SchedulerFacts.
Import Scheduler JobSpec.

Lemma step_consistent (st : State) (c : Call) :
  schedulerConsistent st -> schedulerConsistent (step st c).
Proof.
  intros H. destruct c as [env|]; cbn [step].
  - unfold startScheduler.
    destruct H as [(Hs & t & Hi & Ht) | (Hs & Hi & Ht)]; rewrite Hs.
    + left. split; [exact Hs|]. now exists t.
    + destruct (notDevelopment env && notEnabled env).
      * right. auto.
      * left. cbn. split; [reflexivity|]. exists (nextTimer st).
        rewrite Ht. auto.
  - unfold stopScheduler.
    destruct H as [(Hs & t & Hi & Ht) | (Hs & Hi & Ht)]; rewrite Hi.
    + right. cbn. rewrite Ht. cbn. rewrite Nat.eqb_refl. auto.
    + right. auto.
Qed.

Lemma calls_consistent (calls : list Call) :
  forall st, schedulerConsistent st ->
             schedulerConsistent (fold_left step calls st).
Proof.
  induction calls as [|c calls IH]; intros st H; [exact H|].
  cbn [fold_left]. apply IH. now apply step_consistent.
Qed.

(** X21.  Whatever sequence of starts and stops the scheduler receives,
    it never holds two timers: while started, the runtime holds exactly
    the timer the module remembers, and while stopped none.  From any
    such state a start outside development without ENABLE_SCHEDULER set
    does nothing, a second start does nothing, and a stop after a start
    leaves the module stopped with no timer. *)
Theorem scheduler_single_timer (calls : list Call) (env : Env) :
  let st := fold_left step calls initial in
  schedulerConsistent st
  /\ (length (timers st) <= 1)%nat
  /\ (notDevelopment env = true -> notEnabled env = true ->
      startScheduler env st = st)
  /\ startScheduler env (startScheduler env st) = startScheduler env st
  /\ schedulerStarted (stopScheduler (startScheduler env st)) = false
  /\ timers (stopScheduler (startScheduler env st)) = [].
Proof.
  intros st.
  assert (Hc : schedulerConsistent st).
  { apply calls_consistent. right. auto. }
  split; [exact Hc|].
  split.
  { destruct Hc as [(_ & t & _ & Ht) | (_ & _ & Ht)]; rewrite Ht; cbn; lia. }
  split.
  { intros Hd He. unfold startScheduler. rewrite Hd, He.
    now destruct (schedulerStarted st). }
  split.
  { unfold startScheduler at 1.
    destruct (schedulerStarted (startScheduler env st)) eqn:E; [reflexivity|].
    unfold startScheduler in *.
    destruct (schedulerStarted st) eqn:Es; [congruence|].
    destruct (notDevelopment env && notEnabled env); [reflexivity|].
    cbn in E. discriminate. }
  pose proof (step_consistent st (Start env) Hc) as H1.
  pose proof (step_consistent _ Stop H1) as H2.
  cbn [step] in H1, H2.
  assert (Hstop : schedulerStarted (stopScheduler (startScheduler env st))
                  = false).
  { unfold stopScheduler.
    destruct H1 as [(_ & t & Hi & _) | (Hs & Hi & _)]; rewrite Hi;
      [reflexivity | exact Hs]. }
  split; [exact Hstop|].
  destruct H2 as [(Hs & _) | (_ & _ & Ht)]; [congruence | exact Ht].
Qed.

End SchedulerFacts.
(* ================================================================== *)
(** ** The fetch job and the normalizer *)

Section IntakeFacts.
Import Intake IntakeSpec.

Variable computeChecksum : string -> string.
Variable stripHtml : string -> string.
Variable fetchRssFeed : string -> list FetchResult.
Variable fetchWebPage : string -> option FetchResult.
Variable createError : FetchResult -> option string.

Let create := createItem computeChecksum.
Let store := storeResults computeChecksum createError.
Let fetchOne :=
  fetchSource computeChecksum fetchRssFeed fetchWebPage createError.
Let fetchJob :=
  fetchSourcesJob computeChecksum fetchRssFeed fetchWebPage createError.
Let results := fetchResults fetchRssFeed fetchWebPage.
Let normalize := normalizeJob computeChecksum stripHtml.

Lemma grows_refl (st : Db * nat) : grows st st.
Proof.
  exists []. rewrite app_nil_r. cbn [length]. rewrite !Nat.add_0_r.
  repeat (split; [reflexivity || constructor|]). intros r [].
Qed.

Lemma grows_trans (a b c : Db * nat) : grows a b -> grows b c -> grows a c.
Proof.
  intros (x & R1 & C1 & S1 & N1 & F1 & D1 & U1)
         (y & R2 & C2 & S2 & N2 & F2 & D2 & U2).
  exists (x ++ y)%list. rewrite R2, R1, C2, C1, S2, S1, N2, N1.
  rewrite length_app, <- app_assoc.
  split; [reflexivity|]. split; [lia|]. split; [reflexivity|].
  split; [lia|]. split; [now apply Forall_app|]. split.
  - rewrite map_app. apply NoDup_app; [exact D1 | exact D2|].
    intros u Hx Hy. apply in_map_iff in Hy. destruct Hy as (r & <- & Hr).
    apply (U2 r Hr). rewrite R1, map_app. apply in_or_app. now right.
  - intros r Hr Hin. apply in_app_or in Hr. destruct Hr as [Hr | Hr].
    + now apply (U1 r Hr).
    + apply (U2 r Hr). rewrite R1, map_app. apply in_or_app. now left.
Qed.

Lemma find_url_none (u : string) (t : list ItemRow) :
  find (fun r => String.eqb (rowUrl r) u) t = None <-> ~ In u (map rowUrl t).
Proof.
  induction t as [|r t IH]; simpl; [tauto|].
  destruct (String.eqb (rowUrl r) u) eqn:E.
  - apply String.eqb_eq in E. split; [discriminate|]. intros H. exfalso. auto.
  - apply String.eqb_neq in E. rewrite IH. tauto.
Qed.

Lemma createItem_grows (sid : string) (st : Db * nat) (result : FetchResult) :
  ~ In (url result) (map rowUrl (rows (fst st))) ->
  grows st (create sid st result).
Proof.
  intros F. unfold create, createItem. destruct st as [db n].
  eexists [_]. cbn [fst snd rows sources nextRowId length map].
  split; [reflexivity|]. split; [lia|]. split; [reflexivity|].
  split; [lia|]. split; [repeat constructor|]. split.
  - constructor; [simpl; tauto | constructor].
  - intros r [<- | []]. exact F.
Qed.

Lemma createItem_present (sid : string) (st : Db * nat) (result : FetchResult) :
  In (url result) (map rowUrl (rows (fst (create sid st result)))).
Proof.
  unfold create, createItem. destruct st as [db n].
  cbn [fst rows]. rewrite map_app. apply in_or_app. right. now left.
Qed.

Lemma grows_urls (st st' : Db * nat) (u : string) :
  grows st st' -> In u (map rowUrl (rows (fst st))) ->
  In u (map rowUrl (rows (fst st'))).
Proof.
  intros (x & R & _) H. rewrite R, map_app. apply in_or_app. now left.
Qed.

Lemma storeResults_grows (sid : string) (l : list FetchResult) :
  forall st, grows st (fst (store sid l st)).
Proof.
  induction l as [|r l IH]; intros st; [apply grows_refl|].
  unfold store in *. cbn [storeResults].
  destruct (find _ (rows (fst st))) eqn:F; [apply IH|].
  destruct (createError r); [apply grows_refl|].
  eapply grows_trans; [|apply IH].
  apply createItem_grows. now apply find_url_none.
Qed.


(** When the database rejects none of the results, the loop runs to its
    end and every result's URL is in the table. *)
Lemma storeResults_present (sid : string) (l : list FetchResult) :
  forall st,
    (forall r, In r l -> createError r = None) ->
    snd (store sid l st) = None
    /\ forall r, In r l ->
                 In (url r) (map rowUrl (rows (fst (fst (store sid l st))))).
Proof.
  induction l as [|a l IH]; intros st Hok.
  - split; [reflexivity | intros r []].
  - assert (Hl : forall r, In r l -> createError r = None)
      by (intros r Hr; apply Hok; now right).
    unfold store in *. cbn [storeResults].
    destruct (find _ (rows (fst st))) eqn:F.
    + destruct (IH st Hl) as [E P]. split; [exact E|].
      intros r [<- | Hr]; [|now apply P].
      eapply grows_urls; [apply storeResults_grows|].
      destruct (in_dec string_dec (url a) (map rowUrl (rows (fst st))))
        as [H | H]; [exact H|].
      apply find_url_none in H. congruence.
    + rewrite (Hok a) by now left.
      destruct (IH (createItem computeChecksum sid st a) Hl) as [E P].
      split; [exact E|].
      intros r [<- | Hr]; [|now apply P].
      eapply grows_urls; [apply storeResults_grows|].
      apply createItem_present.
Qed.

(** Results whose URLs are all in the table change nothing and raise no
    error, whatever the database would say to them. *)
Lemma storeResults_known (sid : string) (l : list FetchResult) :
  forall st,
    (forall r, In r l -> In (url r) (map rowUrl (rows (fst st)))) ->
    store sid l st = (st, None).
Proof.
  induction l as [|a l IH]; intros st H; [reflexivity|].
  unfold store in *. cbn [storeResults].
  destruct (find _ (rows (fst st))) eqn:F.
  - apply IH. intros r Hr. apply H. now right.
  - apply find_url_none in F. exfalso. apply F, H. now left.
Qed.

(** One source's round in terms of its loop. *)
Lemma fetchSource_store (db : Db) (out : FetchOutcome) (cfg : SourceConfig) :
  let run := store (sourceIdOf cfg) (results cfg) (db, itemsFetched out) in
  fst (fetchOne (db, out) cfg) = fst (fst run)
  /\ itemsFetched (snd (fetchOne (db, out) cfg)) = snd (fst run)
  /\ errors (snd (fetchOne (db, out) cfg))
     = match snd run with
       | None => errors out
       | Some error =>
           (errors out
            ++ [("Error fetching " ++ name cfg ++ ": " ++ error)%string])%list
       end.
Proof.
  unfold fetchOne, fetchSource, store, results.
  destruct (storeResults _ _ _ _ _) as [[db' n] [e|]]; cbn; auto.
Qed.

Lemma fetchAll_grows (configured : list SourceConfig) :
  forall st,
    grows (fst st, itemsFetched (snd st))
          (fst (fold_left fetchOne configured st),
           itemsFetched (snd (fold_left fetchOne configured st))).
Proof.
  induction configured as [|cfg l IH]; intros st; [apply grows_refl|].
  cbn [fold_left]. eapply grows_trans; [|apply IH].
  destruct st as [db out].
  destruct (fetchSource_store db out cfg) as (E1 & E2 & _).
  rewrite E1, E2. cbn [fst snd].
  rewrite <- surjective_pairing. apply storeResults_grows.
Qed.

Lemma fetchAll_present (configured : list SourceConfig) :
  forall st cfg,
    In cfg configured ->
    (forall r, In r (results cfg) -> createError r = None) ->
    forall r, In r (results cfg) ->
      In (url r)
         (map rowUrl (rows (fst (fold_left fetchOne configured st)))).
Proof.
  induction configured as [|a l IH]; intros st cfg H Hok r Hr; [destruct H|].
  cbn [fold_left]. destruct H as [<- | H]; [|now apply (IH _ cfg)].
  pose proof (fetchAll_grows l (fetchOne st a)) as G.
  apply (grows_urls _ _ (url r) G). cbn [fst].
  destruct st as [db out].
  destruct (fetchSource_store db out a) as (E1 & _). rewrite E1.
  now apply (storeResults_present (sourceIdOf a) (results a)).
Qed.

Lemma fetchAll_known (configured : list SourceConfig) :
  forall st,
    (forall cfg r, In cfg configured -> In r (results cfg) ->
                   In (url r) (map rowUrl (rows (fst st)))) ->
    fold_left fetchOne configured st = st.
Proof.
  induction configured as [|a l IH]; intros st H; [reflexivity|].
  cbn [fold_left].
  assert (E : fetchOne st a = st).
  { destruct st as [db out]. unfold fetchOne, fetchSource.
    fold results. fold store.
    rewrite (storeResults_known (sourceIdOf a)).
    - now destruct out.
    - intros r Hr. apply (H a r); [now left | exact Hr]. }
  rewrite E. apply IH. intros cfg r Hc Hr. apply (H cfg r); [now right | exact Hr].
Qed.


(** *** The table of sources *)

Lemma updateSource_id (cfg : SourceConfig) (r : SourceRow) :
  sourceRowId (updateSource cfg r) = sourceRowId r.
Proof. unfold updateSource. now destruct (String.eqb _ _). Qed.

Lemma hasSource_map (k : string) (cfg : SourceConfig) (t : list SourceRow) :
  hasSource k (map (updateSource cfg) t) = hasSource k t.
Proof.
  unfold hasSource. induction t as [|r t IH]; [reflexivity|].
  cbn [map existsb]. now rewrite updateSource_id, IH.
Qed.

Lemma hasSource_app (k : string) (t u : list SourceRow) :
  hasSource k (t ++ u) = hasSource k t || hasSource k u.
Proof. apply existsb_app. Qed.

Lemma upsertSource_keeps (k : string) (cfg : SourceConfig) (t : list SourceRow) :
  hasSource k t = true -> hasSource k (upsertSource t cfg) = true.
Proof.
  intros H. unfold upsertSource. destruct (hasSource (sourceIdOf cfg) t).
  - now rewrite hasSource_map.
  - rewrite hasSource_app, H. reflexivity.
Qed.

Lemma upsertSource_has (cfg : SourceConfig) (t : list SourceRow) :
  hasSource (sourceIdOf cfg) (upsertSource t cfg) = true.
Proof.
  unfold upsertSource. destruct (hasSource (sourceIdOf cfg) t) eqn:E.
  - now rewrite hasSource_map.
  - rewrite hasSource_app, E. unfold hasSource, createSource. simpl.
    now rewrite String.eqb_refl.
Qed.

Lemma upsertAll_keeps (k : string) (configured : list SourceConfig) :
  forall t, hasSource k t = true ->
            hasSource k (fold_left upsertSource configured t) = true.
Proof.
  induction configured as [|cfg l IH]; intros t H; [exact H|].
  cbn [fold_left]. apply IH. now apply upsertSource_keeps.
Qed.

Lemma upsertAll_has (configured : list SourceConfig) :
  forall t cfg, In cfg configured ->
                hasSource (sourceIdOf cfg) (fold_left upsertSource configured t)
                = true.
Proof.
  induction configured as [|a l IH]; intros t cfg H; [destruct H|].
  cbn [fold_left]. destruct H as [<- | H]; [|now apply IH].
  apply upsertAll_keeps, upsertSource_has.
Qed.

Lemma upsertAll_present (configured : list SourceConfig) :
  forall t,
    (forall cfg, In cfg configured -> hasSource (sourceIdOf cfg) t = true) ->
    fold_left upsertSource configured t = map (refreshAll configured) t.
Proof.
  induction configured as [|a l IH]; intros t H.
  - unfold refreshAll. cbn [fold_left]. now rewrite map_id.
  - cbn [fold_left]. unfold upsertSource at 2.
    rewrite (H a) by now left.
    rewrite IH.
    + rewrite map_map. reflexivity.
    + intros cfg Hc. rewrite hasSource_map. apply H. now right.
Qed.

Lemma refreshAll_names (configured : list SourceConfig) :
  forall r, sourceRowId (refreshAll configured r) = sourceRowId r
            /\ sourceName (refreshAll configured r) = sourceName r.
Proof.
  unfold refreshAll.
  induction configured as [|a l IH]; intros r; [auto|].
  cbn [fold_left]. destruct (IH (updateSource a r)) as [H1 H2].
  rewrite H1, H2. unfold updateSource.
  now destruct (String.eqb _ _).
Qed.

Lemma lastConfig_snoc (k : string) (l : list SourceConfig) (cfg : SourceConfig) :
  lastConfig k (l ++ [cfg])
  = if String.eqb (sourceIdOf cfg) k then Some cfg else lastConfig k l.
Proof. unfold lastConfig. rewrite rev_unit. reflexivity. Qed.

Lemma settled_refreshAll (configured : list SourceConfig) :
  forall r, settled configured r -> refreshAll configured r = r.
Proof.
  induction configured as [|cfg l IH] using rev_ind; intros r H; [reflexivity|].
  unfold refreshAll. rewrite fold_left_app. cbn [fold_left].
  fold (refreshAll l r). unfold updateSource.
  destruct (refreshAll_names l r) as [Hid Hname]. rewrite Hid, Hname.
  destruct (String.eqb (sourceRowId r) (sourceIdOf cfg)) eqn:E.
  - destruct (H cfg) as (H1 & H2 & H3).
    { rewrite lastConfig_snoc. rewrite String.eqb_sym, E. reflexivity. }
    rewrite <- H1, <- H2, <- H3. now destruct r.
  - apply IH. intros c Hc. apply H. rewrite lastConfig_snoc.
    now rewrite String.eqb_sym, E.
Qed.

Lemma hasSource_false (k : string) (t : list SourceRow) (r : SourceRow) :
  hasSource k t = false -> In r t -> String.eqb (sourceRowId r) k = false.
Proof.
  unfold hasSource. intros H Hr.
  destruct (String.eqb (sourceRowId r) k) eqn:E; [|reflexivity].
  assert (existsb (fun r => String.eqb (sourceRowId r) k) t = true).
  { apply existsb_exists. now exists r. }
  congruence.
Qed.

Lemma upsertAll_settled (configured : list SourceConfig) (t : list SourceRow) :
  forall r, In r (fold_left upsertSource configured t) -> settled configured r.
Proof.
  induction configured as [|cfg l IH] using rev_ind; intros r Hr.
  - intros c Hc. discriminate.
  - rewrite fold_left_app in Hr. cbn [fold_left] in Hr.
    set (T := fold_left upsertSource l t) in *.
    assert (Hother : forall x, In x T ->
                       String.eqb (sourceRowId x) (sourceIdOf cfg) = false ->
                       settled (l ++ [cfg]) x).
    { intros x Hx E c Hc. rewrite lastConfig_snoc in Hc.
      rewrite String.eqb_sym, E in Hc. now apply (IH x Hx). }
    assert (Hsame : forall x, sourceRowId x = sourceIdOf cfg ->
                      baseUrl x = base_url cfg ->
                      sourceType x = source_type cfg ->
                      trustTier x = trust_tier cfg ->
                      settled (l ++ [cfg]) x).
    { intros x E H1 H2 H3 c Hc. rewrite lastConfig_snoc in Hc.
      rewrite E, String.eqb_refl in Hc. injection Hc as <-. auto. }
    unfold upsertSource in Hr.
    destruct (hasSource (sourceIdOf cfg) T) eqn:Has.
    + apply in_map_iff in Hr. destruct Hr as (x & <- & Hx).
      unfold updateSource.
      destruct (String.eqb (sourceRowId x) (sourceIdOf cfg)) eqn:E.
      * apply Hsame; try reflexivity. now apply String.eqb_eq in E.
      * now apply Hother.
    + apply in_app_or in Hr. destruct Hr as [Hx | [<- | []]].
      * apply Hother; [exact Hx|]. now apply (hasSource_false _ T).
      * now apply Hsame.
Qed.

Lemma upsertAll_idempotent (configured : list SourceConfig) (t : list SourceRow) :
  fold_left upsertSource configured (fold_left upsertSource configured t)
  = fold_left upsertSource configured t.
Proof.
  rewrite upsertAll_present by (intros cfg H; now apply upsertAll_has).
  rewrite <- (map_id (fold_left upsertSource configured t)) at 2.
  apply map_ext_in. intros r Hr. apply settled_refreshAll.
  now apply (upsertAll_settled configured t).
Qed.


(** X23.  The fetch job is idempotent as long as the database accepts
    what it is given: if it rejects none of the results, then run again
    while the network gives the same answers the job fetches 0 items,
    reports no error and leaves both the item table and the table of
    sources as they were. *)
Theorem fetchSourcesJob_idempotent (configured : list SourceConfig) (db : Db) :
  (forall cfg r, In cfg configured -> In r (results cfg) ->
                 createError r = None) ->
  fetchJob configured (fst (fetchJob configured db))
  = (fst (fetchJob configured db), {| itemsFetched := 0; errors := [] |}).
Proof.
  intros Hok.
  set (out := fetchJob configured db).
  set (db1 := {| sources := fold_left upsertSource configured (sources db);
                 rows := rows db; nextRowId := nextRowId db |}).
  set (start := (db1, {| itemsFetched := 0; errors := [] |})).
  assert (Hs : sources (fst out)
               = fold_left upsertSource configured (sources db)).
  { unfold out, fetchJob, fetchSourcesJob. fold fetchOne.
    destruct (fetchAll_grows configured start) as (_ & _ & _ & S & _).
    exact S. }
  assert (Hp : forall cfg r, In cfg configured -> In r (results cfg) ->
                 In (url r) (map rowUrl (rows (fst out)))).
  { intros cfg r Hc Hr. unfold out, fetchJob, fetchSourcesJob. fold fetchOne.
    apply (fetchAll_present configured start cfg); [exact Hc | | exact Hr].
    intros x Hx. now apply (Hok cfg). }
  unfold fetchJob at 1, fetchSourcesJob. fold fetchOne.
  rewrite Hs, upsertAll_idempotent, <- Hs.
  rewrite fetchAll_known.
  - f_equal. now destruct (fst out).
  - exact Hp.
Qed.

Lemma normalizeItem_textless (t : list ItemRow) (item : ItemRow) :
  hasText item = false -> normalizeItem computeChecksum stripHtml t item = t.
Proof.
  unfold hasText, normalizeItem. destruct (rawText item) as [[|c s]|];
    [reflexivity | discriminate | reflexivity].
Qed.

Lemma normalizeAll_textless (items : list ItemRow) :
  forall t, Forall (fun r => hasText r = false) items ->
            fold_left (normalizeItem computeChecksum stripHtml) items t = t.
Proof.
  induction items as [|a l IH]; intros t H; [reflexivity|].
  cbn [fold_left]. inversion H; subst.
  rewrite normalizeItem_textless by assumption. now apply IH.
Qed.

(** X24.  Rows without text stop the normalizer: when the first 100 rows
    without checksum have no text (null or empty), the job reports them
    as processed and changes nothing, so the next run finds the same
    rows and any other row without checksum stays as it is.  When no row
    is without checksum, the job reports 0. *)
Theorem normalizeJob_textless_rows_stay (db : Db) :
  Forall (fun r => hasText r = false)
         (firstn 100 (filter unchecked (rows db))) ->
  normalize db = (db, Nat.min 100 (length (filter unchecked (rows db)))).
Proof.
  intros H. unfold normalize, normalizeJob.
  rewrite normalizeAll_textless by exact H.
  rewrite length_firstn. now destruct db.
Qed.

Lemma filter_unchecked_none (t : list ItemRow) :
  Forall (fun r => unchecked r = false) t -> filter unchecked t = [].
Proof.
  induction 1 as [|r t Hr _ IH]; [reflexivity|].
  cbn [filter]. now rewrite Hr.
Qed.

(** X25.  The normalizer has nothing to do on what the fetch job stores:
    if every row had its checksum before the fetch job, then after it the
    normalizer reports 0 and changes nothing. *)
Theorem normalizeJob_after_fetch (configured : list SourceConfig) (db : Db) :
  Forall (fun r => unchecked r = false) (rows db) ->
  normalize (fst (fetchJob configured db))
  = (fst (fetchJob configured db), 0%nat).
Proof.
  intros H.
  unfold fetchJob, fetchSourcesJob. fold fetchOne.
  set (db1 := {| sources := fold_left upsertSource configured (sources db);
                 rows := rows db; nextRowId := nextRowId db |}).
  set (start := (db1, {| itemsFetched := 0; errors := [] |})).
  destruct (fetchAll_grows configured start)
    as (added & R & _ & _ & _ & F & _).
  cbn [fst rows] in R.
  unfold normalize, normalizeJob. rewrite R.
  rewrite filter_unchecked_none by now apply Forall_app.
  cbn [firstn fold_left length]. rewrite <- R.
  now destruct (fst (fold_left fetchOne configured start)).
Qed.

Lemma normalizeRow_other (k : nat) (text : string) (t : list ItemRow) :
  ~ In k (map rowId t) -> map (normalizeRow computeChecksum k text) t = t.
Proof.
  induction t as [|r t IH]; intros H; [reflexivity|].
  cbn [map]. rewrite IH by (intros X; apply H; now right).
  unfold normalizeRow. destruct (Nat.eqb (rowId r) k) eqn:E; [|reflexivity].
  apply Nat.eqb_eq in E. exfalso. apply H. now left.
Qed.

Lemma normalizeItem_self (item : ItemRow) (done rest : list ItemRow) :
  NoDup (map rowId (done ++ item :: rest)%list) ->
  normalizeItem computeChecksum stripHtml (done ++ item :: rest)%list item
  = (done ++ normalized computeChecksum stripHtml item :: rest)%list.
Proof.
  intros H. unfold normalizeItem, normalized.
  destruct (rawText item) as [[|c s]|]; [reflexivity | | reflexivity].
  rewrite map_app in H. cbn [map] in H.
  pose proof (NoDup_remove_2 _ _ _ H) as Hn.
  rewrite map_app. cbn [map].
  rewrite !normalizeRow_other.
  - unfold normalizeRow. now rewrite Nat.eqb_refl.
  - intros X. apply Hn. apply in_or_app. now right.
  - intros X. apply Hn. apply in_or_app. now left.
Qed.

Lemma normalized_id (r : ItemRow) :
  rowId (normalized computeChecksum stripHtml r) = rowId r.
Proof. unfold normalized. now destruct (rawText r) as [[|c s]|]. Qed.

Lemma normalizeAll_prefix (l1 : list ItemRow) :
  forall done l2,
    NoDup (map rowId (done ++ l1 ++ l2)%list) ->
    fold_left (normalizeItem computeChecksum stripHtml)
              (filter unchecked l1) (done ++ l1 ++ l2)%list
    = (done ++ map (normalizeIfUnchecked computeChecksum stripHtml) l1
         ++ l2)%list.
Proof.
  induction l1 as [|r l1 IH]; intros done l2 H; [reflexivity|].
  cbn [filter map]. unfold normalizeIfUnchecked at 1.
  destruct (unchecked r) eqn:U.
  - cbn [fold_left]. rewrite <- app_comm_cons, normalizeItem_self by exact H.
    change (done ++ ?x :: ?t)%list with (done ++ [x] ++ t)%list.
    rewrite app_assoc. rewrite IH; [now rewrite <- app_assoc|].
    rewrite <- app_assoc. cbn [app]. rewrite map_app in *. cbn [map] in *.
    now rewrite normalized_id.
  - change (done ++ (r :: l1) ++ l2)%list with (done ++ [r] ++ l1 ++ l2)%list.
    rewrite app_assoc. rewrite IH; [now rewrite <- app_assoc|].
    now rewrite <- app_assoc.
Qed.

Lemma firstn_filter_prefix {A} (p : A -> bool) (l : list A) :
  forall n, exists l1 l2,
      l = (l1 ++ l2)%list /\ firstn n (filter p l) = filter p l1.
Proof.
  induction l as [|a l IH]; intros n.
  - exists [], []. now rewrite firstn_nil.
  - cbn [filter]. destruct (p a) eqn:E.
    + destruct n as [|n].
      * exists [], (a :: l). auto.
      * destruct (IH n) as (l1 & l2 & -> & F). exists (a :: l1), l2.
        cbn [firstn filter app]. now rewrite E, F.
    + destruct (IH n) as (l1 & l2 & -> & F). exists (a :: l1), l2.
      cbn [filter app]. now rewrite E.
Qed.

Lemma unchecked_after (l1 : list ItemRow) :
  (length (filter unchecked
                  (map (normalizeIfUnchecked computeChecksum stripHtml) l1))
   + length (filter hasText (filter unchecked l1))
   = length (filter unchecked l1))%nat.
Proof.
  induction l1 as [|r l1 IH]; [reflexivity|].
  cbn [map filter]. unfold normalizeIfUnchecked at 1.
  destruct (unchecked r) eqn:U.
  - cbn [filter]. unfold normalized, hasText at 1.
    destruct (rawText r) as [[|c s]|] eqn:T.
    + rewrite U. cbn [length]. lia.
    + unfold unchecked at 1. cbn [checksum length]. lia.
    + rewrite U. cbn [length]. lia.
  - now rewrite U.
Qed.

(** X26.  One run of the normalizer, on a table whose row ids are pairwise
    distinct: the table splits into the stretch up to the last row the
    job selected and the rest.  In the stretch every row without checksum
    that has text gets the stripped text and its checksum, every other row
    and the rest stay as they are.  So the rows without checksum go down
    by the number of selected rows that have text, while [itemsProcessed]
    counts every selected row. *)
Theorem normalizeJob_effect (db : Db) :
  NoDup (map rowId (rows db)) ->
  let items := firstn 100 (filter unchecked (rows db)) in
  let db' := fst (normalize db) in
  exists l1 l2,
    rows db = (l1 ++ l2)%list
    /\ items = filter unchecked l1
    /\ rows db'
       = (map (normalizeIfUnchecked computeChecksum stripHtml) l1 ++ l2)%list
    /\ snd (normalize db) = length items
    /\ (length (filter unchecked (rows db')) + length (filter hasText items)
        = length (filter unchecked (rows db)))%nat
    /\ sources db' = sources db.
Proof.
  intros H items db'.
  destruct (firstn_filter_prefix unchecked (rows db) 100) as (l1 & l2 & R & F).
  fold items in F. exists l1, l2.
  assert (R' : rows db'
               = (map (normalizeIfUnchecked computeChecksum stripHtml) l1
                    ++ l2)%list).
  { unfold db', normalize, normalizeJob. cbn [fst rows]. fold items.
    rewrite F, R. rewrite R in H.
    apply (normalizeAll_prefix l1 [] l2 H). }
  split; [exact R|]. split; [exact F|]. split; [exact R'|].
  split; [reflexivity|]. split; [|reflexivity].
  rewrite R', R, F, !filter_app, !length_app.
  pose proof (unchecked_after l1). lia.
Qed.

End IntakeFacts.

Section RateLimitFacts.
Import Intake.

Lemma lastFetchOf_set (domain other : string) (t : Z) (m : RateLimitMap) :
  lastFetchOf other ((domain, t) :: m)
  = if String.eqb domain other then Some t else lastFetchOf other m.
Proof.
  unfold lastFetchOf. cbn [find fst snd].
  now destruct (String.eqb domain other).
Qed.

(** X27.  Rate limiting, for calls made one after the other: when the
    clock does not run backwards and a sleep lasts at least as long as
    asked, two consecutive requests to a domain are stamped at least
    [RATE_LIMIT_MS] (2 seconds) apart.  The job sleeps only when fewer
    than 2 seconds have passed, never asks for more than 2 seconds, does
    not sleep on the first request to a domain, and leaves the stamps of
    other domains alone. *)
Theorem respectRateLimit_spacing (domain : string) (now after : Z)
        (m : RateLimitMap) :
  (now <= after)%Z ->
  (forall d, sleepFor domain now m = Some d -> (now + d <= after)%Z) ->
  let slept := fst (respectRateLimit domain now after m) in
  let m' := snd (respectRateLimit domain now after m) in
  lastFetchOf domain m' = Some after
  /\ (forall other, other <> domain ->
        lastFetchOf other m' = lastFetchOf other m)
  /\ (forall lastFetch, lastFetchOf domain m = Some lastFetch ->
        lastFetch <> 0%Z ->
        (lastFetch + RATE_LIMIT_MS <= after)%Z
        /\ (slept = None <-> (lastFetch + RATE_LIMIT_MS <= now)%Z)
        /\ ((lastFetch <= now)%Z -> forall d, slept = Some d ->
              (0 < d <= RATE_LIMIT_MS)%Z))
  /\ (lastFetchOf domain m = None -> slept = None).
Proof.
  intros Hmono Hsleep slept m'. unfold slept, m', respectRateLimit.
  cbn [fst snd]. split; [|split; [|split]].
  - now rewrite lastFetchOf_set, String.eqb_refl.
  - intros other Hne. rewrite lastFetchOf_set.
    destruct (String.eqb domain other) eqn:E; [|reflexivity].
    apply String.eqb_eq in E. congruence.
  - intros lastFetch Hl Hz. unfold sleepFor in *. rewrite Hl in *.
    apply Z.eqb_neq in Hz. rewrite Hz in *.
    unfold RATE_LIMIT_MS in *.
    destruct (now - lastFetch <? 2000)%Z eqn:E.
    + apply Z.ltb_lt in E. specialize (Hsleep _ eq_refl).
      split; [lia|]. split.
      * split; [discriminate | intros; exfalso; lia].
      * intros Hle d Hd.
        assert (Hv : (d = 2000 - (now - lastFetch))%Z) by congruence. lia.
    + apply Z.ltb_ge in E. split; [lia|]. split.
      * split; [intros; lia | reflexivity].
      * intros _ d Hd. discriminate.
  - intros Hn. unfold sleepFor. now rewrite Hn.
Qed.

End RateLimitFacts.

(* ================================================================== *)
(** ** The summarizer *)

Section SummarizeFacts.
Import Summarize SummarizeSpec.

Variable competitors : list Ai.CompetitorConfig.
Variable toISOString : Z -> string.

Let job := summarizeAndAnalyzeJob competitors toISOString.
Let step := summarizeCluster competitors toISOString.
Let done := summarized competitors toISOString.

Lemma summarized_nil (now : Z) (found : Ingestion.Store) (st : World * nat) :
  done now found [] st st.
Proof.
  exists []. cbn [filter map length]. rewrite !app_nil_r, !Nat.add_0_r.
  split; [constructor|]. repeat (split; [reflexivity|]). reflexivity.
Qed.

Lemma Forall2_In_l {A B} (R : A -> B -> Prop) (l : list A) (l' : list B) (x : A) :
  Forall2 R l l' -> In x l -> exists y, In y l' /\ R x y.
Proof.
  induction 1 as [|a b l l' Hab _ IH]; intros Hx; [destruct Hx|].
  destruct Hx as [<- | Hx].
  - exists b. split; [now left | exact Hab].
  - destruct (IH Hx) as (y & Hy & Hr). exists y. split; [now right | exact Hr].
Qed.

Lemma summarizeCluster_summarized (now : Z) (found : Ingestion.Store)
      (st : World * nat) (c : Ingestion.StoryCluster) :
  done now found [c] st (step now found st c).
Proof.
  unfold done, summarized, step, summarizeCluster, hasItems.
  destruct st as [w n]. cbn [filter].
  destruct (linkedItems found c) as [|i items] eqn:E.
  - apply (summarized_nil now found (w, n)).
  - set (analysis := Narrative.analyzeCluster competitors (toISOString now)
                                              (i :: items)).
    exists [(summaryRow now w analysis, detailRow w c analysis)].
    cbn [fst snd map length store summaryDetails competitorRows verticalRows
         createSummary Ingestion.storySummaries Ingestion.nextId
         Ingestion.rawItems Ingestion.storyClusters Ingestion.storyItemLinks
         Ingestion.userAlerts Ingestion.notifications].
    split.
    { constructor; [|constructor]. unfold madeFrom. rewrite E.
      fold analysis. cbn. repeat (split; [reflexivity|]). reflexivity. }
    split; [reflexivity|]. split; [reflexivity|]. split; [lia|].
    split; [lia|]. repeat (split; [reflexivity|]). reflexivity.
Qed.

Lemma summarized_app (now : Z) (found : Ingestion.Store)
      (cs cs' : list Ingestion.StoryCluster) (a b c : World * nat) :
  done now found cs a b -> done now found cs' b c ->
  done now found (cs ++ cs')%list a c.
Proof.
  intros (x & F1 & S1 & D1 & C1 & N1 & R1 & K1 & L1 & A1 & O1 & P1 & V1)
         (y & F2 & S2 & D2 & C2 & N2 & R2 & K2 & L2 & A2 & O2 & P2 & V2).
  exists (x ++ y)%list.
  rewrite filter_app, !map_app, length_app, !app_assoc.
  split; [now apply Forall2_app|].
  rewrite S2, S1, D2, D1, C2, C1, N2, N1, R2, R1, K2, K1, L2, L1, A2, A1,
    O2, O1, P2, P1, V2, V1.
  split; [reflexivity|]. split; [reflexivity|]. split; [lia|].
  split; [lia|]. repeat (split; [reflexivity|]). reflexivity.
Qed.

Lemma summarizeAll_summarized (now : Z) (found : Ingestion.Store)
      (cs : list Ingestion.StoryCluster) :
  forall st, done now found cs st (fold_left (step now found) cs st).
Proof.
  induction cs as [|c cs IH]; intros st; [apply summarized_nil|].
  cbn [fold_left]. change (c :: cs) with ([c] ++ cs)%list.
  eapply summarized_app; [apply summarizeCluster_summarized | apply IH].
Qed.

Lemma summarizeAll_no_items (now : Z) (found : Ingestion.Store)
      (cs : list Ingestion.StoryCluster) :
  forall st, Forall (fun c => hasItems found c = false) cs ->
             fold_left (step now found) cs st = st.
Proof.
  induction cs as [|c cs IH]; intros st H; [reflexivity|].
  inversion H as [|? ? Hc Hcs]; subst. cbn [fold_left].
  assert (E : step now found st c = st).
  { unfold step, summarizeCluster. destruct st as [w n].
    unfold hasItems in Hc. destruct (linkedItems found c); [reflexivity|].
    discriminate. }
  rewrite E. now apply IH.
Qed.

Lemma linkedItems_tables (db db' : Ingestion.Store) (c : Ingestion.StoryCluster) :
  Ingestion.rawItems db' = Ingestion.rawItems db ->
  Ingestion.storyItemLinks db' = Ingestion.storyItemLinks db ->
  linkedItems db' c = linkedItems db c.
Proof. intros H1 H2. unfold linkedItems. now rewrite H1, H2. Qed.

Lemma hasSummary_app (d1 d2 : list SummaryDetail) (c : Ingestion.StoryCluster) :
  hasSummary (d1 ++ d2) c = hasSummary d1 c || hasSummary d2 c.
Proof. apply existsb_app. Qed.

Lemma summarized_hasSummary (now : Z) (found : Ingestion.Store)
      (cs : list Ingestion.StoryCluster) (st st' : World * nat) :
  done now found cs st st' ->
  (forall c, In c cs -> hasItems found c = true ->
             hasSummary (summaryDetails (fst st')) c = true)
  /\ (forall c, hasSummary (summaryDetails (fst st)) c = true ->
                hasSummary (summaryDetails (fst st')) c = true).
Proof.
  intros (news & F & _ & D & _). split.
  - intros c Hc E. rewrite D, hasSummary_app.
    assert (Hin : In c (filter (hasItems found) cs))
      by (apply filter_In; auto).
    destruct (Forall2_In_l _ _ _ _ F Hin) as (sd & Hsd & Hm & _).
    apply orb_true_iff. right.
    unfold hasSummary. apply existsb_exists. exists (snd sd).
    split; [now apply in_map | now apply Nat.eqb_eq].
  - intros c Hc. now rewrite D, hasSummary_app, Hc.
Qed.

Lemma summarizeAndAnalyzeJob_covers (now : Z) (w : World)
      (c : Ingestion.StoryCluster) :
  (length (filter (fun c => negb (hasSummary (summaryDetails w) c))
                  (Ingestion.storyClusters (store w))) <= 50)%nat ->
  In c (Ingestion.storyClusters (store w)) ->
  hasItems (store w) c = true ->
  hasSummary (summaryDetails (fst (job now w))) c = true.
Proof.
  intros Hlen Hc E.
  pose proof (summarizeAll_summarized now (store w)
                (clustersWithoutSummaries w) (w, 0%nat)) as H.
  change (fold_left (step now (store w)) (clustersWithoutSummaries w)
                    (w, 0%nat)) with (job now w) in H.
  destruct (summarized_hasSummary _ _ _ _ _ H) as [H1 H2]. cbn [fst] in H1, H2.
  destruct (hasSummary (summaryDetails w) c) eqn:Hs; [now apply H2|].
  apply H1; [|exact E].
  unfold clustersWithoutSummaries. rewrite firstn_all2 by exact Hlen.
  apply filter_In. split; [exact Hc | now rewrite Hs].
Qed.

(** X28.  One run of the summarizer creates one summary for each cluster
    it selected that has at least one linked item, in the order of the
    selection, and nothing else: [summariesCreated] is their number, each
    new summary belongs to its cluster and carries the priority, the
    capabilities, the text, the confidence and the verification status of
    [analyzeCluster] on the cluster's items, and the items, clusters,
    links, alert rules and notifications stay as they are.  The new
    summaries correspond one to one to those clusters, so a selected
    cluster without items gives none; every such cluster has a summary
    afterwards, and a cluster that had one still has it. *)
Theorem summarizeAndAnalyzeJob_effect (now : Z) (w : World) :
  let selected := clustersWithoutSummaries w in
  let w' := fst (job now w) in
  summarized competitors toISOString now (store w) selected
             (w, 0%nat) (job now w)
  /\ snd (job now w) = length (filter (hasItems (store w)) selected)
  /\ (forall c, In c selected -> hasItems (store w) c = true ->
        hasSummary (summaryDetails w') c = true)
  /\ (forall c, hasSummary (summaryDetails w) c = true ->
        hasSummary (summaryDetails w') c = true).
Proof.
  intros selected w'.
  pose proof (summarizeAll_summarized now (store w) selected (w, 0%nat)) as H.
  change (fold_left (step now (store w)) selected (w, 0%nat))
    with (job now w) in H.
  split; [exact H|].
  destruct (summarized_hasSummary _ _ _ _ _ H) as [H1 H2]. cbn [fst] in H1, H2.
  destruct H as (news & F & _ & _ & C & _). cbn [snd] in C.
  split; [|split].
  - rewrite C. symmetry. apply (Forall2_length F).
  - exact H1.
  - exact H2.
Qed.

(** X29.  Once the backlog fits one batch, the summarizer is idempotent:
    if at most 50 clusters were without summary, a second run, at any
    time, creates nothing and changes nothing.  What it leaves without
    summary are the clusters that have no linked item. *)
Theorem summarizeAndAnalyzeJob_settles (now now' : Z) (w : World) :
  (length (filter (fun c => negb (hasSummary (summaryDetails w) c))
                  (Ingestion.storyClusters (store w))) <= 50)%nat ->
  let w' := fst (job now w) in
  job now' w' = (w', 0%nat)
  /\ (forall c, In c (Ingestion.storyClusters (store w')) ->
        hasSummary (summaryDetails w') c = false ->
        linkedItems (store w') c = []).
Proof.
  intros Hlen w'.
  pose proof (summarizeAll_summarized now (store w)
                (clustersWithoutSummaries w) (w, 0%nat)) as H.
  change (fold_left (step now (store w)) (clustersWithoutSummaries w)
                    (w, 0%nat)) with (job now w) in H.
  destruct H as (news & F & _ & D & _ & _ & R & K & L & _).
  cbn [fst] in D, R, K, L. fold w' in D, R, K, L.
  assert (Hrest : forall c, In c (Ingestion.storyClusters (store w')) ->
                    hasSummary (summaryDetails w') c = false ->
                    hasItems (store w') c = false).
  { intros c Hc Hs. rewrite K in Hc.
    unfold hasItems. rewrite (linkedItems_tables _ _ c R L).
    fold (hasItems (store w) c).
    destruct (hasItems (store w) c) eqn:E; [|reflexivity].
    pose proof (summarizeAndAnalyzeJob_covers now w c Hlen Hc E) as Hyes.
    fold w' in Hyes. congruence. }
  split.
  - unfold job, summarizeAndAnalyzeJob. apply summarizeAll_no_items.
    apply Forall_forall. intros c Hc.
    unfold clustersWithoutSummaries in Hc. apply firstn_incl in Hc.
    apply filter_In in Hc. destruct Hc as [Hc Hs].
    apply Hrest; [exact Hc | now apply negb_true_iff].
  - intros c Hc Hs. specialize (Hrest c Hc Hs). unfold hasItems in Hrest.
    destruct (linkedItems (store w') c); [reflexivity | discriminate].
Qed.

End SummarizeFacts.

(* ================================================================== *)
(** ** The clusterer and the summarizer together *)

Section ClusterThenSummarize.
Import Ingestion Summarize SummarizeSpec.

Variable toISODate : Z -> string.
Variable toISOString : Z -> string.
Variable competitors : list Ai.CompetitorConfig.

Lemma find_id_some (n : nat) (t : list RawItem) :
  In n (map id t) -> find (fun r => Nat.eqb (id r) n) t <> None.
Proof.
  intros H F. apply in_map_iff in H. destruct H as (r & <- & Hr).
  pose proof (List.find_none _ _ F r Hr) as E. cbn in E.
  now rewrite Nat.eqb_refl in E.
Qed.

Lemma linked_hasItems (db : Store) (c : StoryCluster) (n : nat) :
  In {| linkClusterId := clusterId c; rawItemId := n |} (storyItemLinks db) ->
  In n (map id (rawItems db)) ->
  hasItems db c = true.
Proof.
  intros Hl Hn. unfold hasItems.
  destruct (linkedItems db c) as [|i its] eqn:E; [|reflexivity].
  exfalso. apply find_id_some in Hn.
  destruct (find (fun r => Nat.eqb (id r) n) (rawItems db)) as [r|] eqn:F;
    [|congruence].
  assert (Hin : In (toItem r) (linkedItems db c)).
  { unfold linkedItems. apply in_flat_map. eexists. split; [exact Hl|].
    cbn [linkClusterId rawItemId]. rewrite Nat.eqb_refl, F. now left. }
  rewrite E in Hin. destruct Hin.
Qed.

(** X30.  The clusterer and the summarizer fit together: after a run of
    the clusterer and then a run of the summarizer, every row the
    clusterer consumed is linked to a cluster that has a summary,
    provided the clusters without summary fit the summarizer's batch of
    50; the cluster has at least one item for the analysis to read. *)
Theorem clustered_rows_get_summaries (now now2 : Z) (w : World) (b : RawItem) :
  let db1 := fst (dedupeAndClusterJob toISODate competitors now (store w)) in
  let w1 := {| store := db1;
               summaryDetails := summaryDetails w;
               competitorRows := competitorRows w;
               verticalRows := verticalRows w |} in
  let w2 := fst (summarizeAndAnalyzeJob competitors toISOString now2 w1) in
  In b (findUnprocessed (store w)) ->
  (length (filter (fun c => negb (hasSummary (summaryDetails w) c))
                  (storyClusters db1)) <= 50)%nat ->
  exists c,
    In c (storyClusters (store w2))
    /\ In {| linkClusterId := clusterId c; rawItemId := id b |}
          (storyItemLinks (store w2))
    /\ hasItems (store w2) c = true
    /\ hasSummary (summaryDetails w2) c = true.
Proof.
  intros db1 w1 w2 Hb Hlen.
  (* the clusterer links [b] to a cluster of its store *)
  pose proof (processGroups_trace toISODate now
                (groupItems competitors (findUnprocessed (store w))) (store w)
                {| clustersCreated := 0; itemsLinked := 0 |}) as T.
  destruct T as (_ & _ & _ & L).
  pose proof (groupItems_holds competitors (findUnprocessed (store w)) b Hb)
    as G.
  set (its := filter (fun i => String.eqb (competitorKey competitors i)
                                          (competitorKey competitors b))
                     (findUnprocessed (store w))) in *.
  assert (I : In b its)
    by (apply filter_In; split; [exact Hb | apply String.eqb_refl]).
  destruct (L _ G) as (cid & Hcid & Hl).
  { cbn [snd]. intros E. rewrite E in I. contradiction. }
  specialize (Hl b I).
  change (fst (fold_left (processGroup toISODate now)
                         (groupItems competitors (findUnprocessed (store w)))
                         (store w, {| clustersCreated := 0; itemsLinked := 0 |})))
    with db1 in Hcid, Hl.
  apply in_map_iff in Hcid. destruct Hcid as (c & <- & Hc).
  (* the row is still in the table, so the cluster has an item *)
  assert (Hid : In (id b) (map id (rawItems db1))).
  { destruct (dedupeAndClusterJob_effect toISODate competitors now (store w))
      as (R & _).
    fold db1 in R. rewrite R, map_map.
    apply in_map_iff. exists b. split.
    - apply markedItem_id.
    - unfold findUnprocessed in Hb. apply firstn_incl in Hb.
      now apply filter_In in Hb. }
  pose proof (linked_hasItems db1 c (id b) Hl Hid) as Hitems.
  (* the summarizer keeps the tables and gives the cluster a summary *)
  pose proof (summarizeAll_summarized competitors toISOString now2 (store w1)
                (clustersWithoutSummaries w1) (w1, 0%nat)) as S.
  change (fold_left (summarizeCluster competitors toISOString now2 (store w1))
                    (clustersWithoutSummaries w1) (w1, 0%nat))
    with (summarizeAndAnalyzeJob competitors toISOString now2 w1) in S.
  destruct S as (_ & _ & _ & _ & _ & _ & R & K & Lk & _).
  cbn [fst] in R, K, Lk. fold w2 in R, K, Lk. cbn [store w1] in R, K, Lk.
  exists c. split; [now rewrite K|]. split; [now rewrite Lk|]. split.
  - unfold hasItems. rewrite (linkedItems_tables _ _ c R Lk). exact Hitems.
  - apply (summarizeAndAnalyzeJob_covers competitors toISOString now2 w1 c);
      assumption.
Qed.

End ClusterThenSummarize.

Lemma normalizeJob_textless_rows_stay_witness :
  Intake.normalizeJob IntakeExamples.checksumOf IntakeExamples.stripped
                      IntakeExamples.textlessDb
  = (IntakeExamples.textlessDb, 2%nat).
Proof.
  apply (normalizeJob_textless_rows_stay
           IntakeExamples.checksumOf IntakeExamples.stripped
           IntakeExamples.textlessDb).
  vm_compute. repeat constructor.
Defined.

Lemma normalizeJob_after_fetch_witness :
  Intake.normalizeJob IntakeExamples.checksumOf IntakeExamples.stripped
    (fst (Intake.fetchSourcesJob IntakeExamples.checksumOf
            IntakeExamples.noFeed IntakeExamples.homePage
            IntakeExamples.rejectsInvalidDate
            [IntakeExamples.tradeDigest] IntakeExamples.checkedDb))
  = (fst (Intake.fetchSourcesJob IntakeExamples.checksumOf
            IntakeExamples.noFeed IntakeExamples.homePage
            IntakeExamples.rejectsInvalidDate
            [IntakeExamples.tradeDigest] IntakeExamples.checkedDb), 0%nat).
Proof.
  apply (normalizeJob_after_fetch
           IntakeExamples.checksumOf IntakeExamples.stripped
           IntakeExamples.noFeed IntakeExamples.homePage
           IntakeExamples.rejectsInvalidDate
           [IntakeExamples.tradeDigest] IntakeExamples.checkedDb).
  vm_compute. repeat constructor.
Defined.

Lemma fetchSourcesJob_idempotent_witness :
  Intake.fetchSourcesJob IntakeExamples.checksumOf
    IntakeExamples.noFeed IntakeExamples.homePage
    IntakeExamples.rejectsInvalidDate [IntakeExamples.tradeDigest]
    (fst (Intake.fetchSourcesJob IntakeExamples.checksumOf
            IntakeExamples.noFeed IntakeExamples.homePage
            IntakeExamples.rejectsInvalidDate
            [IntakeExamples.tradeDigest] IntakeExamples.checkedDb))
  = (fst (Intake.fetchSourcesJob IntakeExamples.checksumOf
            IntakeExamples.noFeed IntakeExamples.homePage
            IntakeExamples.rejectsInvalidDate
            [IntakeExamples.tradeDigest] IntakeExamples.checkedDb),
     {| Intake.itemsFetched := 0; Intake.errors := [] |}).
Proof.
  apply (fetchSourcesJob_idempotent
           IntakeExamples.checksumOf IntakeExamples.stripped
           IntakeExamples.noFeed IntakeExamples.homePage
           IntakeExamples.rejectsInvalidDate
           [IntakeExamples.tradeDigest] IntakeExamples.checkedDb).
  intros cfg r [<- | []] Hr. vm_compute in Hr.
  destruct Hr as [<- | []]. reflexivity.
Defined.

(** When the database rejects a row, a second run of the fetch job can
    store more: the job is idempotent only over a database that accepts
    what it is given.  A blog's
    feed has two posts, the first with a date the database rejects, and a
    review site's page has the first post's URL.  The first run ends the
    blog's loop at the rejected create, reports the error and stores the
    review site's page, one item; the second run finds that URL in the
    table, goes past the first post and stores the second, one item
    again. *)
Lemma fetchSourcesJob_rejection_then_more :
  Intake.errors
    (snd (Intake.fetchSourcesJob IntakeExamples.checksumOf
            IntakeExamples.blogFeed IntakeExamples.homePage
            IntakeExamples.rejectsInvalidDate
            [IntakeExamples.blog; IntakeExamples.reviewSite]
            IntakeExamples.emptyDb))
  = ["Error fetching Blog: Invalid Date"]
  /\ Intake.itemsFetched
       (snd (Intake.fetchSourcesJob IntakeExamples.checksumOf
               IntakeExamples.blogFeed IntakeExamples.homePage
               IntakeExamples.rejectsInvalidDate
               [IntakeExamples.blog; IntakeExamples.reviewSite]
               IntakeExamples.emptyDb))
     = 1%nat
  /\ Intake.itemsFetched
       (snd (Intake.fetchSourcesJob IntakeExamples.checksumOf
               IntakeExamples.blogFeed IntakeExamples.homePage
               IntakeExamples.rejectsInvalidDate
               [IntakeExamples.blog; IntakeExamples.reviewSite]
               (fst (Intake.fetchSourcesJob IntakeExamples.checksumOf
                       IntakeExamples.blogFeed IntakeExamples.homePage
                       IntakeExamples.rejectsInvalidDate
                       [IntakeExamples.blog; IntakeExamples.reviewSite]
                       IntakeExamples.emptyDb))))
     = 1%nat.
Proof. vm_compute. auto. Qed.

Lemma normalizeJob_effect_witness :
  exists l1 l2,
    Intake.rows IntakeExamples.mixedDb = (l1 ++ l2)%list
    /\ Intake.rows (fst (Intake.normalizeJob IntakeExamples.checksumOf
                           IntakeExamples.stripped IntakeExamples.mixedDb))
       = (map (IntakeSpec.normalizeIfUnchecked IntakeExamples.checksumOf
                                               IntakeExamples.stripped) l1
            ++ l2)%list.
Proof.
  assert (H : NoDup (map Intake.rowId (Intake.rows IntakeExamples.mixedDb))).
  { vm_compute. repeat constructor; simpl; intuition discriminate. }
  destruct (normalizeJob_effect IntakeExamples.checksumOf
              IntakeExamples.stripped IntakeExamples.mixedDb H)
    as (l1 & l2 & R & _ & R' & _).
  exists l1, l2. split; [exact R | exact R'].
Defined.

Lemma respectRateLimit_spacing_witness :
  (10000 + Intake.RATE_LIMIT_MS <= 12000)%Z.
Proof.
  assert (H1 : (10500 <= 12000)%Z) by lia.
  assert (H2 : forall d,
             Intake.sleepFor "example.com" 10500 IntakeExamples.oneStamp
             = Some d -> (10500 + d <= 12000)%Z).
  { intros d H. vm_compute in H. injection H as <-. lia. }
  destruct (respectRateLimit_spacing "example.com" 10500 12000
              IntakeExamples.oneStamp H1 H2) as (_ & _ & H & _).
  apply (H 10000%Z); [reflexivity | lia].
Defined.

Lemma summarizeAndAnalyzeJob_settles_witness :
  Summarize.summarizeAndAnalyzeJob Examples.exampleCompetitors
    SummarizeExamples.exampleStamp 9000
    (fst (Summarize.summarizeAndAnalyzeJob Examples.exampleCompetitors
            SummarizeExamples.exampleStamp 6000
            SummarizeExamples.exampleWorld))
  = (fst (Summarize.summarizeAndAnalyzeJob Examples.exampleCompetitors
            SummarizeExamples.exampleStamp 6000
            SummarizeExamples.exampleWorld), 0%nat).
Proof.
  assert (H : (length
                 (filter (fun c => negb (Summarize.hasSummary
                                           (Summarize.summaryDetails
                                              SummarizeExamples.exampleWorld) c))
                         (Ingestion.storyClusters
                            (Summarize.store SummarizeExamples.exampleWorld)))
               <= 50)%nat).
  { vm_compute. lia. }
  exact (proj1 (summarizeAndAnalyzeJob_settles Examples.exampleCompetitors
                  SummarizeExamples.exampleStamp 6000 9000
                  SummarizeExamples.exampleWorld H)).
Defined.

Lemma clustered_rows_get_summaries_witness :
  exists c,
    In {| Ingestion.linkClusterId := Ingestion.clusterId c;
          Ingestion.rawItemId := 1 |}
       (Ingestion.storyItemLinks
          (Summarize.store
             (fst (Summarize.summarizeAndAnalyzeJob Examples.exampleCompetitors
                     SummarizeExamples.exampleStamp 6000
                     {| Summarize.store :=
                          fst (Ingestion.dedupeAndClusterJob
                                 Examples.exampleDate Examples.exampleCompetitors
                                 5000
                                 (Summarize.store SummarizeExamples.exampleWorld));
                        Summarize.summaryDetails :=
                          Summarize.summaryDetails SummarizeExamples.exampleWorld;
                        Summarize.competitorRows :=
                          Summarize.competitorRows SummarizeExamples.exampleWorld;
                        Summarize.verticalRows :=
                          Summarize.verticalRows SummarizeExamples.exampleWorld
                     |}))))
    /\ Summarize.hasSummary
         (Summarize.summaryDetails
            (fst (Summarize.summarizeAndAnalyzeJob Examples.exampleCompetitors
                    SummarizeExamples.exampleStamp 6000
                    {| Summarize.store :=
                         fst (Ingestion.dedupeAndClusterJob
                                Examples.exampleDate Examples.exampleCompetitors
                                5000
                                (Summarize.store SummarizeExamples.exampleWorld));
                       Summarize.summaryDetails :=
                         Summarize.summaryDetails SummarizeExamples.exampleWorld;
                       Summarize.competitorRows :=
                         Summarize.competitorRows SummarizeExamples.exampleWorld;
                       Summarize.verticalRows :=
                         Summarize.verticalRows SummarizeExamples.exampleWorld
                    |}))) c
       = true.
Proof.
  assert (H1 : In (Examples.rawItem 1 (Some "ServiceTitan ships dispatch board")
                                    (Some "ServiceTitan added a dispatch board."))
                  (Ingestion.findUnprocessed
                     (Summarize.store SummarizeExamples.exampleWorld))).
  { vm_compute. auto. }
  assert (H2 : (length
                  (filter (fun c => negb (Summarize.hasSummary
                                            (Summarize.summaryDetails
                                               SummarizeExamples.exampleWorld) c))
                          (Ingestion.storyClusters
                             (fst (Ingestion.dedupeAndClusterJob
                                     Examples.exampleDate
                                     Examples.exampleCompetitors 5000
                                     (Summarize.store
                                        SummarizeExamples.exampleWorld)))))
                <= 50)%nat).
  { apply Nat.leb_le. vm_compute. reflexivity. }
  destruct (clustered_rows_get_summaries Examples.exampleDate
              SummarizeExamples.exampleStamp Examples.exampleCompetitors
              5000 6000 SummarizeExamples.exampleWorld _ H1 H2)
    as (c & _ & Hl & _ & Hs).
  exists c. split; [exact Hl | exact Hs].
Defined.
